(** * Marko 4.18 browser runtime: a shallow embedding of the virtual-DOM
    model, the reconciler (morphdom), the async VDOM builder, the event
    emitter, the key sequence and the component update path, with the
    properties stated about them. *)

From Stdlib Require Import ZArith String List Bool Lia.
From stdpp Require Import base gmap strings pretty list.
Import ListNotations.
Open Scope string_scope.
Set Warnings "-register-all".

(* ===================================================================== *)
(** ** JavaScript values stored in a plain object used as a map          *)
(* ===================================================================== *)

Module JSObj.

(** The values the runtime stores in its plain lookup objects: numbers
    (with [NaN] as [JNum None]), [undefined], and objects (the inherited
    members of [Object.prototype] are function objects). *)
Inductive jsval :=
| JUndefined
| JNum (n : option Z)
| JObject.

(** Names inherited from [Object.prototype] by every [{}] literal. *)
Definition proto_names : list string :=
  ["constructor"; "hasOwnProperty"; "isPrototypeOf"; "propertyIsEnumerable";
   "toLocaleString"; "toString"; "valueOf"; "__defineGetter__";
   "__defineSetter__"; "__lookupGetter__"; "__lookupSetter__"; "__proto__"].

(** A plain object: its own data properties. *)
Abbreviation obj := (gmap string jsval).

(** Property read [o[k]]: own property, else the inherited member. *)
Definition js_get (o : obj) (k : string) : jsval :=
  if String.eqb k "__proto__" then JObject
  else match o !! k with
       | Some v => v
       | None => if existsb (String.eqb k) proto_names then JObject else JUndefined
       end.

(** Property write [o[k] = v] of a number: the inherited [__proto__]
    accessor ignores a non-object value; any other key becomes an own
    property. (The runtime only writes numbers into these objects.) *)
Definition js_set (o : obj) (k : string) (v : jsval) : obj :=
  if String.eqb k "__proto__" then o
  else <[k := v]> o.

(** [ToNumeric] of a stored value. *)
Definition to_numeric (v : jsval) : option Z :=
  match v with
  | JNum n => n
  | _ => None
  end.

(** JavaScript truthiness of a number ([0] and [NaN] are falsy). *)
Definition num_truthy (n : option Z) : bool :=
  match n with
  | Some z => negb (Z.eqb z 0)
  | None => false
  end.

Definition num_add1 (n : option Z) : option Z := option_map (fun z => (z + 1)%Z) n.

(** [String(n)] for an integer. *)
Definition num_to_string (n : option Z) : string :=
  match n with
  | Some z => pretty z
  | None => "NaN"
  end.

End JSObj.

(* ===================================================================== *)
(** ** KeySequence (runtime/components/KeySequence.js)                    *)
(* ===================================================================== *)

Module KeySequence.
Import JSObj.

(** [this.___lookup = {}] *)
Definition new_KeySequence : obj := ∅.

(** [___nextKey(key)]:
<<
    var currentIndex = lookup[key]++;
    if (!currentIndex) { lookup[key] = 1; currentIndex = 0; return key; }
    else { return key + "_" + currentIndex; }
>> *)
Definition nextKey (lookup : obj) (key : string) : string * obj :=
  let currentIndex := to_numeric (js_get lookup key) in
  let lookup := js_set lookup key (JNum (num_add1 currentIndex)) in
  if negb (num_truthy currentIndex) then
    (key, js_set lookup key (JNum (Some 1%Z)))
  else
    (key ++ "_" ++ num_to_string currentIndex, lookup).

(** The keys returned by [n] successive calls with the same key. *)
Fixpoint nextKeys (lookup : obj) (key : string) (n : nat) : list string * obj :=
  match n with
  | O => ([], lookup)
  | S n' =>
      let '(k, lookup') := nextKey lookup key in
      let '(ks, lookup'') := nextKeys lookup' key n' in
      (k :: ks, lookup'')
  end.

End KeySequence.

(* ===================================================================== *)
(** ** Virtual nodes with their links (runtime/vdom/VNode.js and the      *)
(**    node variants VElement, VText, VComment, VFragment, VComponent,   *)
(**    VDocumentFragment)                                                 *)
(* ===================================================================== *)

Module VNodeHeap.

(** Node variants. [VFragment] and [VComponent] carry their [preserve]
    constructor argument; only [VDocumentFragment] has the prototype flag
    [___DocumentFragment]; only [VText] has [___Text]. *)
Inductive vkind :=
| KElement (tagName : string)          (* nodeType 1 *)
| KText (nodeValue : string)           (* nodeType 3 *)
| KComment (nodeValue : string)        (* nodeType 8 *)
| KComponent (preserve : bool)         (* nodeType 2 *)
| KFragment (preserve : bool)          (* nodeType 12 *)
| KDocumentFragment.                   (* nodeType 11 *)

(** The fields set by [___VNode] plus the textarea fields of [VElement]. *)
Record vnode := mkVNode {
  kind : vkind;
  finalChildCount : Z;
  childCount : Z;
  firstChildInternal : option nat;
  lastChild : option nat;
  parentNode : option nat;
  nextSiblingInternal : option nat;
  valueInternal : option string;
  preserveTextAreaValue : bool
}.

(** Objects are addressed by reference: the heap of virtual nodes. *)
Abbreviation heap := (gmap nat vnode).

(** [this.___VNode(finalChildCount)] on a fresh node. *)
Definition new_vnode (k : vkind) (fcc : Z) : vnode :=
  mkVNode k fcc 0 None None None None None false.

Definition nodeName (n : vnode) : option string :=
  match kind n with KElement t => Some t | _ => None end.

(** [node.___DocumentFragment] *)
Definition is_DocumentFragment (n : vnode) : bool :=
  match kind n with KDocumentFragment => true | _ => false end.

(** [node.___Text] and [node.___nodeValue] of a text node. *)
Definition text_value (n : vnode) : option string :=
  match kind n with KText v => Some v | _ => None end.

(** [node.___preserve] (undefined, hence falsy, on the other variants). *)
Definition preserve (n : vnode) : bool :=
  match kind n with KComponent p | KFragment p => p | _ => false end.

Definition set_childCount (c : Z) (n : vnode) : vnode :=
  mkVNode (kind n) (finalChildCount n) c (firstChildInternal n) (lastChild n)
    (parentNode n) (nextSiblingInternal n) (valueInternal n) (preserveTextAreaValue n).
Definition set_firstChildInternal (c : option nat) (n : vnode) : vnode :=
  mkVNode (kind n) (finalChildCount n) (childCount n) c (lastChild n)
    (parentNode n) (nextSiblingInternal n) (valueInternal n) (preserveTextAreaValue n).
Definition set_lastChild (c : option nat) (n : vnode) : vnode :=
  mkVNode (kind n) (finalChildCount n) (childCount n) (firstChildInternal n) c
    (parentNode n) (nextSiblingInternal n) (valueInternal n) (preserveTextAreaValue n).
Definition set_parentNode (p : option nat) (n : vnode) : vnode :=
  mkVNode (kind n) (finalChildCount n) (childCount n) (firstChildInternal n) (lastChild n)
    p (nextSiblingInternal n) (valueInternal n) (preserveTextAreaValue n).
Definition set_nextSiblingInternal (s : option nat) (n : vnode) : vnode :=
  mkVNode (kind n) (finalChildCount n) (childCount n) (firstChildInternal n) (lastChild n)
    (parentNode n) s (valueInternal n) (preserveTextAreaValue n).
Definition set_valueInternal (v : option string) (n : vnode) : vnode :=
  mkVNode (kind n) (finalChildCount n) (childCount n) (firstChildInternal n) (lastChild n)
    (parentNode n) (nextSiblingInternal n) v (preserveTextAreaValue n).
Definition set_preserveTextAreaValue (b : bool) (n : vnode) : vnode :=
  mkVNode (kind n) (finalChildCount n) (childCount n) (firstChildInternal n) (lastChild n)
    (parentNode n) (nextSiblingInternal n) (valueInternal n) b.

(** Exceptions thrown by the virtual-node methods. *)
Inductive exn := TypeError.

(** The [___firstChild] getter. Fuel bounds the mutual recursion of the
    two getters; [None] means the fuel ran out, [Some None] is [null]. *)
Fixpoint firstChild (fuel : nat) (h : heap) (self : nat) : option (option nat) :=
  match fuel with
  | O => None
  | S fuel' =>
      match h !! self with
      | None => Some None
      | Some n =>
          match firstChildInternal n with
          | Some fc =>
              match h !! fc with
              | Some fcn =>
                  if is_DocumentFragment fcn then
                    match firstChild fuel' h fc with
                    | None => None
                    | Some (Some nested) => Some (Some nested)
                    | Some None => nextSibling fuel' h fc
                    end
                  else Some (Some fc)
              | None => Some (Some fc)
              end
          | None => Some None
          end
      end
  end
(** The [___nextSibling] getter. *)
with nextSibling (fuel : nat) (h : heap) (self : nat) : option (option nat) :=
  match fuel with
  | O => None
  | S fuel' =>
      match h !! self with
      | None => Some None
      | Some n =>
          match nextSiblingInternal n with
          | Some ns =>
              match h !! ns with
              | Some nsn =>
                  if is_DocumentFragment nsn then
                    match firstChild fuel' h ns with
                    | None => None
                    | Some (Some fc) => Some (Some fc)
                    | Some None => nextSibling fuel' h ns
                    end
                  else Some (Some ns)
              | None => Some (Some ns)
              end
          | None =>
              match parentNode n with
              | Some p =>
                  match h !! p with
                  | Some pn =>
                      if is_DocumentFragment pn then nextSibling fuel' h p
                      else Some None
                  | None => Some None
                  end
              | None => Some None
              end
          end
      end
  end.

(** [___appendChild(child)] on the node [self]. The heap is returned
    also when the call throws: [this.___childCount++] has already run. *)
Definition appendChild (h : heap) (self child : nat) : heap * option exn :=
  match h !! self, h !! child with
  | Some sn, Some cn =>
      let sn := set_childCount (childCount sn + 1) sn in
      let h := <[self := sn]> h in
      if decide (nodeName sn = Some "textarea") then
        match text_value cn with
        | Some childValue =>
            let old := match valueInternal sn with Some v => v | None => "" end in
            (<[self := set_valueInternal (Some (old ++ childValue)) sn]> h, None)
        | None =>
            if preserve cn then
              (<[self := set_preserveTextAreaValue true sn]> h, None)
            else (h, Some TypeError)
        end
      else
        let h := alter (set_parentNode (Some self)) child h in
        let h :=
          match lastChild sn with
          | Some last => alter (set_nextSiblingInternal (Some child)) last h
          | None => alter (set_firstChildInternal (Some child)) self h
          end in
        (alter (set_lastChild (Some child)) self h, None)
  | _, _ => (h, None)
  end.

End VNodeHeap.

(* ===================================================================== *)
(** ** EventEmitter (events-light) and AsyncVDOMBuilder                   *)
(* ===================================================================== *)

Module AsyncBuilder.
Import VNodeHeap.

(** Values passed to [emit]: an [Error] instance (by identity), or any
    other value (here a string, e.g. a rejected promise's reason). *)
Inductive value :=
| VErrorObj (id : nat)
| VOther (s : string).

(** What a call can throw: a value as is, a [new Error(message)] with its
    [context] property, or a [TypeError] raised by the engine. *)
Inductive thrown :=
| ThrowValue (v : value)
| ThrowNewError (message : string) (context : option value)
| ThrowTypeError.

(** A listener is user code; what matters here is whether it returns or
    throws. *)
Inductive listener :=
| LReturns
| LThrows (t : thrown).

(** [events[type]] holds a single function or an array of them. *)
Inductive listeners :=
| LOne (l : listener)
| LMany (ls : list listener).

(** The emitter's [$e] object. *)
Definition emitter := gmap string listeners.

(** Events observed during a run. *)
Inductive logev :=
| EvEmit (type : string)              (* [events.emit(type, ...)] reached listeners *)
| EvFinish (builder : nat)            (* [___doFinish] emitted "finish" *)
| EvEmitLast (builder : nat)          (* [___emitLast] ran the "last" callbacks *)
| EvEnd (builder : nat).              (* [end()] was entered *)

(** [addListener(emitter, type, listener, false)] ([on]). *)
Definition on (ev : emitter) (type : string) (l : listener) : emitter :=
  match ev !! type with
  | Some (LOne l0) => <[type := LMany [l0; l]]> ev
  | Some (LMany ls) => <[type := LMany (app ls [l])]> ev
  | None => <[type := LOne l]> ev
  end.

Fixpoint invoke_all (ls : list listener) : option thrown :=
  match ls with
  | [] => None
  | LReturns :: rest => invoke_all rest
  | LThrows t :: _ => Some t
  end.

(** [emit(type, arg)]: with no entry for [type], an "error" event throws
    its argument (wrapped in a new [Error] unless it is one); otherwise
    every listener is invoked in order, the first throw propagating. *)
Definition emit (ev : emitter) (type : string) (arg : value) : list logev * option thrown :=
  match ev !! type with
  | None =>
      if String.eqb type "error" then
        match arg with
        | VErrorObj _ => ([], Some (ThrowValue arg))
        | VOther s => ([], Some (ThrowNewError ("Error: " ++ s) (Some arg)))
        end
      else ([], None)
  | Some (LOne l) => ([EvEmit type], invoke_all [l])
  | Some (LMany ls) => ([EvEmit type], invoke_all ls)
  end.

(** The fields of an [AsyncVDOMBuilder] that the async bookkeeping uses.
    [parent] is [___parent] (the current virtual node, [None] once
    [end()] has cleared it). [lastArray] is [this._last]: [undefined]
    ([None]) until the first [onLast] call, which creates the array (the
    constructor initialises [___last], a different property). *)
Record builder := mkBuilder {
  remaining : Z;
  lastCount : Z;
  parentOut : option nat;
  parent : option nat;
  sync : bool;
  lastArray : option (list listener)
}.

(** The builders of one render share one [State]: its [___finished] flag
    and its emitter; [vheap] holds the virtual nodes. *)
Record world := mkWorld {
  builders : gmap nat builder;
  finished : bool;
  events : emitter;
  vheap : heap;
  next_builder : nat;
  next_node : nat;
  log : list logev
}.

Definition set_builders (bs : gmap nat builder) (w : world) : world :=
  mkWorld bs (finished w) (events w) (vheap w) (next_builder w) (next_node w) (log w).
Definition add_log (l : list logev) (w : world) : world :=
  mkWorld (builders w) (finished w) (events w) (vheap w) (next_builder w) (next_node w) (app (log w) l).
Definition set_finished (w : world) : world :=
  mkWorld (builders w) true (events w) (vheap w) (next_builder w) (next_node w) (log w).

Definition upd_builder (b : nat) (f : builder -> builder) (w : world) : world :=
  set_builders (alter f b (builders w)) w.

Definition set_remaining (r : Z) (x : builder) : builder :=
  mkBuilder r (lastCount x) (parentOut x) (parent x) (sync x) (lastArray x).
Definition set_lastCount (c : Z) (x : builder) : builder :=
  mkBuilder (remaining x) c (parentOut x) (parent x) (sync x) (lastArray x).
Definition set_parent (p : option nat) (x : builder) : builder :=
  mkBuilder (remaining x) (lastCount x) (parentOut x) p (sync x) (lastArray x).
Definition set_sync (s : bool) (x : builder) : builder :=
  mkBuilder (remaining x) (lastCount x) (parentOut x) (parent x) s (lastArray x).
Definition set_lastArray (a : option (list listener)) (x : builder) : builder :=
  mkBuilder (remaining x) (lastCount x) (parentOut x) (parent x) (sync x) a.

(** [new AsyncVDOMBuilder(globalData)]: the root builder of a render, on a
    fresh [VDocumentFragment] (node 0), as [createOut] makes it. *)
Definition create_out : world * nat :=
  (mkWorld {[ 0 := mkBuilder 1 0 None (Some 0) false None ]} false ∅
     {[ 0 := new_vnode KDocumentFragment 0 ]} 1 1 [], 0).

(** [out.sync()] *)
Definition sync_out (w : world) (b : nat) : world := upd_builder b (set_sync true) w.

(** [___doFinish()] *)
Definition doFinish (w : world) (b : nat) : world * option thrown :=
  let w := set_finished w in
  let '(l, t) := emit (events w) "finish" (VOther "RenderResult") in
  (add_log (EvFinish b :: l) w, t).

(** [onLast(callback)] *)
Definition onLast (w : world) (b : nat) (cb : listener) : world :=
  upd_builder b (fun x => set_lastArray (Some (match lastArray x with
                                              | None => [cb]
                                              | Some ls => app ls [cb]
                                              end)) x) w.

(** [___emitLast()]: reads [this._last]; when no [onLast] call has
    created it, [lastArray.length] throws a [TypeError]. Otherwise the
    callbacks run in order (callbacks without a parameter, each followed
    by the next; the chain of callbacks that take [next] is modelled in
    [LastChain]), the first throw propagating. *)
Definition emitLast (w : world) (b : nat) : world * option thrown :=
  match builders w !! b with
  | Some x =>
      match lastArray x with
      | Some ls => (add_log [EvEmitLast b] w, invoke_all ls)
      | None => (w, Some ThrowTypeError)
      end
  | None => (w, Some ThrowTypeError)
  end.

(** [___handleChildDone()]; [fuel] bounds the walk up the [parentOut]
    chain, whose length the builder ids bound. *)
Fixpoint handleChildDone (fuel : nat) (w : world) (b : nat) : world * option thrown :=
  match fuel with
  | O => (w, None)
  | S fuel' =>
      match builders w !! b with
      | None => (w, None)
      | Some x =>
          let r := (remaining x - 1)%Z in
          let w := upd_builder b (set_remaining r) w in
          if Z.eqb r 0 then
            match parentOut x with
            | Some po => handleChildDone fuel' w po
            | None => doFinish w b
            end
          else if Z.eqb (r - lastCount x) 0 then emitLast w b
          else (w, None)
      end
  end.

(** [end()] *)
Definition end_ (w : world) (b : nat) : world * option thrown :=
  match builders w !! b with
  | None => (w, None)
  | Some x =>
      let w := add_log [EvEnd b] w in
      let w := upd_builder b (set_parent None) w in
      let r := (remaining x - 1)%Z in
      let w := upd_builder b (set_remaining r) w in
      if Z.eqb r 0 then
        match parentOut x with
        | Some po => handleChildDone (next_builder w) w po
        | None => doFinish w b
        end
      else if Z.eqb (r - lastCount x) 0 then emitLast w b
      else (w, None)
  end.

(** [try { body } finally { fin }]: the exception of [fin] wins, else the
    body's exception is rethrown. *)
Definition try_finally (w : world) (body : world -> world * option thrown)
    (fin : world -> world * option thrown) : world * option thrown :=
  let '(w1, t1) := body w in
  let '(w2, t2) := fin w1 in
  match t2 with
  | Some t => (w2, Some t)
  | None => (w2, t1)
  end.

(** [error(e)]: [try { this.emit("error", e) } finally { this.end() }]. *)
Definition error (w : world) (b : nat) (e : value) : world * option thrown :=
  try_finally w
    (fun w => let '(l, t) := emit (events w) "error" e in (add_log l w, t))
    (fun w => end_ w b).

(** The message of the sync-mode guard of [beginAsync]. *)
Definition sync_msg : string :=
  "Tried to render async while in sync mode. Note: Client side await is not currently supported in re-renders (Issue: #942).".

(** [beginAsync(options)]; [last] is [options.last]. The new builder
    gets the next id; its [___parent] is a [VDocumentFragment] appended
    to the current node with [___appendDocumentFragment]. Returns the new
    builder's id. *)
Definition beginAsync (w : world) (b : nat) (last : bool) : world * (nat + thrown) :=
  match builders w !! b with
  | None => (w, inr ThrowTypeError)
  | Some x =>
      if sync x then (w, inr (ThrowNewError sync_msg None))
      else
        let w := if last then upd_builder b (set_lastCount (lastCount x + 1)) w else w in
        let w := upd_builder b (fun y => set_remaining (remaining y + 1) y) w in
        match parent x with
        | None => (w, inr ThrowTypeError)
        | Some p =>
            let d := next_node w in
            let h := <[d := new_vnode KDocumentFragment 0]> (vheap w) in
            match appendChild h p d with
            | (h', Some _) =>
                (mkWorld (builders w) (finished w) (events w) h' (next_builder w) (S d) (log w),
                 inr ThrowTypeError)
            | (h', None) =>
                let nb := next_builder w in
                let w := mkWorld (<[nb := mkBuilder 1 0 (Some b) (Some d) false None]> (builders w))
                           (finished w) (events w) h' (S nb) (S d) (log w) in
                let '(l, t) := emit (events w) "beginAsync" (VOther "out") in
                let w := add_log l w in
                match t with
                | Some t => (w, inr t)
                | None => (w, inl nb)
                end
            end
        end
  end.

(** A client-side re-render ([Component.prototype.___rerender]) up to
    the call of the renderer: [createOut], [out.sync()], then
    [renderer(input, out)]; the renderer is the compiled template. *)
Definition rerender (renderer : world -> nat -> world * option thrown) : world * option thrown :=
  let '(w, out) := create_out in
  let w := sync_out w out in
  renderer w out.

(** Operations a render performs on its builders. *)
Inductive op :=
| OpBeginAsync (b : nat) (last : bool)
| OpEnd (b : nat)
| OpError (b : nat) (e : value)
| OpOnLast (b : nat) (cb : listener).

Definition step (w : world) (o : op) : world :=
  match o with
  | OpBeginAsync b last => fst (beginAsync w b last)
  | OpEnd b => fst (end_ w b)
  | OpError b e => fst (error w b e)
  | OpOnLast b cb => onLast w b cb
  end.

Definition run (w : world) (os : list op) : world := fold_left step os w.

End AsyncBuilder.

(* ===================================================================== *)
(** ** Component update (runtime/components/Component.js)                 *)
(* ===================================================================== *)

Module ComponentUpdate.

(** A state value; [None] is [undefined]. *)
Definition sval := option Z.

(** The tracking fields of a component's [State]. [changes] lists the own
    properties of [___changes] in enumeration order; [old] is [___old],
    the raw state before the first change. *)
Record State := mkState {
  s_dirty : bool;
  s_old : list (string * sval);
  s_changes : list (string * sval)
}.

(** The component fields read by [update]. [methods] tells which
    property names hold a truthy value (a user-supplied method). *)
Record Component := mkComponent {
  destroyed : bool;
  dirty : bool;
  updateQueued : bool;
  state : option State;
  methods : string -> bool;
  shouldUpdate_result : bool;   (* what [this.shouldUpdate(input, state)] returns *)
  has_renderer : bool
}.

(** A value read with [o[k]] from the plain objects [___changes] and
    [___old]: a state value, or the member named [k] inherited from
    [Object.prototype] (a function, or the prototype itself for
    "__proto__"). *)
Inductive readval :=
| RVal (v : sval)
| RInherited (name : string).

(** Observable effects of [update]. *)
Inductive event :=
| CallHandler (name : string) (newValue oldValue : readval)
| EmitLifecycle (eventType : string)
| ScheduleRerender.

Definition set_state (s : option State) (c : Component) : Component :=
  mkComponent (destroyed c) (dirty c) (updateQueued c) s (methods c)
    (shouldUpdate_result c) (has_renderer c).

(** [State.prototype.___reset] *)
Definition state_reset (s : State) : State := mkState false [] [].

(** [Component.prototype.___reset] *)
Definition reset (c : Component) : Component :=
  mkComponent (destroyed c) false false (option_map state_reset (state c)) (methods c)
    (shouldUpdate_result c) (has_renderer c).

(** [oldState[propName]] (and [stateChanges[propertyName]]): an own
    property, else the inherited member, else [undefined]; "__proto__"
    always reads the inherited accessor. *)
Definition lookup_old (old : list (string * sval)) (k : string) : readval :=
  if String.eqb k "__proto__" then RInherited k
  else
    match find (fun p => String.eqb (fst p) k) old with
    | Some (_, v) => RVal v
    | None => if existsb (String.eqb k) JSObj.proto_names then RInherited k else RVal None
    end.

(** The first loop of [processUpdateHandlers]: collects [[propName,
    handler]] pairs, or gives up ([None]) at the first changed property
    with no [update_<propName>] method. *)
Fixpoint collect_handlers (c : Component) (changes : list (string * sval)) : option (list string) :=
  match changes with
  | [] => Some []
  | (k, _) :: rest =>
      if methods c ("update_" ++ k) then
        option_map (cons k) (collect_handlers c rest)
      else None
  end.

(** [processUpdateHandlers(component, stateChanges, oldState)]; the
    boolean is its (truthy) result, [None] when it throws: every
    iteration of the loop calls [stateChanges.hasOwnProperty(propName)],
    which is not a function when a changed property is itself named
    "hasOwnProperty" (a [TypeError] at the first iteration). *)
Definition processUpdateHandlers (c : Component) (changes old : list (string * sval))
    : option (Component * list event * bool) :=
  if existsb (String.eqb "hasOwnProperty") (map fst changes) then None
  else
    match collect_handlers c changes with
    | None => Some (c, [], false)
    | Some [] => Some (c, [], true)
    | Some hs =>
        let calls := map (fun k =>
                       CallHandler ("update_" ++ k) (lookup_old changes k) (lookup_old old k)) hs in
        Some (reset c, app calls [EmitLifecycle "update"], true)
    end.

(** The [___isDirty] getter. *)
Definition isDirty (c : Component) : bool :=
  dirty c || match state c with Some s => s_dirty s | None => false end.

(** [___scheduleRerender()]: throws a [TypeError] without a renderer. *)
Definition scheduleRerender (c : Component) : Component * list event * bool :=
  if has_renderer c then (reset c, [ScheduleRerender], false) else (c, [], true).

(** [update()]; the boolean tells whether it threw. *)
Definition update (c : Component) : Component * list event * bool :=
  if destroyed c || negb (isDirty c) then (c, [], false)
  else
    let r :=
      match state c with
      | Some s =>
          if negb (dirty c) && s_dirty s then
            match processUpdateHandlers c (s_changes s) (s_old s) with
            | None => None
            | Some (c', ev, ok) =>
                if ok then
                  Some (set_state (option_map (fun s => mkState false (s_old s) (s_changes s)) (state c')) c', ev)
                else Some (c', ev)
            end
          else Some (c, [])
      | None => Some (c, [])
      end in
    match r with
    | None => (c, [], true)
    | Some (c, ev1) =>
        if isDirty c then
          if shouldUpdate_result c then
            let '(c, ev2, threw) := scheduleRerender c in
            if threw then (c, app ev1 ev2, true) else (reset c, app ev1 ev2, false)
          else (reset c, ev1, false)
        else (reset c, ev1, false)
    end.

End ComponentUpdate.

(* ===================================================================== *)
(** ** The reconciler (runtime/vdom/morphdom/index.js, helpers.js,        *)
(**    specialElHandlers.js, VElement.___morphAttrs)                      *)
(* ===================================================================== *)

(** The model covers the children of one component: element, text and
    comment nodes (and a doctype on the real side), no nested component
    placeholders or keyed fragments, client-side rendering (no
    hydration). The whole tree has one owner component, so the
    [referenceComponent] of every keyed node is that component, whose
    [___keyedElements] and key sequence are single maps. *)
Module Morph.

(** Attribute values of a virtual element: strings, numbers (integers,
    and [NaN]), booleans, [null], [undefined], and objects (by identity,
    with the text that [JSON.stringify] gives). *)
Inductive attrval :=
| AStr (s : string)
| ANum (n : Z)
| ANaN
| ABool (b : bool)
| ANull
| AUndef
| AObj (ref : nat) (json : string).

(** JavaScript [===] on attribute values. *)
Definition attr_seq (a b : attrval) : bool :=
  match a, b with
  | AStr x, AStr y => String.eqb x y
  | ANum x, ANum y => Z.eqb x y
  | ABool x, ABool y => Bool.eqb x y
  | ANull, ANull => true
  | AUndef, AUndef => true
  | AObj r1 _, AObj r2 _ => Nat.eqb r1 r2
  | _, _ => false
  end.

(** [___key]: a string, [null], or [undefined] (text and comment nodes). *)
Inductive jskey := KUndefined | KNull | KStr (s : string).


(** [VElement]: [attrs_ref] is the identity of the [___attributes]
    object, [attrs] its properties in enumeration order. [constId] is
    [props.i]. [valueInternal] and [preserveTextAreaValue] are filled by
    [___appendChild] for a textarea. *)
Record velement := mkVElement {
  tagName : string;
  vkey : jskey;
  attrs_ref : nat;
  attrs : list (string * attrval);
  flags : Z;
  constId : option string;
  valueInternal : option string;
  preserveTextAreaValue : bool
}.

(** A virtual tree as the reconciler walks it with [___firstChild] and
    [___nextSibling]: element, text and comment nodes. Component
    placeholders ([VComponent]) and fragments ([VFragment]) are not
    modelled, so neither are the branches of [morphChildren] that handle
    them, nor hydration. *)
Inductive vtree :=
| VEl (e : velement) (children : list vtree)
| VTxt (nodeValue : string)
| VCom (nodeValue : string).




Definition FLAG_SIMPLE_ATTRS : Z := 1.
Definition FLAG_CUSTOM_ELEMENT : Z := 2.
Definition ATTR_XLINK_HREF : string := "xlink:href".
Definition ATTR_HREF : string := "href".

(** [attrs[name]] as an own property. *)
Definition attr_get (m : list (string * attrval)) (name : string) : option attrval :=
  match find (fun p => String.eqb (fst p) name) m with
  | Some (_, v) => Some v
  | None => None
  end.

(** [attrs[name]] read as a value: a missing name inherited from
    [Object.prototype] reads a function object, any other missing name
    reads [undefined]. *)
Definition attr_read (m : list (string * attrval)) (name : string) : option attrval :=
  match attr_get m name with
  | Some v => Some v
  | None => if existsb (String.eqb name) JSObj.proto_names then None else Some AUndef
  end.

(** [oldAttrs[name] !== v]; [None] (a function object) differs from
    every attribute value. *)
Definition attr_differs (m : list (string * attrval)) (name : string) (v : attrval) : bool :=
  match attr_read m name with
  | Some old => negb (attr_seq old v)
  | None => true
  end.

(** [name in attrs] *)
Definition attr_in (m : list (string * attrval)) (name : string) : bool :=
  match attr_get m name with
  | Some _ => true
  | None => existsb (String.eqb name) JSObj.proto_names
  end.

(** [String(v)] *)
Definition attr_toString (v : attrval) : string :=
  match v with
  | AStr s => s
  | ANum n => pretty n
  | ANaN => "NaN"
  | ABool true => "true"
  | ABool false => "false"
  | ANull => "null"
  | AUndef => "undefined"
  | AObj _ _ => "[object Object]"
  end.

(** [convertAttrValue(typeof v, v)] for a non-string value. *)
Definition convertAttrValue (v : attrval) : string :=
  match v with
  | ABool true => ""
  | AObj _ json => json
  | _ => attr_toString v
  end.

(** [attrValue == null || attrValue === false] *)
Definition attr_absent (v : attrval) : bool :=
  match v with ANull | AUndef | ABool false => true | _ => false end.

(** The [checked], [selected] and [disabled] getters and [___hasAttribute]:
    [value !== false && value != null]. *)
Definition vhasAttribute (e : velement) (name : string) : bool :=
  match attr_get (attrs e) name with
  | Some v => negb (attr_absent v)
  | None => false
  end.

(** The [___value] getter. *)
Definition vvalue (e : velement) : string :=
  let value := match valueInternal e with
               | Some v => Some (AStr v)
               | None => attr_get (attrs e) "value"
               end in
  match value with
  | Some v => if attr_absent v then
                if (match attr_get (attrs e) "type" with
                    | Some (AStr "checkbox") | Some (AStr "radio") => true
                    | _ => false end) then "on" else ""
              else attr_toString v
  | None =>
      match attr_get (attrs e) "type" with
      | Some (AStr "checkbox") | Some (AStr "radio") => "on"
      | _ => ""
      end
  end.

(** Real DOM nodes. *)
Inductive rkind := RElement (tag : string) | RText | RComment | RDoctype.


(** A real node: its attributes, [nodeValue] (text and comment) or
    [value] property (form controls), the [checked], [disabled],
    [selected] and [selectedIndex] properties, and its links. *)
Record rnode := mkRNode {
  rk : rkind;
  rattrs : gmap string string;
  rvalue : string;
  rchecked : bool;
  rdisabled : bool;
  rselected : bool;
  rselectedIndex : Z;
  rchildren : list nat;
  rparent : option nat
}.

(** DOM mutations, in the order the reconciler performs them. *)
Inductive mutation :=
| MInsertBefore (node : nat) (ref : option nat) (parent : nat)
| MRemoveChild (node : nat)
| MSetAttribute (node : nat) (name value : string)
| MRemoveAttribute (node : nat) (name : string)
| MSetNodeValue (node : nat) (value : string)
| MSetProperty (node : nat) (name : string).

(** The state a [morphdom] call works on: the real DOM, the side tables of
    [dom-data] ([vElementByDOMNode], [keysByDOMNode],
    [detachedByDOMNode]), the component's [___keyedElements], the key
    sequence of this pass, [detachedNodes], the next fresh node id, and
    the mutations performed. *)
Record mstate := mkM {
  dom : gmap nat rnode;
  vmap : gmap nat velement;
  keymap : gmap nat string;
  detflag : gmap nat bool;
  keyed : gmap string nat;
  keyseq : JSObj.obj;
  detached : list nat;
  fresh : nat;
  mlog : list mutation
}.

(** The monad of the reconciler: state passing; [None] is a thrown
    exception (a [TypeError] of the source) or exhausted loop fuel. *)
Definition M (A : Type) := mstate -> option (A * mstate).

Definition ret {A} (a : A) : M A := fun s => Some (a, s).
Definition bind {A B} (m : M A) (k : A -> M B) : M B :=
  fun s => match m s with Some (a, s') => k a s' | None => None end.
Definition fail {A} : M A := fun _ => None.
Definition get : M mstate := fun s => Some (s, s).

Notation "x <- m ;; k" := (bind m (fun x => k)) (at level 100, m at next level, right associativity).
Notation "m ;;; k" := (bind m (fun _ => k)) (at level 100, right associativity).

Definition with_dom (d : gmap nat rnode) (s : mstate) : mstate :=
  mkM d (vmap s) (keymap s) (detflag s) (keyed s) (keyseq s) (detached s) (fresh s) (mlog s).
Definition with_vmap (v : gmap nat velement) (s : mstate) : mstate :=
  mkM (dom s) v (keymap s) (detflag s) (keyed s) (keyseq s) (detached s) (fresh s) (mlog s).
Definition with_log (l : list mutation) (s : mstate) : mstate :=
  mkM (dom s) (vmap s) (keymap s) (detflag s) (keyed s) (keyseq s) (detached s) (fresh s) l.

Definition modify (f : mstate -> mstate) : M unit := fun s => Some (tt, f s).
Definition record (m : mutation) : M unit := modify (fun s => with_log (app (mlog s) [m]) s).
Definition get_node (n : nat) : M rnode :=
  fun s => match dom s !! n with Some r => Some (r, s) | None => None end.
Definition upd_node (n : nat) (f : rnode -> rnode) : M unit :=
  modify (fun s => with_dom (alter f n (dom s)) s).

(** [node.nextSibling] in the real DOM. *)
Fixpoint next_in (l : list nat) (n : nat) : option nat :=
  match l with
  | x :: ((y :: _) as rest) => if Nat.eqb x n then Some y else next_in rest n
  | _ => None
  end.

Definition dom_nextSibling (d : gmap nat rnode) (n : nat) : option nat :=
  match d !! n with
  | Some r =>
      match rparent r with
      | Some p => match d !! p with Some pr => next_in (rchildren pr) n | None => None end
      | None => None
      end
  | None => None
  end.

(** [nextSibling(node)] and [firstChild(node)] of helpers.js (no
    fragment boundaries in this model). *)
Definition nextSibling (n : nat) : M (option nat) :=
  fun s => Some (dom_nextSibling (dom s) n, s).

Definition firstChild (n : nat) : M (option nat) :=
  fun s => match dom s !! n with
           | Some r => Some (head (rchildren r), s)
           | None => None
           end.

Definition set_rattrs (a : gmap string string) (r : rnode) : rnode :=
  mkRNode (rk r) a (rvalue r) (rchecked r) (rdisabled r) (rselected r)
    (rselectedIndex r) (rchildren r) (rparent r).
Definition set_rvalue (v : string) (r : rnode) : rnode :=
  mkRNode (rk r) (rattrs r) v (rchecked r) (rdisabled r) (rselected r)
    (rselectedIndex r) (rchildren r) (rparent r).
Definition set_rchecked (b : bool) (r : rnode) : rnode :=
  mkRNode (rk r) (rattrs r) (rvalue r) b (rdisabled r) (rselected r)
    (rselectedIndex r) (rchildren r) (rparent r).
Definition set_rdisabled (b : bool) (r : rnode) : rnode :=
  mkRNode (rk r) (rattrs r) (rvalue r) (rchecked r) b (rselected r)
    (rselectedIndex r) (rchildren r) (rparent r).
Definition set_rselected (b : bool) (r : rnode) : rnode :=
  mkRNode (rk r) (rattrs r) (rvalue r) (rchecked r) (rdisabled r) b
    (rselectedIndex r) (rchildren r) (rparent r).
Definition set_rselectedIndex (i : Z) (r : rnode) : rnode :=
  mkRNode (rk r) (rattrs r) (rvalue r) (rchecked r) (rdisabled r) (rselected r)
    i (rchildren r) (rparent r).









Definition setAttribute (n : nat) (name value : string) : M unit :=
  record (MSetAttribute n name value) ;;;
  upd_node n (fun r => set_rattrs (<[name := value]> (rattrs r)) r).

(** [el.removeAttribute(name)]: removing an attribute the element does
    not have changes nothing and queues no mutation record. *)
Definition removeAttribute (n : nat) (name : string) : M unit :=
  s <- get ;;
  match dom s !! n with
  | Some r =>
      match rattrs r !! name with
      | Some _ =>
          record (MRemoveAttribute n name) ;;;
          upd_node n (fun r => set_rattrs (delete name (rattrs r)) r)
      | None => ret tt
      end
  | None => ret tt
  end.

(** [fromEl.className = v], [fromEl.id = v], [fromEl.style.cssText = v]:
    property writes reflected into the attribute. *)
Definition setReflected (n : nat) (prop attr : string) (v : attrval) : M unit :=
  record (MSetProperty n prop) ;;;
  upd_node n (fun r => set_rattrs (<[attr := attr_toString v]> (rattrs r)) r).

(** [VElement.___morphAttrs(fromEl, vFromEl, toEl)], with the default
    (identity) [___removePreservedAttributes]. *)
Definition morphAttrs (fromEl : nat) (vFromEl toEl : velement) : M unit :=
  modify (fun s => with_vmap (<[fromEl := toEl]> (vmap s)) s) ;;;
  let attrs := attrs toEl in
  if Z.testbit (flags toEl) 1 then
    (* [assign(fromEl, attrs)] *)
    fold_left (fun m p => m ;;; record (MSetProperty fromEl (fst p))) attrs (ret tt)
  else
  let oldAttrs := Morph.attrs vFromEl in
  if Nat.eqb (attrs_ref vFromEl) (attrs_ref toEl) then ret tt
  else if Z.testbit (flags toEl) 0 && Z.testbit (flags vFromEl) 0 then
    let cls := match attr_read attrs "class" with Some v => v | None => AUndef end in
    let idv := match attr_read attrs "id" with Some v => v | None => AUndef end in
    let sty := match attr_read attrs "style" with Some v => v | None => AUndef end in
    (if attr_differs oldAttrs "class" cls then setReflected fromEl "className" "class" cls else ret tt) ;;;
    (if attr_differs oldAttrs "id" idv then setReflected fromEl "id" "id" idv else ret tt) ;;;
    (if attr_differs oldAttrs "style" sty then setReflected fromEl "style.cssText" "style" sty else ret tt)
  else
    fold_left (fun m p =>
        m ;;;
        let '(attrName0, attrValue) := p in
        let attrName := if String.eqb attrName0 ATTR_XLINK_HREF then ATTR_HREF else attrName0 in
        if attr_absent attrValue then removeAttribute fromEl attrName
        else if attr_differs oldAttrs attrName attrValue then
          setAttribute fromEl attrName
            (match attrValue with AStr x => x | _ => convertAttrValue attrValue end)
        else ret tt) attrs (ret tt) ;;;
    match vkey toEl with
    | KNull =>
        fold_left (fun m p =>
            m ;;;
            let attrName := fst p in
            if attr_in attrs attrName then ret tt
            else if String.eqb attrName ATTR_XLINK_HREF then
              (* [fromEl.removeAttributeNS(ATTR_XLINK_HREF, ATTR_HREF)]: the
                 namespace argument is the string "xlink:href", so no
                 attribute matches and nothing is removed *)
              ret tt
            else removeAttribute fromEl attrName) oldAttrs (ret tt)
    | _ => ret tt
    end.

(** [syncBooleanAttrProp(fromEl, toEl, name)] *)
Definition syncBooleanAttrProp (fromEl : nat) (toEl : velement) (name : string)
    (getp : rnode -> bool) (setp : bool -> rnode -> rnode) : M unit :=
  r <- get_node fromEl ;;
  let tv := vhasAttribute toEl name in
  if Bool.eqb (getp r) tv then ret tt
  else
    record (MSetProperty fromEl name) ;;;
    upd_node fromEl (setp tv) ;;;
    (if tv then setAttribute fromEl name "" else removeAttribute fromEl name).

(** [forEachOption(el, fn, i)] with the callback of the [select]
    handler: returns the last index and the index of the last option
    that has a [selected] attribute. *)
Fixpoint forEachOption_tree (t : vtree) (i selected : Z) : Z * Z :=
  match t with
  | VEl e cs =>
      if String.eqb (tagName e) "option" then
        ((i + 1)%Z, if vhasAttribute e "selected" then (i + 1)%Z else selected)
      else
        (fix go (cs : list vtree) (i selected : Z) : Z * Z :=
           match cs with
           | [] => (i, selected)
           | c :: rest => let '(i', sel') := forEachOption_tree c i selected in go rest i' sel'
           end) cs i selected
  | _ => (i, selected)
  end.

Definition forEachOption (cs : list vtree) (i selected : Z) : Z * Z :=
  fold_left (fun acc c => forEachOption_tree c (fst acc) (snd acc)) cs (i, selected).

(** The [input] handler. *)
Definition handle_input (fromEl : nat) (toEl : velement) : M unit :=
  syncBooleanAttrProp fromEl toEl "checked" rchecked set_rchecked ;;;
  syncBooleanAttrProp fromEl toEl "disabled" rdisabled set_rdisabled ;;;
  r <- get_node fromEl ;;
  (if String.eqb (rvalue r) (vvalue toEl) then ret tt
   else record (MSetProperty fromEl "value") ;;; upd_node fromEl (set_rvalue (vvalue toEl))) ;;;
  r <- get_node fromEl ;;
  if bool_decide (is_Some (rattrs r !! "value")) && negb (vhasAttribute toEl "value")
  then removeAttribute fromEl "value" else ret tt.

(** The [textarea] handler. *)
Definition handle_textarea (fromEl : nat) (toEl : velement) : M unit :=
  if preserveTextAreaValue toEl then ret tt
  else
    let newValue := vvalue toEl in
    r <- get_node fromEl ;;
    (if String.eqb (rvalue r) newValue then ret tt
     else record (MSetProperty fromEl "value") ;;; upd_node fromEl (set_rvalue newValue)) ;;;
    r <- get_node fromEl ;;
    match head (rchildren r) with
    | None => ret tt
    | Some c =>
        cr <- get_node c ;;
        let oldValue := match rk cr with RText | RComment => Some (rvalue cr) | _ => None end in
        let placeholder := match rattrs r !! "placeholder" with Some p => p | None => "" end in
        if bool_decide (oldValue = Some newValue) || (String.eqb newValue "" && bool_decide (oldValue = Some placeholder))
        then ret tt
        else record (MSetNodeValue c newValue) ;;;
             (match rk cr with
              | RText | RComment => upd_node c (set_rvalue newValue)
              | _ => ret tt
              end)
    end.

(** The [select] handler. *)
Definition handle_select (fromEl : nat) (toEl : velement) (cs : list vtree) : M unit :=
  if vhasAttribute toEl "multiple" then ret tt
  else
    let selected := snd (forEachOption cs (-1) 0) in
    r <- get_node fromEl ;;
    if Z.eqb (rselectedIndex r) selected then ret tt
    else record (MSetProperty fromEl "selectedIndex") ;;; upd_node fromEl (set_rselectedIndex selected).

(** [specialElHandlers[nodeName]] *)
Definition specialElHandler (fromEl : nat) (toEl : velement) (cs : list vtree) : M unit :=
  let n := tagName toEl in
  if String.eqb n "option" then syncBooleanAttrProp fromEl toEl "selected" rselected set_rselected
  else if String.eqb n "button" then syncBooleanAttrProp fromEl toEl "disabled" rdisabled set_rdisabled
  else if String.eqb n "input" then handle_input fromEl toEl
  else if String.eqb n "textarea" then handle_textarea fromEl toEl
  else if String.eqb n "select" then handle_select fromEl toEl cs
  else ret tt.

(** [morphEl(fromEl, vFromEl, toEl, ...)]; [kids r] reconciles the
    children of [toEl] into the real node [r]. *)
Definition morphEl (kids : nat -> M unit) (fromEl : nat) (vFromEl toEl : velement)
    (cs : list vtree) : M unit :=
  match constId toEl with
  | Some c => if decide (constId vFromEl = Some c) then ret tt else
      morphAttrs fromEl vFromEl toEl ;;;
      (if String.eqb (tagName toEl) "textarea" then ret tt else kids fromEl) ;;;
      specialElHandler fromEl toEl cs
  | None =>
      morphAttrs fromEl vFromEl toEl ;;;
      (if String.eqb (tagName toEl) "textarea" then ret tt else kids fromEl) ;;;
      specialElHandler fromEl toEl cs
  end.



Section Loops.
(** Fuel for the loops that walk real siblings ([while (curFromNodeChild)]). *)
Variable loop_fuel : nat.










End Loops.

(** ** Real trees that a previous pass left in sync with a virtual tree *)

(** Value identity of two virtual elements: everything but the identity
    of the attribute object. *)
Definition vequiv (a b : velement) : Prop :=
  tagName a = tagName b /\ vkey a = vkey b /\ attrs a = attrs b /\ flags a = flags b /\
  constId a = constId b /\ valueInternal a = valueInternal b /\
  preserveTextAreaValue a = preserveTextAreaValue b.

(** Value identity of two virtual trees. *)
Fixpoint vtree_equiv (a b : vtree) : Prop :=
  match a, b with
  | VEl ea csa, VEl eb csb =>
      vequiv ea eb /\
      (fix go (l1 l2 : list vtree) : Prop :=
         match l1, l2 with
         | [], [] => True
         | x :: r1, y :: r2 => vtree_equiv x y /\ go r1 r2
         | _, _ => False
         end) csa csb
  | VTxt x, VTxt y => x = y
  | VCom x, VCom y => x = y
  | _, _ => False
  end.














End Morph.

(* ===================================================================== *)
(** ** The light event emitter ([events-light]) *)
(* ===================================================================== *)

Module Events.
Import AsyncBuilder.

(** A listener of [events-light] is a function object, compared by
    reference: a user function, the wrapper [g] that [once] creates
    around a user function, or a member function of [Object.prototype]
    (which [$e[type]] inherits for the names of
    [JSObj.proto_names]). The user functions are taken to return
    normally and not to touch the emitter. *)
Inductive fref :=
| UserFn (id : nat)
| Wrapper (g : nat)
| Builtin (name : string).

Definition fref_eqb (a b : fref) : bool :=
  match a, b with
  | UserFn x, UserFn y => Nat.eqb x y
  | Wrapper x, Wrapper y => Nat.eqb x y
  | Builtin x, Builtin y => String.eqb x y
  | _, _ => false
  end.

(** [events[type]]: a single function or an array of them. *)
Inductive entry :=
| EOne (f : fref)
| EArr (fs : list fref).

(** An [EventEmitter]: the own properties of its [$e] object; for each
    [once] wrapper the user function its closure still holds ([None]
    once it is [null]); the next fresh wrapper. *)
Record ee := mkEE {
  evs : gmap string entry;
  wraps : gmap nat (option nat);
  next_wrap : nat
}.

Definition with_evs (m : gmap string entry) (e : ee) : ee := mkEE m (wraps e) (next_wrap e).

(** What [events[type]] reads: an own property, else what [$e] (a [{}]
    literal) inherits: for "__proto__" the object [Object.prototype]
    itself ([SProto]: truthy, not a function, with no [length], [push]
    or [unshift]), for another name of [JSObj.proto_names] the member
    function of that name, else [undefined] ([None]). *)
Inductive slot :=
| SEntry (en : entry)
| SProto.

Definition get_slot (e : ee) (type : string) : option slot :=
  if String.eqb type "__proto__" then Some SProto
  else
    match evs e !! type with
    | Some en => Some (SEntry en)
    | None =>
        if existsb (String.eqb type) JSObj.proto_names then Some (SEntry (EOne (Builtin type)))
        else None
    end.

(** [addListener(eventEmitter, type, listener, prepend)]; [None] when it
    throws: for "__proto__", [listeners.push] ([unshift]) is [undefined]
    and calling it raises a [TypeError]. *)
Definition addListener (e : ee) (type : string) (l : fref) (prepend : bool) : option ee :=
  match get_slot e type with
  | Some (SEntry (EOne l0)) =>
      Some (with_evs (<[type := EArr (if prepend then [l; l0] else [l0; l])]> (evs e)) e)
  | Some (SEntry (EArr ls)) =>
      Some (with_evs (<[type := EArr (if prepend then l :: ls else app ls [l])]> (evs e)) e)
  | Some SProto => None
  | None => Some (with_evs (<[type := EOne l]> (evs e)) e)
  end.

Definition on (e : ee) (type : string) (l : fref) : option ee := addListener e type l false.

(** [removeListener(type, listener)]: a single function is deleted when
    it is [listener] (deleting an inherited one changes nothing); from an
    array every element equal to [listener] is spliced out (the array
    stays, even when it becomes empty). On [Object.prototype] the loop
    starts from [undefined - 1], which is [NaN], and does nothing. *)
Definition removeListener (e : ee) (type : string) (l : fref) : ee :=
  match get_slot e type with
  | Some (SEntry (EOne l0)) => if fref_eqb l0 l then with_evs (delete type (evs e)) e else e
  | Some (SEntry (EArr ls)) =>
      with_evs (<[type := EArr (List.filter (fun x => negb (fref_eqb x l)) ls)]> (evs e)) e
  | Some SProto => e
  | None => e
  end.

(** [removeAllListeners(type)] *)
Definition removeAllListeners (e : ee) (type : string) : ee := with_evs (delete type (evs e)) e.

(** [listenerCount(type)]; [None] is [undefined], the [length] of
    [Object.prototype]. *)
Definition listenerCount (e : ee) (type : string) : option nat :=
  match get_slot e type with
  | Some (SEntry (EOne _)) => Some 1
  | Some (SEntry (EArr ls)) => Some (length ls)
  | Some SProto => None
  | None => Some 0
  end.

(** [once(type, listener)]: a fresh wrapper [g] holding [listener],
    registered with [on] (which may throw). *)
Definition once (e : ee) (type : string) (l : nat) : option ee :=
  let g := next_wrap e in
  on (mkEE (evs e) (<[g := Some l]> (wraps e)) (S g)) type (Wrapper g).

(** Invoking one listener during [emit(type, ...)]: a user function is
    called; a wrapper [g] first runs [this.removeListener(type, g)], then
    calls its user function if it still holds one and drops it; a member
    of [Object.prototype] is called with the emitter as [this] and the
    emitted argument: [__defineGetter__] and [__defineSetter__] throw a
    [TypeError] (their second argument is not a function), the others
    return without touching the listeners. The result lists the user
    functions called, and what was thrown. *)
Definition invoke (type : string) (e : ee) (f : fref) : ee * list nat * option thrown :=
  match f with
  | UserFn n => (e, [n], None)
  | Wrapper g =>
      let e := removeListener e type (Wrapper g) in
      match wraps e !! g with
      | Some (Some l) => (mkEE (evs e) (<[g := None]> (wraps e)) (next_wrap e), [l], None)
      | _ => (e, [], None)
      end
  | Builtin name =>
      (e, [], if String.eqb name "__defineGetter__" || String.eqb name "__defineSetter__"
              then Some ThrowTypeError else None)
  end.

(** The [for] loop of [emit] over the copy [slice.call(listeners)]; a
    throw ends it. *)
Fixpoint invoke_each (type : string) (e : ee) (fs : list fref) : ee * list nat * option thrown :=
  match fs with
  | [] => (e, [], None)
  | f :: rest =>
      let '(e1, c1, t1) := invoke type e f in
      match t1 with
      | Some t => (e1, c1, Some t)
      | None => let '(e2, c2, t2) := invoke_each type e1 rest in (e2, app c1 c2, t2)
      end
  end.

(** What [emit] does: returns a boolean, or throws. *)
Inductive outcome := Returned (b : bool) | Threw (t : thrown).

Definition outcome_of (t : option thrown) : outcome :=
  match t with
  | Some t => Threw t
  | None => Returned true
  end.

(** [emit(type, arg)]; on [Object.prototype], [slice.call] gives an
    empty array: nothing is called and [true] is returned. *)
Definition emit (e : ee) (type : string) (arg : value) : ee * list nat * outcome :=
  match get_slot e type with
  | None =>
      if String.eqb type "error" then
        (e, [], Threw (match arg with
                       | VErrorObj _ => ThrowValue arg
                       | VOther s => ThrowNewError ("Error: " ++ s) (Some arg)
                       end))
      else (e, [], Returned false)
  | Some SProto => (e, [], Returned true)
  | Some (SEntry (EOne f)) => let '(e', c, t) := invoke type e f in (e', c, outcome_of t)
  | Some (SEntry (EArr fs)) => let '(e', c, t) := invoke_each type e fs in (e', c, outcome_of t)
  end.

(** The listeners registered for [type], in call order. *)
Definition listeners_of (e : ee) (type : string) : list fref :=
  match get_slot e type with
  | Some (SEntry (EOne f)) => [f]
  | Some (SEntry (EArr fs)) => fs
  | Some SProto => []
  | None => []
  end.

(** [new EventEmitter()] *)
Definition new_EventEmitter : ee := mkEE ∅ ∅ 0.

End Events.

(* ===================================================================== *)
(** ** Component state tracking ([State]) *)
(* ===================================================================== *)

Module StateTrack.
Import ComponentUpdate.

(** A plain object of state values: its own properties in enumeration
    order (the property names are taken not to be array indices, which
    JavaScript enumerates first). *)
Abbreviation sobj := (list (string * sval)).

(** The own property [o[k]]. *)
Definition obj_get (o : sobj) (k : string) : option sval :=
  match find (fun p => String.eqb (fst p) k) o with
  | Some (_, v) => Some v
  | None => None
  end.

(** [o[k]] read as a value: an own property, else the member inherited
    from [Object.prototype] (a function object, [None] here, equal to no
    state value), else [undefined]. *)
Definition obj_read (o : sobj) (k : string) : option sval :=
  match obj_get o k with
  | Some v => Some v
  | None => if existsb (String.eqb k) JSObj.proto_names then None else Some None
  end.

(** [k in o] *)
Definition obj_in (o : sobj) (k : string) : bool :=
  match obj_get o k with
  | Some _ => true
  | None => existsb (String.eqb k) JSObj.proto_names
  end.

(** Writing an existing own property keeps its place; a new one goes
    last. *)
Fixpoint obj_put (o : sobj) (k : string) (v : sval) : sobj :=
  match o with
  | [] => [(k, v)]
  | (k', v') :: rest => if String.eqb k' k then (k, v) :: rest else (k', v') :: obj_put rest k v
  end.

(** [o[k] = v]: the inherited [__proto__] setter ignores a value that is
    not an object. *)
Definition obj_set (o : sobj) (k : string) (v : sval) : sobj :=
  if String.eqb k "__proto__" then o else obj_put o k v.

(** [delete o[k]] *)
Definition obj_delete (o : sobj) (k : string) : sobj :=
  List.filter (fun p => negb (String.eqb (fst p) k)) o.

(** The fields of a [State] ([runtime/components/State.js]).
    [___old] and [___changes] are [null] while the state is clean and
    only read while it is dirty: [[]] stands for [null] there.
    [forced] lists the names of [___forced] ([None] for [null]). *)
Record tstate := mkT {
  raw : sobj;
  tdirty : bool;
  old : sobj;
  changes : sobj;
  forced : option (list string)
}.


(** [___reset()] *)
Definition treset (st : tstate) : tstate := mkT (raw st) false [] [] None.

(** [___set(name, value, shouldEnsure, forceDirty)]; [ensure] only
    defines the accessor [name] on the prototype. The boolean tells
    whether [this.___component.___queueUpdate()] was called. *)
Definition tset (st : tstate) (name : string) (value : sval) (forceDirty : bool) : tstate * bool :=
  let st :=
    if forceDirty then
      let fs := match forced st with Some fs => fs | None => [] end in
      mkT (raw st) (tdirty st) (old st) (changes st)
        (Some (if String.eqb name "__proto__" || existsb (String.eqb name) fs then fs
               else app fs [name]))
    else st in
  if negb forceDirty && bool_decide (obj_read (raw st) name = Some value) then (st, false)
  else
    let '(st, q) :=
      if tdirty st then (st, false)
      else (mkT (raw st) true (raw st) [] (forced st), true) in
    let raw' := match value with
                | None => obj_delete (raw st) name
                | Some _ => obj_set (raw st) name value
                end in
    (mkT raw' (tdirty st) (old st) (obj_set (changes st) name value) (forced st), q).

(** Runs [___set] over names and values, counting the [___queueUpdate]
    calls. *)
Fixpoint tset_all (st : tstate) (kvs : list (string * sval)) (forceDirty : bool) : tstate * nat :=
  match kvs with
  | [] => (st, 0)
  | (k, v) :: rest =>
      let '(st1, q) := tset st k v forceDirty in
      let '(st2, n) := tset_all st1 rest forceDirty in
      (st2, (if q then 1 else 0) + n)
  end.

(** Successive [___set(name, value, shouldEnsure, forceDirty)] calls,
    each with its own [forceDirty], counting the [___queueUpdate] calls. *)
Fixpoint tset_calls (st : tstate) (calls : list (string * sval * bool)) : tstate * nat :=
  match calls with
  | [] => (st, 0)
  | (k, v, f) :: rest =>
      let '(st1, q) := tset st k v f in
      let '(st2, n) := tset_calls st1 rest in
      (st2, (if q then 1 else 0) + n)
  end.

(** [___replace(newState)]: every key of the raw state that is not [in]
    the new state is set to [undefined], then every own key of the new
    state is set. *)
Definition treplace (st : tstate) (newState : sobj) : tstate * nat :=
  let gone := List.filter (fun k => negb (obj_in newState k)) (map fst (raw st)) in
  let '(st1, n1) := tset_all st (map (fun k => (k, None)) gone) false in
  let '(st2, n2) := tset_all st1 newState false in
  (st2, n1 + n2).

(** [___set] as [setState(name, value)] calls it. *)
Definition setState (st : tstate) (name : string) (value : sval) : tstate * bool :=
  tset st name value false.

(** [setStateDirty(name, value)] *)
Definition setStateDirty (st : tstate) (name : string) (value : sval) : tstate * bool :=
  tset st name value true.

(** The [State] fields [update()] and [processUpdateHandlers] read. *)
Definition to_State (st : tstate) : State := mkState (tdirty st) (old st) (changes st).

End StateTrack.

(* ===================================================================== *)
(** ** The update manager: scheduling and batching *)
(* ===================================================================== *)

Module UpdateManager.

(** The module state of [runtime/components/update-manager.js] with the
    [___updateQueued] flags of the components (components by id). The
    batch stack is listed top first; a batch is its [___queue] ([None]
    for [null]). [ticks] counts the [nextTick(updateUnbatchedComponents)]
    calls. *)
Record um := mkUM {
  updatesScheduled : bool;
  batchStack : list (option (list nat));
  unbatchedQueue : list nat;
  ticks : nat;
  queued : list nat
}.

(** [scheduleUpdates()] *)
Definition scheduleUpdates (m : um) : um :=
  if updatesScheduled m then m
  else mkUM true (batchStack m) (unbatchedQueue m) (S (ticks m)) (queued m).

(** [queueComponentUpdate(component)] *)
Definition queueComponentUpdate (m : um) (id : nat) : um :=
  match batchStack m with
  | b :: rest =>
      let b' := match b with Some q => Some (app q [id]) | None => Some [id] end in
      mkUM (updatesScheduled m) (b' :: rest) (unbatchedQueue m) (ticks m) (queued m)
  | [] =>
      let m := scheduleUpdates m in
      mkUM (updatesScheduled m) (batchStack m) (app (unbatchedQueue m) [id]) (ticks m) (queued m)
  end.

(** [Component.prototype.___queueUpdate] of the component [id]. *)
Definition queueUpdate (m : um) (id : nat) : um :=
  if existsb (Nat.eqb id) (queued m) then m
  else queueComponentUpdate (mkUM (updatesScheduled m) (batchStack m) (unbatchedQueue m) (ticks m) (id :: queued m)) id.

(** A sequence of [___queueUpdate] calls. *)
Definition queueUpdates (m : um) (ids : list nat) : um := fold_left queueUpdate ids m.

End UpdateManager.

(* ===================================================================== *)
(** ** Input change detection ([checkInputChanged]) *)
(* ===================================================================== *)

Module InputCheck.

(** Property values of an input object: primitives, objects by
    reference, and the members inherited from [Object.prototype] (by
    name). NaN is left out, so [!==] is inequality. *)
Inductive ival :=
| IUndefined | INull | IBool (b : bool) | INum (z : Z) | IStr (s : string)
| IRef (r : nat) | IProto (name : string).

#[global] Instance ival_eq_dec : EqDecision ival.
Proof. solve_decision. Defined.

(** A component's input: [undefined], [null] or a plain object (its
    reference and own enumerable properties in [Object.keys] order). *)
Inductive input :=
| InUndefined | InNull | InObj (ref : nat) (props : list (string * ival)).

(** [o[k]] on an input object. *)
Definition read (props : list (string * ival)) (k : string) : ival :=
  match find (fun p => String.eqb (fst p) k) props with
  | Some (_, v) => v
  | None => if existsb (String.eqb k) JSObj.proto_names then IProto k else IUndefined
  end.

(** [oldInput != newInput] *)
Definition loose_neq (a b : input) : bool :=
  match a, b with
  | (InUndefined | InNull), (InUndefined | InNull) => false
  | InObj r1 _, InObj r2 _ => negb (Nat.eqb r1 r2)
  | _, _ => true
  end.

(** [checkInputChanged(existingComponent, oldInput, newInput)]
    ([runtime/components/Component.js]). *)
Definition checkInputChanged (oldInput newInput : input) : bool :=
  if loose_neq oldInput newInput then
    match oldInput, newInput with
    | InObj _ po, InObj _ pn =>
        if negb (Nat.eqb (length (map fst po)) (length (map fst pn))) then true
        else existsb (fun key => bool_decide (read po key <> read pn key)) (map fst po)
    | _, _ => true
    end
  else false.

End InputCheck.

(* ===================================================================== *)
(** ** Virtual-tree building ([e], [t], [c], [___finishChild]) *)
(* ===================================================================== *)

Module VBuild.
Import VNodeHeap.

(** The heap of virtual nodes with the next free reference: [new]
    allocates there. *)
Record vb := mkVB { vh : heap; vnext : nat }.

Definition alloc (s : vb) (n : vnode) : vb * nat :=
  (mkVB (<[vnext s := n]> (vh s)) (S (vnext s)), vnext s).

(** What the builder methods return: a node, a thrown exception, or
    [RFuel] when the bound on the [___finishChild] recursion ran out (the
    recursion follows [___parentNode] and does not end on a cycle). *)
Inductive ret := RNode (n : nat) | RThrow (e : exn) | RFuel.

Fixpoint finishChild_fuel (fuel : nat) (h : heap) (self : nat) : ret :=
  match fuel with
  | O => RFuel
  | S fuel' =>
      match h !! self with
      | Some n =>
          if Z.eqb (childCount n) (finalChildCount n) then
            match parentNode n with
            | Some p => finishChild_fuel fuel' h p
            | None => RNode self
            end
          else RNode self
      | None => RNode self
      end
  end.

(** [VNode.prototype.___finishChild]: on an acyclic parent chain the
    recursion visits every node at most once. *)
Definition finishChild (h : heap) (self : nat) : ret :=
  finishChild_fuel (S (size h)) h self.

(** [VElement.prototype.e(tagName, attrs, key, ownerComponent,
    childCount)], the attributes and the other fields left out. *)
Definition e (s : vb) (self : nat) (tagName : string) (cc : Z) : vb * ret :=
  let '(s, child) := alloc s (new_vnode (KElement tagName) cc) in
  let '(h, ex) := appendChild (vh s) self child in
  let s := mkVB h (vnext s) in
  match ex with
  | Some x => (s, RThrow x)
  | None => if Z.eqb cc 0 then (s, finishChild h child) else (s, RNode child)
  end.

(** [Node_prototype.t(value)] for a string value. *)
Definition t (s : vb) (self : nat) (value : string) : vb * ret :=
  let '(s, child) := alloc s (new_vnode (KText value) (-1)) in
  let '(h, ex) := appendChild (vh s) self child in
  let s := mkVB h (vnext s) in
  match ex with
  | Some x => (s, RThrow x)
  | None => (s, finishChild h self)
  end.

(** [Node_prototype.c(value)] *)
Definition c (s : vb) (self : nat) (value : string) : vb * ret :=
  let '(s, child) := alloc s (new_vnode (KComment value) (-1)) in
  let '(h, ex) := appendChild (vh s) self child in
  let s := mkVB h (vnext s) in
  match ex with
  | Some x => (s, RThrow x)
  | None => (s, finishChild h self)
  end.

(** A chain [node.t(v1).t(v2)...], each call on the node the previous
    one returned. *)
Fixpoint t_chain (s : vb) (r : ret) (vals : list string) : vb * ret :=
  match vals, r with
  | [], _ => (s, r)
  | v :: rest, RNode x => let '(s', r') := t s x v in t_chain s' r' rest
  | _ :: _, _ => (s, r)
  end.

End VBuild.

(* ===================================================================== *)
(** ** The [onLast] callback chain ([___emitLast]) *)
(* ===================================================================== *)

Module LastChain.

(** A callback registered with [out.onLast(callback)]: whether it
    declares a parameter ([lastCallback.length]), and whether it calls
    the [next] it is given before it returns (a callback may also keep
    [next] and call it later, from another turn of the event loop). *)
Record lastcb := mkLast { has_params : bool; calls_next : bool }.

(** [next()] inside [___emitLast], with the shared counter [i]: the
    result is the counter afterwards and the indices of the callbacks
    called. [None] when the fuel ran out, or when [lastArray[i++]] is
    called beyond the end (it is [undefined] there). *)
Fixpoint next (fuel : nat) (lastArray : list lastcb) (i : nat) : option (nat * list nat) :=
  match fuel with
  | O => None
  | S fuel' =>
      if Nat.eqb i (length lastArray) then Some (i, [])
      else
        match nth_error lastArray i with
        | None => None
        | Some cb =>
            let r1 := if calls_next cb then next fuel' lastArray (S i) else Some (S i, []) in
            match r1 with
            | None => None
            | Some (i2, t1) =>
                if has_params cb then Some (i2, i :: t1)
                else
                  match next fuel' lastArray i2 with
                  | None => None
                  | Some (i3, t2) => Some (i3, i :: app t1 t2)
                  end
            end
        end
  end.

(** [___emitLast()]: the counter starts at [0]; every call of [next]
    advances it, so the recursion is bounded by the number of
    callbacks. *)
Definition emitLast (lastArray : list lastcb) : option (nat * list nat) :=
  next (S (length lastArray)) lastArray 0.

End LastChain.

(* ===================================================================== *)
(** ** Finishing the async builder ([___doFinish], [on], [once]) *)
(* ===================================================================== *)

Module OutEvents.
Import AsyncBuilder Events.

(** The event side of an [AsyncVDOMBuilder]: [___state.___finished],
    [___state.___events] and [_last]. Callbacks are user functions by
    id; the render result passed to them is left out. *)
Record outst := mkOut { finished : bool; events : ee; last : option (list nat) }.

(** [onLast(callback)] *)
Definition onLast (st : outst) (cb : nat) : outst :=
  mkOut (finished st) (events st)
    (Some (match last st with None => [cb] | Some l => app l [cb] end)).

(** [out.on(event, callback)]; the list holds the callbacks called right
    away; [None] when the emitter's [on] throws. *)
Definition out_on (st : outst) (event : string) (cb : nat) : option (outst * list nat) :=
  if String.eqb event "finish" && finished st then Some (st, [cb])
  else if String.eqb event "last" then Some (onLast st cb, [])
  else option_map (fun e => (mkOut (finished st) e (last st), []))
         (Events.on (events st) event (UserFn cb)).

(** [out.once(event, callback)] *)
Definition out_once (st : outst) (event : string) (cb : nat) : option (outst * list nat) :=
  if String.eqb event "finish" && finished st then Some (st, [cb])
  else if String.eqb event "last" then Some (onLast st cb, [])
  else option_map (fun e => (mkOut (finished st) e (last st), []))
         (Events.once (events st) event cb).

(** Successive [out.on(event, cb)] calls. *)
Fixpoint out_on_all (st : outst) (event : string) (cbs : list nat) : option (outst * list nat) :=
  match cbs with
  | [] => Some (st, [])
  | cb :: rest =>
      match out_on st event cb with
      | None => None
      | Some (st1, c1) =>
          match out_on_all st1 event rest with
          | None => None
          | Some (st2, c2) => Some (st2, app c1 c2)
          end
      end
  end.

(** [___doFinish()]: marks the state finished and emits "finish". *)
Definition doFinish (st : outst) (result : value) : outst * list nat * outcome :=
  let '(e', calls, o) := Events.emit (events st) "finish" result in
  (mkOut true e' (last st), calls, o).

End OutEvents.

(* ===================================================================== *)
(** ** Example reconciler states                                          *)
(* ===================================================================== *)

Module MorphData.
Import Morph.

(** A state with no real node. *)
Definition empty_state : mstate := mkM ∅ ∅ ∅ ∅ ∅ ∅ [] 0 [].

(** An element [div] with the constant id "c0" and the attribute
    [class="x"]. *)
Definition const_div (ref : nat) : velement :=
  mkVElement "div" KUndefined ref [("class", AStr "x")] 0 (Some "c0") None false.









End MorphData.


(* ===================================================================== *)
(** ** Example components                                                 *)
(* ===================================================================== *)

Module ComponentData.
Import ComponentUpdate.



End ComponentData.


(* ===================================================================== *)
(** ** Runs of the async builder                                          *)
(* ===================================================================== *)

Module AsyncData.
Import AsyncBuilder.

(** The world of a fresh render and its root builder 0. *)
Definition w0 : world := fst create_out.

(** Number of "finish" events in a log. *)
Definition count_finish (l : list logev) : nat :=
  length (List.filter (fun ev => match ev with EvFinish _ => true | _ => false end) l).


(** A builder is open until its [end()]: [___parent] is still set. *)
Definition is_open (w : world) (b : nat) : bool :=
  match builders w !! b with
  | Some x => match parent x with Some _ => true | None => false end
  | None => false
  end.

Definition op_builder (o : op) : nat :=
  match o with OpBeginAsync b _ | OpEnd b | OpError b _ | OpOnLast b _ => b end.

(** A render calls [beginAsync], [end], [error] and [onLast] on open
    builders only. *)
Fixpoint protocol_ok (w : world) (os : list op) : bool :=
  match os with
  | [] => true
  | o :: rest => is_open w (op_builder o) && protocol_ok (step w o) rest
  end.

(** Whether the builder [c] is a child of [b] that has not completed. *)
Definition child_open (w : world) (b c : nat) : bool :=
  match builders w !! c with
  | Some y => bool_decide (parentOut y = Some b) && negb (Z.eqb (remaining y) 0)
  | None => false
  end.

(** Number of children of [b] that have not completed. *)
Definition open_children (w : world) (b : nat) : nat :=
  length (List.filter (child_open w b) (seq 0 (next_builder w))).

(** What the count of [b] is at least: one for [b] itself until it ends,
    one per child that has not completed. *)
Definition pending (w : world) (b : nat) (x : builder) : Z :=
  ((if parent x then 1 else 0) + Z.of_nat (open_children w b))%Z.

(** Builder ids are [0 .. next_builder - 1]; 0 is the root; every other
    builder has a parent of smaller id. *)
Definition ids_ok (w : world) : Prop :=
  (forall b, b < next_builder w <-> is_Some (builders w !! b)) /\
  (exists x, builders w !! 0 = Some x /\ parentOut x = None) /\
  (forall b x, builders w !! b = Some x -> b <> 0 -> exists p, parentOut x = Some p /\ p < b).

(** The invariant of the runs of a render. *)
Definition inv (w : world) : Prop :=
  ids_ok w /\
  (forall b x, builders w !! b = Some x -> (pending w b x <= remaining x)%Z) /\
  (forall x, builders w !! 0 = Some x ->
     count_finish (log w) = if Z.eqb (remaining x) 0 then 1 else 0) /\
  (forall b, In (EvFinish b) (log w) -> b = 0).

(** The invariant while a completion propagates up to [p]: it holds
    except that [p] still counts one unit too many. *)
Definition inv_extra (w : world) (p : nat) (xp : builder) : Prop :=
  ids_ok w /\ builders w !! p = Some xp /\ (pending w p xp + 1 <= remaining xp)%Z /\
  (forall b x, builders w !! b = Some x -> b <> p -> (pending w b x <= remaining x)%Z) /\
  (forall x, builders w !! 0 = Some x ->
     count_finish (log w) = if Z.eqb (remaining x) 0 then 1 else 0) /\
  (forall b, In (EvFinish b) (log w) -> b = 0).

(** Two async branches of the root; the root ends first, then the second
    branch, then the first. *)
Definition ops_two_branches : list op :=
  [OpBeginAsync 0 false; OpBeginAsync 0 false; OpEnd 0; OpEnd 2; OpEnd 1].



End AsyncData.

(* ===================================================================== *)
(** ** Example data and auxiliary predicates for the virtual nodes        *)
(* ===================================================================== *)

Module VNodeData.
Import VNodeHeap.

(** No node returned by either getter is a [VDocumentFragment]. *)
Definition not_docfrag (h : heap) (m : nat) : Prop :=
  forall mn, h !! m = Some mn -> is_DocumentFragment mn = false.

(** A heap where the first child (node 1) of the element 0 is an empty
    keyed [VFragment], followed by the text node 2. *)
Definition h_fragment : heap :=
  <[0 := mkVNode (KElement "div") 2 2 (Some 1) (Some 2) None None None false]>
  (<[1 := mkVNode (KFragment false) 0 0 None None (Some 0) (Some 2) None false]>
   {[ 2 := mkVNode (KText "x") 0 0 None None (Some 0) None None false ]}).

(** A heap where the first child (node 1) of the element 0 is an empty
    [VDocumentFragment], followed by the text node 2. *)
Definition h_docfrag : heap :=
  <[0 := mkVNode (KElement "div") 2 2 (Some 1) (Some 2) None None None false]>
  (<[1 := mkVNode KDocumentFragment 0 0 None None (Some 0) (Some 2) None false]>
   {[ 2 := mkVNode (KText "x") 0 0 None None (Some 0) None None false ]}).

(** A [textarea] element 0 with the value "a", a text node 1 "b" and a
    [div] 2. *)
Definition h_textarea : heap :=
  <[0 := mkVNode (KElement "textarea") 1 0 None None None None (Some "a") false]>
  (<[1 := new_vnode (KText "b") 0]> {[ 2 := new_vnode (KElement "div") 0 ]}).

End VNodeData.

(* ===================================================================== *)
(** * Properties                                                          *)
(* ===================================================================== *)

(* ===================================================================== *)
(** ** The virtual-node methods                                           *)
(* ===================================================================== *)

Module VNodeFacts.
Import VNodeHeap VNodeData.

Lemma getters_skip_docfrag (h : heap) (fuel : nat) :
  (forall n m, firstChild fuel h n = Some (Some m) -> not_docfrag h m) /\
  (forall n m, nextSibling fuel h n = Some (Some m) -> not_docfrag h m).
Proof.
  induction fuel as [|f [IHf IHn]]; [split; intros; discriminate|].
  split; intros n m E; simpl in E.
  - destruct (h !! n) as [nn|]; [|discriminate].
    destruct (firstChildInternal nn) as [fc|]; [|discriminate].
    destruct (h !! fc) as [fcn|] eqn:Hfc.
    + destruct (is_DocumentFragment fcn) eqn:Hd.
      * destruct (firstChild f h fc) as [[x|]|] eqn:E2; [| |discriminate].
        -- injection E as <-. exact (IHf _ _ E2).
        -- exact (IHn _ _ E).
      * injection E as <-. intros mn Hm. congruence.
    + injection E as <-. intros mn Hm. congruence.
  - destruct (h !! n) as [nn|]; [|discriminate].
    destruct (nextSiblingInternal nn) as [ns|].
    + destruct (h !! ns) as [nsn|] eqn:Hns.
      * destruct (is_DocumentFragment nsn) eqn:Hd.
        -- destruct (firstChild f h ns) as [[x|]|] eqn:E2; [| |discriminate].
           ++ injection E as <-. exact (IHf _ _ E2).
           ++ exact (IHn _ _ E).
        -- injection E as <-. intros mn Hm. congruence.
      * injection E as <-. intros mn Hm. congruence.
    + destruct (parentNode nn) as [p|]; [|discriminate].
      destruct (h !! p) as [pn|]; [|discriminate].
      destruct (is_DocumentFragment pn); [exact (IHn _ _ E)|discriminate].
Qed.

(** Claim C6 (counterexample): an empty keyed [VFragment] first child is
    not skipped: [___firstChild] of the element returns the fragment
    itself, not its next sibling 2. *)
Lemma firstChild_keeps_empty_fragment :
  (exists n, h_fragment !! 1 = Some n /\ kind n = KFragment false /\ firstChildInternal n = None) /\
  firstChild 5 h_fragment 0 = Some (Some 1).
Proof. split; [eexists; split; [reflexivity|split; reflexivity]|reflexivity]. Qed.

(** Claim C6 (amended): the getters are transparent for
    [VDocumentFragment] nodes, the only nodes with the
    [___DocumentFragment] flag: neither getter ever returns one; a first
    child that is a document fragment is replaced by its own first child,
    or by its next sibling when it is empty; a next sibling that is a
    document fragment likewise; the last child of a document-fragment
    parent continues with the parent's next sibling; a first child that is
    not a document fragment (a keyed [VFragment] included) is returned. *)
Theorem getters_docfrag_transparent (h : heap) :
  (forall fuel n m, firstChild fuel h n = Some (Some m) -> not_docfrag h m) /\
  (forall fuel n m, nextSibling fuel h n = Some (Some m) -> not_docfrag h m) /\
  (forall fuel n nn fc fcn, h !! n = Some nn -> firstChildInternal nn = Some fc ->
     h !! fc = Some fcn -> is_DocumentFragment fcn = true ->
     firstChild (S fuel) h n =
       match firstChild fuel h fc with Some None => nextSibling fuel h fc | r => r end) /\
  (forall fuel n nn fc fcn, h !! n = Some nn -> firstChildInternal nn = Some fc ->
     h !! fc = Some fcn -> is_DocumentFragment fcn = true -> firstChildInternal fcn = None ->
     firstChild (S (S fuel)) h n = nextSibling (S fuel) h fc) /\
  (forall fuel n nn ns nsn, h !! n = Some nn -> nextSiblingInternal nn = Some ns ->
     h !! ns = Some nsn -> is_DocumentFragment nsn = true -> firstChildInternal nsn = None ->
     nextSibling (S (S fuel)) h n = nextSibling (S fuel) h ns) /\
  (forall fuel n nn p pn, h !! n = Some nn -> nextSiblingInternal nn = None ->
     parentNode nn = Some p -> h !! p = Some pn -> is_DocumentFragment pn = true ->
     nextSibling (S fuel) h n = nextSibling fuel h p) /\
  (forall fuel n nn fc fcn, h !! n = Some nn -> firstChildInternal nn = Some fc ->
     h !! fc = Some fcn -> is_DocumentFragment fcn = false ->
     firstChild (S fuel) h n = Some (Some fc)).
Proof.
  split; [intros f; exact (proj1 (getters_skip_docfrag h f))|].
  split; [intros f; exact (proj2 (getters_skip_docfrag h f))|].
  split.
  { intros f n nn fc fcn Hn Hfc Hf Hd. simpl. rewrite Hn, Hfc, Hf, Hd.
    destruct (firstChild f h fc) as [[x|]|]; reflexivity. }
  split.
  { intros f n nn fc fcn Hn Hfc Hf Hd He. simpl. rewrite Hn, Hfc, Hf, Hd, He.
    reflexivity. }
  split.
  { intros f n nn ns nsn Hn Hns Hs Hd He. simpl. rewrite Hn, Hns, Hs, Hd, He.
    reflexivity. }
  split.
  { intros f n nn p pn Hn Hns Hp Hpn Hd. simpl. rewrite Hn, Hns, Hp, Hpn, Hd.
    reflexivity. }
  intros f n nn fc fcn Hn Hfc Hf Hd. simpl. rewrite Hn, Hfc, Hf, Hd. reflexivity.
Qed.

(** An instance of the amended claim C6: the empty document fragment 1 is
    skipped and the first child of 0 is the text node 2. *)
Lemma getters_docfrag_transparent_witness :
  firstChild 5 h_docfrag 0 = Some (Some 2) /\
  firstChild 5 h_docfrag 0 = nextSibling 4 h_docfrag 1.
Proof.
  split; [reflexivity|].
  refine (proj1 (proj2 (proj2 (proj2 (getters_docfrag_transparent h_docfrag)))) 3 0 _ 1 _
            _ _ _ _ _); reflexivity.
Defined.

(** Claim C3: on a [textarea] node, [___appendChild] throws a [TypeError]
    for a child that is neither a text node nor flagged [___preserve], and
    appends a text child's value to the textarea's value without linking
    the child; on any other node it does not throw and links the child as
    the new last child (after the former last child, or as the first child
    when there was none). *)
Theorem appendChild_textarea_leaf (h : heap) (self child : nat) (sn cn : vnode) :
  h !! self = Some sn -> h !! child = Some cn -> self <> child ->
  (nodeName sn = Some "textarea" ->
     (text_value cn = None -> preserve cn = false ->
        snd (appendChild h self child) = Some TypeError) /\
     (forall v, text_value cn = Some v ->
        snd (appendChild h self child) = None /\
        fst (appendChild h self child) !! child = Some cn /\
        exists sn', fst (appendChild h self child) !! self = Some sn' /\
          valueInternal sn' = Some (default "" (valueInternal sn) ++ v) /\
          firstChildInternal sn' = firstChildInternal sn /\ lastChild sn' = lastChild sn)) /\
  (nodeName sn <> Some "textarea" ->
     snd (appendChild h self child) = None /\
     (exists sn', fst (appendChild h self child) !! self = Some sn' /\ lastChild sn' = Some child) /\
     (exists cn', fst (appendChild h self child) !! child = Some cn' /\
        parentNode cn' = Some self) /\
     (forall last ln, lastChild sn = Some last -> last <> self -> h !! last = Some ln ->
        exists ln', fst (appendChild h self child) !! last = Some ln' /\
          nextSiblingInternal ln' = Some child) /\
     (lastChild sn = None ->
        exists sn', fst (appendChild h self child) !! self = Some sn' /\
          firstChildInternal sn' = Some child)).
Proof.
  intros Hs Hc Hne. unfold appendChild. rewrite Hs, Hc.
  assert (Hname : nodeName (set_childCount (childCount sn + 1) sn) = nodeName sn)
    by reflexivity.
  split.
  - intros Ht. rewrite Hname, (decide_True _ _ Ht). split.
    + intros Hv Hp. rewrite Hv. simpl. rewrite Hp. reflexivity.
    + intros v Hv. rewrite Hv. simpl. split; [reflexivity|]. split.
      * rewrite !lookup_insert_ne by congruence. exact Hc.
      * eexists. split; [apply lookup_insert_eq|].
        split; [|split; reflexivity]. simpl. destruct (valueInternal sn); reflexivity.
  - intros Ht. rewrite Hname, (decide_False _ _ Ht). simpl. split; [reflexivity|].
    split; [|split; [|split]].
    + rewrite lookup_alter_eq.
      destruct (lastChild sn) as [last|].
      * destruct (decide (last = self)) as [->|Hl].
        -- rewrite lookup_alter_eq, lookup_alter_ne, lookup_insert_eq by congruence.
           eexists; split; reflexivity.
        -- rewrite lookup_alter_ne, lookup_alter_ne, lookup_insert_eq by congruence.
           eexists; split; reflexivity.
      * rewrite lookup_alter_eq, lookup_alter_ne, lookup_insert_eq by congruence.
        eexists; split; reflexivity.
    + rewrite lookup_alter_ne by congruence.
      destruct (lastChild sn) as [last|].
      * destruct (decide (last = child)) as [->|Hl].
        -- rewrite lookup_alter_eq, lookup_alter_eq, lookup_insert_ne, Hc by congruence.
           eexists; split; reflexivity.
        -- rewrite lookup_alter_ne, lookup_alter_eq, lookup_insert_ne, Hc by congruence.
           eexists; split; reflexivity.
      * rewrite lookup_alter_ne, lookup_alter_eq, lookup_insert_ne, Hc by congruence.
        eexists; split; reflexivity.
    + intros last ln Hl Hls Hln. rewrite Hl.
      rewrite lookup_alter_ne by congruence. rewrite lookup_alter_eq.
      destruct (decide (last = child)) as [->|Hlc].
      * rewrite lookup_alter_eq, lookup_insert_ne, Hc by congruence.
        eexists; split; reflexivity.
      * rewrite lookup_alter_ne, lookup_insert_ne, Hln by congruence.
        eexists; split; reflexivity.
    + intros Hl. rewrite Hl. rewrite lookup_alter_eq, lookup_alter_eq, lookup_alter_ne, lookup_insert_eq
        by congruence.
      eexists; split; reflexivity.
Qed.

(** An instance of claim C3: text "b" appended to the textarea 0 gives the
    value "ab"; the [div] 2 appended to the textarea throws; the text node
    appended to the [div] 2 is linked. *)
Lemma appendChild_textarea_leaf_witness :
  h_textarea !! 0 = Some (mkVNode (KElement "textarea") 1 0 None None None None (Some "a") false) /\
  snd (appendChild h_textarea 0 2) = Some TypeError /\
  snd (appendChild h_textarea 2 1) = None.
Proof.
  split; [reflexivity|]. split.
  - refine (proj1 (proj1 (appendChild_textarea_leaf h_textarea 0 2 _ _ _ _ _) _) _ _);
      try reflexivity; discriminate.
  - refine (proj1 (proj2 (appendChild_textarea_leaf h_textarea 2 1 _ _ _ _ _) _));
      try reflexivity; discriminate.
Defined.

End VNodeFacts.

(* ===================================================================== *)
(** ** The key sequence                                                   *)
(* ===================================================================== *)

Module KeySequenceFacts.
Import JSObj KeySequence.

Lemma nextKey_first (L : obj) (k : string) :
  k <> "__proto__" -> L !! k = None ->
  nextKey L k = (k, <[k := JNum (Some 1%Z)]> L).
Proof.
  intros Hk HL. unfold nextKey, js_get, js_set.
  destruct (String.eqb_spec k "__proto__") as [E|_]; [contradiction|].
  rewrite HL.
  destruct (existsb (String.eqb k) proto_names); simpl; rewrite insert_insert_eq; reflexivity.
Qed.

Lemma nextKey_next (L : obj) (k : string) (m : nat) :
  k <> "__proto__" -> L !! k = Some (JNum (Some (Z.of_nat (S m)))) ->
  nextKey L k = (k ++ "_" ++ pretty (Z.of_nat (S m)),
                 <[k := JNum (Some (Z.of_nat (S (S m))))]> L).
Proof.
  intros Hk HL. unfold nextKey, js_get, js_set.
  destruct (String.eqb_spec k "__proto__") as [E|_]; [contradiction|].
  rewrite HL. cbv beta iota delta [to_numeric num_truthy num_add1 num_to_string option_map].
  assert (E : Z.eqb (Z.of_nat (S m)) 0 = false) by (apply Z.eqb_neq; lia).
  rewrite E. cbn [negb].
  replace (Z.of_nat (S (S m))) with (Z.of_nat (S m) + 1)%Z by lia. reflexivity.
Qed.

Lemma nextKeys_next (k : string) (n m : nat) (L : obj) :
  k <> "__proto__" -> L !! k = Some (JNum (Some (Z.of_nat (S m)))) ->
  nextKeys L k n =
    (map (fun i => k ++ "_" ++ pretty (Z.of_nat i)) (seq (S m) n),
     <[k := JNum (Some (Z.of_nat (S m + n)))]> L).
Proof.
  revert m L. induction n as [|n IH]; intros m L Hk HL.
  - simpl. rewrite Nat.add_0_r, insert_id by exact HL. reflexivity.
  - simpl. rewrite (nextKey_next L k m Hk HL).
    rewrite (IH (S m)); [|exact Hk|apply lookup_insert_eq].
    rewrite insert_insert_eq. replace (S (m + S n)) with (S (S m) + n) by lia. reflexivity.
Qed.

(** The key sequence for keys other than "__proto__": on a sequence
    without an entry for [k], [n+1] successive calls return [k], then
    [k_1], ..., [k_n]; only the entry of [k] changes, so the counters of
    other keys are untouched. *)
Theorem nextKeys_ordinary_key (k : string) (n : nat) (L : obj) :
  k <> "__proto__" -> L !! k = None ->
  nextKeys L k (S n) =
    (k :: map (fun i => k ++ "_" ++ pretty (Z.of_nat i)) (seq 1 n),
     <[k := JNum (Some (Z.of_nat (S n)))]> L).
Proof.
  intros Hk HL. simpl. rewrite (nextKey_first L k Hk HL).
  rewrite (nextKeys_next k n 0); [|exact Hk|apply lookup_insert_eq].
  rewrite insert_insert_eq. reflexivity.
Qed.

Lemma nextKeys_ordinary_key_witness :
  nextKeys new_KeySequence "a" 3 = (["a"; "a_1"; "a_2"], {[ "a" := JNum (Some 3%Z) ]}).
Proof.
  rewrite (nextKeys_ordinary_key "a" 2 new_KeySequence); [reflexivity|discriminate|reflexivity].
Defined.

(** Claim C4 (the key "__proto__"): every call of [___nextKey("__proto__")]
    returns "__proto__" itself, where the claim has "__proto___1" and
    "__proto___2" for the second and third calls, while the key "a" is
    numbered as the claim says. *)
Theorem nextKeys_proto_collides :
  nextKeys new_KeySequence "__proto__" 3 =
    (["__proto__"; "__proto__"; "__proto__"], new_KeySequence) /\
  fst (nextKeys new_KeySequence "a" 3) = ["a"; "a_1"; "a_2"].
Proof. split; reflexivity. Qed.

End KeySequenceFacts.

(* ===================================================================== *)
(** ** The reconciler                                                     *)
(* ===================================================================== *)

Module MorphFacts.
Import Morph MorphData.

(** Claim C5: when the new element's [___constId] is defined and equal to
    the old element's, [morphEl] returns at once: the state, the real
    tree and the mutation log included, is left as it is; in every other
    case it runs the attribute diff, the children (except for a
    [textarea]) and the special form-control handler. *)
Theorem morphEl_constId (kids : nat -> M unit) (fromEl : nat) (vFromEl toEl : velement)
    (cs : list vtree) :
  (forall c s, constId toEl = Some c -> constId vFromEl = Some c ->
     morphEl kids fromEl vFromEl toEl cs s = Some (tt, s)) /\
  ((constId toEl = None \/ constId vFromEl <> constId toEl) ->
     morphEl kids fromEl vFromEl toEl cs =
       (morphAttrs fromEl vFromEl toEl ;;;
        (if String.eqb (tagName toEl) "textarea" then ret tt else kids fromEl) ;;;
        specialElHandler fromEl toEl cs)).
Proof.
  split.
  - intros c s Ht Hv. unfold morphEl. rewrite Ht, (decide_True _ _ Hv). reflexivity.
  - intros H. unfold morphEl. destruct (constId toEl) as [c|] eqn:Ht; [|reflexivity].
    destruct H as [H|H]; [discriminate|].
    rewrite decide_False by exact H. reflexivity.
Qed.

(** An instance of claim C5: two elements with the constant id "c0"; the
    children are not visited (they would fail), the state is unchanged. *)
Lemma morphEl_constId_witness :
  morphEl (fun _ => fail) 0 (const_div 1) (const_div 2) [] empty_state = Some (tt, empty_state).
Proof. apply (proj1 (morphEl_constId (fun _ => fail) 0 (const_div 1) (const_div 2) []) "c0");
  reflexivity.
Defined.

End MorphFacts.

(* ===================================================================== *)
(** ** The component update                                               *)
(* ===================================================================== *)

Module ComponentUpdateFacts.
Import ComponentUpdate.



Lemma not_in_existsb (x : string) (l : list string) :
  ~ In x l -> existsb (String.eqb x) l = false.
Proof.
  intros H. destruct (existsb (String.eqb x) l) eqn:E; [|reflexivity].
  apply existsb_exists in E. destruct E as [y [Hy Ey]]. apply String.eqb_eq in Ey. subst y.
  contradiction.
Qed.




End ComponentUpdateFacts.

(* ===================================================================== *)
(** ** The async builder                                                  *)
(* ===================================================================== *)

Module AsyncBuilderFacts.
Import VNodeHeap AsyncBuilder AsyncData.

Lemma filter_length_ext (f g : nat -> bool) (l : list nat) :
  (forall c, In c l -> f c = g c) -> length (List.filter f l) = length (List.filter g l).
Proof.
  induction l as [|a l IH]; intros H; [reflexivity|]. simpl.
  rewrite (H a (or_introl eq_refl)).
  assert (E : length (List.filter f l) = length (List.filter g l))
    by (apply IH; intros c Hc; apply H; right; exact Hc).
  destruct (g a); simpl; rewrite E; reflexivity.
Qed.

Lemma filter_length_drop (f g : nat -> bool) (l : list nat) (k : nat) :
  NoDup l -> In k l -> (forall c, c <> k -> f c = g c) -> f k = true -> g k = false ->
  length (List.filter f l) = S (length (List.filter g l)).
Proof.
  induction l as [|a l IH]; intros Hnd Hin Hfg Hf Hg; [destruct Hin|].
  inversion Hnd as [|? ? Hna Hnd']; subst.
  simpl. destruct Hin as [<-|Hin].
  - rewrite Hf, Hg. simpl. f_equal. apply filter_length_ext.
    intros c Hc. apply Hfg. intros E. subst c. apply Hna, list_elem_of_In, Hc.
  - assert (a <> k) by (intros ->; apply Hna, list_elem_of_In, Hin).
    rewrite (Hfg a) by assumption. destruct (g a); simpl; [f_equal|]; apply IH; assumption.
Qed.

Lemma filter_length_zero (f : nat -> bool) (l : list nat) (c : nat) :
  length (List.filter f l) = 0 -> In c l -> f c = false.
Proof.
  induction l as [|a l IH]; intros H Hin; [destruct Hin|]. simpl in H.
  destruct (f a) eqn:Ha; [discriminate|].
  destruct Hin as [<-|Hin]; [exact Ha|exact (IH H Hin)].
Qed.

Lemma child_open_upd_ne (w : world) (k : nat) (f : builder -> builder) (b c : nat) :
  c <> k -> child_open (upd_builder k f w) b c = child_open w b c.
Proof. intros H. unfold child_open. simpl. rewrite lookup_alter_ne by congruence. reflexivity. Qed.

Lemma child_open_at (w : world) (b c : nat) (x : builder) :
  builders w !! c = Some x ->
  child_open w b c = bool_decide (parentOut x = Some b) && negb (Z.eqb (remaining x) 0).
Proof. intros H. unfold child_open. rewrite H. reflexivity. Qed.

(** Updating a builder without changing its parent or whether its count
    is zero leaves every count of open children as it is. *)
Lemma open_children_upd_same (w : world) (k : nat) (f : builder -> builder) (x : builder) (b : nat) :
  builders w !! k = Some x -> parentOut (f x) = parentOut x ->
  Z.eqb (remaining (f x)) 0 = Z.eqb (remaining x) 0 ->
  open_children (upd_builder k f w) b = open_children w b.
Proof.
  intros Hk Hp Hr. unfold open_children. simpl. apply filter_length_ext.
  intros c _. destruct (decide (c = k)) as [->|Hne].
  - rewrite (child_open_at w b k x Hk).
    rewrite (child_open_at (upd_builder k f w) b k (f x)) by (simpl; rewrite lookup_alter_eq, Hk; reflexivity).
    rewrite Hp, Hr. reflexivity.
  - apply child_open_upd_ne. exact Hne.
Qed.

(** A child whose count drops to zero is no longer open. *)
Lemma open_children_upd_drop (w : world) (k : nat) (f : builder -> builder) (x : builder) (b : nat) :
  builders w !! k = Some x -> k < next_builder w -> parentOut (f x) = parentOut x ->
  parentOut x = Some b -> remaining x <> 0%Z -> remaining (f x) = 0%Z ->
  open_children w b = S (open_children (upd_builder k f w) b).
Proof.
  intros Hk Hlt Hp Hb Hr Hr'. unfold open_children. simpl.
  apply (filter_length_drop _ _ _ k).
  - apply NoDup_ListNoDup, seq_NoDup.
  - apply in_seq. lia.
  - intros c Hc. symmetry. apply child_open_upd_ne. exact Hc.
  - rewrite (child_open_at w b k x Hk), Hb, bool_decide_eq_true_2 by reflexivity.
    apply Z.eqb_neq in Hr. rewrite Hr. reflexivity.
  - rewrite (child_open_at (upd_builder k f w) b k (f x)) by (simpl; rewrite lookup_alter_eq, Hk; reflexivity).
    rewrite Hr'. apply andb_false_r.
Qed.

(** A builder not yet in the map has no children. *)
Lemma open_children_fresh (w : world) (b : nat) :
  ids_ok w -> next_builder w <= b -> open_children w b = 0.
Proof.
  intros [Hdom [[r [Hr Hrp]] Hpar]] Hb. unfold open_children.
  transitivity (length (List.filter (fun _ => false) (seq 0 (next_builder w)))).
  - apply filter_length_ext. intros c Hc. apply in_seq in Hc. unfold child_open.
    destruct (builders w !! c) as [y|] eqn:Hy; [|reflexivity].
    destruct (decide (c = 0)) as [->|Hc0].
    + rewrite Hr in Hy. injection Hy as <-. rewrite Hrp. reflexivity.
    + destruct (Hpar c y Hy Hc0) as [p [Hp Hpc]]. rewrite Hp.
      rewrite bool_decide_eq_false_2 by (intros E; injection E; lia). reflexivity.
  - induction (seq 0 (next_builder w)); auto.
Qed.

Lemma open_children_upd_other (w : world) (k : nat) (f : builder -> builder) (x : builder) (b : nat) :
  builders w !! k = Some x -> parentOut (f x) = parentOut x -> parentOut x <> Some b ->
  open_children (upd_builder k f w) b = open_children w b.
Proof.
  intros Hk Hp Hb. unfold open_children. simpl. apply filter_length_ext.
  intros c _. destruct (decide (c = k)) as [->|Hne].
  - rewrite (child_open_at w b k x Hk).
    rewrite (child_open_at (upd_builder k f w) b k (f x)) by (simpl; rewrite lookup_alter_eq, Hk; reflexivity).
    rewrite Hp, bool_decide_eq_false_2 by exact Hb. reflexivity.
  - apply child_open_upd_ne. exact Hne.
Qed.

Lemma ids_ok_upd (w : world) (k : nat) (f : builder -> builder) (x : builder) :
  builders w !! k = Some x -> parentOut (f x) = parentOut x -> ids_ok w ->
  ids_ok (upd_builder k f w).
Proof.
  intros Hk Hp [Hdom [[r [Hr Hrp]] Hpar]]. split; [|split].
  - intros b. simpl. rewrite Hdom. destruct (decide (b = k)) as [->|Hne].
    + rewrite lookup_alter_eq, Hk. simpl. split; intros _; eexists; reflexivity.
    + rewrite lookup_alter_ne by congruence. reflexivity.
  - simpl. destruct (decide (k = 0)) as [->|Hne].
    + rewrite lookup_alter_eq, Hk. simpl. exists (f x). split; [reflexivity|].
      rewrite Hr in Hk. injection Hk as ->. rewrite Hp. exact Hrp.
    + rewrite lookup_alter_ne by congruence. exists r. split; assumption.
  - intros b y Hy Hb. simpl in Hy. destruct (decide (b = k)) as [->|Hne].
    + rewrite lookup_alter_eq, Hk in Hy. simpl in Hy. injection Hy as <-.
      rewrite Hp. exact (Hpar k x Hk Hb).
    + rewrite lookup_alter_ne in Hy by congruence. exact (Hpar b y Hy Hb).
Qed.

Lemma count_finish_app (l1 l2 : list logev) :
  count_finish (app l1 l2) = count_finish l1 + count_finish l2.
Proof. unfold count_finish. rewrite List.filter_app, length_app. reflexivity. Qed.

Lemma emit_log (ev : emitter) (type : string) (arg : value) :
  count_finish (fst (emit ev type arg)) = 0 /\
  (forall b, ~ In (EvFinish b) (fst (emit ev type arg))).
Proof.
  unfold emit. destruct (ev !! type) as [[l|ls]|].
  - split; [reflexivity|]. intros b [H|[]]. discriminate.
  - split; [reflexivity|]. intros b [H|[]]. discriminate.
  - destruct (String.eqb type "error"); [destruct arg|];
      (split; [reflexivity|intros b []]).
Qed.

(** Root and parent facts read off [ids_ok]. *)
Lemma ids_ok_root (w : world) (b : nat) (x : builder) :
  ids_ok w -> builders w !! b = Some x -> parentOut x = None -> b = 0.
Proof.
  intros [_ [_ Hpar]] Hb Hn. destruct (decide (b = 0)) as [->|Hne]; [reflexivity|].
  destruct (Hpar b x Hb Hne) as [p [Hp _]]. congruence.
Qed.

Lemma ids_ok_parent (w : world) (b p : nat) (x : builder) :
  ids_ok w -> builders w !! b = Some x -> parentOut x = Some p ->
  p < b /\ exists xp, builders w !! p = Some xp.
Proof.
  intros [Hdom [[r [Hr Hrp]] Hpar]] Hb Hp. destruct (decide (b = 0)) as [->|Hne].
  - rewrite Hr in Hb. injection Hb as <-. congruence.
  - destruct (Hpar b x Hb Hne) as [p' [Hp' Hlt]]. rewrite Hp in Hp'. injection Hp' as <-.
    split; [exact Hlt|]. apply Hdom. assert (b < next_builder w) by (apply Hdom; eexists; exact Hb).
    lia.
Qed.

Lemma ids_ok_lt (w : world) (b : nat) (x : builder) :
  ids_ok w -> builders w !! b = Some x -> b < next_builder w.
Proof. intros [Hdom _] Hb. apply Hdom. eexists. exact Hb. Qed.

Lemma pending_nonneg (w : world) (b : nat) (x : builder) : (0 <= pending w b x)%Z.
Proof. unfold pending. destruct (parent x); lia. Qed.

(** Appending events other than "finish" keeps the invariant. *)
Lemma inv_add_log (w : world) (l : list logev) :
  inv w -> count_finish l = 0 -> (forall b, ~ In (EvFinish b) l) -> inv (add_log l w).
Proof.
  intros [Hids [Hpend [Hcnt Hfin]]] Hl Hnl. split; [exact Hids|]. split; [exact Hpend|]. split.
  - intros x Hx. simpl. rewrite count_finish_app, Hl, Nat.add_0_r. exact (Hcnt x Hx).
  - intros b Hb. simpl in Hb. apply in_app_iff in Hb as [Hb|Hb]; [exact (Hfin b Hb)|].
    destruct (Hnl b Hb).
Qed.

Lemma emitLast_inv (w : world) (b : nat) : inv w -> inv (fst (emitLast w b)).
Proof.
  intros Hinv. unfold emitLast.
  destruct (builders w !! b) as [x|]; [|exact Hinv].
  destruct (lastArray x); [|exact Hinv].
  apply inv_add_log; [exact Hinv|reflexivity|]. intros c [H|[]]. discriminate.
Qed.

(** The completion of a child propagates up the [parentOut] chain and
    restores the invariant. *)
Lemma hcd_inv (f : nat) :
  forall w p xp, inv_extra w p xp -> p < f -> inv (fst (handleChildDone f w p)).
Proof.
  induction f as [|f IH]; intros w p xp [Hids [Hp [Hpend [Hoth [Hcnt Hfin]]]]] Hlt; [lia|].
  simpl. rewrite Hp.
  set (r := (remaining xp - 1)%Z).
  set (w1 := upd_builder p (set_remaining r) w).
  assert (Hnn := pending_nonneg w p xp).
  assert (Hids1 : ids_ok w1) by (apply (ids_ok_upd w p _ xp Hp); [reflexivity|exact Hids]).
  assert (Hp1 : builders w1 !! p = Some (set_remaining r xp))
    by (simpl; rewrite lookup_alter_eq, Hp; reflexivity).
  assert (Hb1 : forall b, b <> p -> builders w1 !! b = builders w !! b)
    by (intros b Hb; simpl; rewrite lookup_alter_ne by congruence; reflexivity).
  assert (Hother : forall b, parentOut xp <> Some b -> open_children w1 b = open_children w b)
    by (intros b Hb; exact (open_children_upd_other w p (set_remaining r) xp b Hp eq_refl Hb)).
  destruct (Z.eqb_spec r 0) as [Hr0|Hr0].
  - destruct (parentOut xp) as [po|] eqn:Hpo.
    + destruct (ids_ok_parent w p po xp Hids Hp Hpo) as [Hpo_lt [xpo Hxpo]].
      apply (IH w1 po xpo); [|lia].
      split; [exact Hids1|]. split; [rewrite Hb1 by lia; exact Hxpo|]. split.
      * assert (Hdrop : open_children w po = S (open_children w1 po)).
        { apply (open_children_upd_drop w p (set_remaining r) xp po Hp
                   (ids_ok_lt w p xp Hids Hp) eq_refl Hpo); [lia|exact Hr0]. }
        specialize (Hoth po xpo Hxpo ltac:(lia)). unfold pending in *.
        rewrite Hdrop in Hoth. lia.
      * split; [|split].
        -- intros b x Hx Hbpo. destruct (decide (b = p)) as [->|Hbp].
           ++ rewrite Hp1 in Hx. injection Hx as <-. unfold pending in *.
              rewrite (Hother p)
                by (intros E; injection E; lia).
              simpl. lia.
           ++ rewrite Hb1 in Hx by exact Hbp. specialize (Hoth b x Hx Hbp). unfold pending in *.
              rewrite (Hother b) by (congruence).
              exact Hoth.
        -- intros x Hx. rewrite Hb1 in Hx by lia. exact (Hcnt x Hx).
        -- exact Hfin.
    + assert (p = 0) as -> by exact (ids_ok_root w p xp Hids Hp Hpo).
      unfold doFinish.
      destruct (emit (events (set_finished w1)) "finish" (VOther "RenderResult")) as [l t] eqn:He.
      pose proof (emit_log (events (set_finished w1)) "finish" (VOther "RenderResult")) as Hl.
      rewrite He in Hl. destruct Hl as [Hl1 Hl2]. simpl fst in Hl1, Hl2 |- *.
      split; [exact Hids1|]. split; [|split].
      * intros b x Hx. change (builders w1 !! b = Some x) in Hx.
        change (pending w1 b x <= remaining x)%Z.
        destruct (decide (b = 0)) as [->|Hb0].
        -- rewrite Hp1 in Hx. injection Hx as <-. unfold pending in *.
           rewrite (Hother 0) by (discriminate).
           simpl. lia.
        -- rewrite Hb1 in Hx by exact Hb0. specialize (Hoth b x Hx Hb0). unfold pending in *.
           rewrite (Hother b) by (discriminate).
           exact Hoth.
      * intros x Hx. change (builders w1 !! 0 = Some x) in Hx. rewrite Hp1 in Hx.
        injection Hx as <-. simpl. rewrite count_finish_app.
        rewrite (Hcnt xp Hp). simpl in Hr0 |- *.
        assert (E : Z.eqb (remaining xp) 0 = false) by (apply Z.eqb_neq; lia).
        rewrite E. unfold count_finish in *. simpl. rewrite Hl1, Hr0. reflexivity.
      * intros b Hb. simpl in Hb. apply in_app_iff in Hb as [Hb|[Hb|Hb]].
        -- exact (Hfin b Hb).
        -- injection Hb as <-. reflexivity.
        -- destruct (Hl2 b Hb).
  - assert (Hinv1 : inv w1).
    { assert (Hsame : forall b, open_children w1 b = open_children w b).
      { intros b. apply (open_children_upd_same w p (set_remaining r) xp b Hp eq_refl). simpl.
        rewrite (proj2 (Z.eqb_neq _ _) Hr0). symmetry. apply Z.eqb_neq. lia. }
      split; [exact Hids1|]. split; [|split].
      - intros b x Hx. unfold pending. rewrite Hsame. destruct (decide (b = p)) as [->|Hbp].
        + rewrite Hp1 in Hx. injection Hx as <-. unfold pending in Hpend. simpl. lia.
        + rewrite Hb1 in Hx by exact Hbp. exact (Hoth b x Hx Hbp).
      - intros x Hx. destruct (decide (p = 0)) as [->|Hp0].
        + rewrite Hp1 in Hx. injection Hx as <-. simpl. rewrite (Hcnt xp Hp).
          rewrite (proj2 (Z.eqb_neq _ _) Hr0). apply Z.eqb_neq in Hr0.
          assert (E : Z.eqb (remaining xp) 0 = false) by (apply Z.eqb_neq; lia).
          rewrite E. reflexivity.
        + rewrite Hb1 in Hx by congruence. exact (Hcnt x Hx).
      - exact Hfin. }
    destruct (Z.eqb (r - lastCount xp) 0); [|exact Hinv1].
    exact (emitLast_inv w1 p Hinv1).
Qed.

(** After logging and clearing [___parent], [end()] is the body of
    [___handleChildDone] on its own builder. *)
Lemma end_as_hcd (w : world) (b : nat) (x : builder) :
  builders w !! b = Some x ->
  end_ w b = handleChildDone (S (next_builder w))
               (upd_builder b (set_parent None) (add_log [EvEnd b] w)) b.
Proof.
  intros Hb. unfold end_. rewrite Hb. cbn [handleChildDone].
  assert (E : builders (upd_builder b (set_parent None) (add_log [EvEnd b] w)) !! b =
              Some (set_parent None x)) by (simpl; rewrite lookup_alter_eq, Hb; reflexivity).
  rewrite E. reflexivity.
Qed.

Lemma end_inv (w : world) (b : nat) :
  inv w -> is_open w b = true -> inv (fst (end_ w b)).
Proof.
  intros [Hids [Hpend [Hcnt Hfin]]] Ho. unfold is_open in Ho.
  destruct (builders w !! b) as [x|] eqn:Hb; [|discriminate].
  destruct (parent x) as [pa|] eqn:Hpa; [|discriminate].
  rewrite (end_as_hcd w b x Hb).
  set (w1 := add_log [EvEnd b] w).
  set (w2 := upd_builder b (set_parent None) w1).
  assert (Hb1 : builders w1 !! b = Some x) by exact Hb.
  assert (Hids1 : ids_ok w1) by exact Hids.
  assert (Hsame : forall c, open_children w2 c = open_children w c)
    by (intros c; exact (open_children_upd_same w1 b (set_parent None) x c Hb1 eq_refl eq_refl)).
  assert (Hb2 : forall c, c <> b -> builders w2 !! c = builders w !! c)
    by (intros c Hc; simpl; rewrite lookup_alter_ne by congruence; reflexivity).
  apply (hcd_inv _ w2 b (set_parent None x)); [|pose proof (ids_ok_lt w b x Hids Hb); lia].
  split; [exact (ids_ok_upd w1 b (set_parent None) x Hb1 eq_refl Hids1)|].
  split; [simpl; rewrite lookup_alter_eq, Hb; reflexivity|].
  split; [|split; [|split]].
  - specialize (Hpend b x Hb). unfold pending in *. rewrite Hsame, Hpa in *. simpl. lia.
  - intros c y Hy Hc. rewrite Hb2 in Hy by exact Hc. specialize (Hpend c y Hy).
    unfold pending in *. rewrite Hsame. exact Hpend.
  - intros y Hy. simpl. rewrite count_finish_app. destruct (decide (b = 0)) as [->|Hb0].
    + simpl in Hy. rewrite lookup_alter_eq, Hb in Hy. injection Hy as <-.
      rewrite (Hcnt x Hb). unfold count_finish. simpl. lia.
    + rewrite Hb2 in Hy by congruence. rewrite (Hcnt y Hy). unfold count_finish. simpl. lia.
  - intros c Hc. simpl in Hc. apply in_app_iff in Hc as [Hc|[Hc|[]]]; [exact (Hfin c Hc)|discriminate].
Qed.

Lemma error_inv (w : world) (b : nat) (e : value) :
  inv w -> is_open w b = true -> inv (fst (error w b e)).
Proof.
  intros Hinv Ho. unfold error, try_finally.
  destruct (emit (events w) "error" e) as [l t] eqn:He.
  pose proof (emit_log (events w) "error" e) as [Hl1 Hl2]. rewrite He in Hl1, Hl2.
  assert (Hinv1 : inv (add_log l w)) by (apply inv_add_log; assumption).
  assert (Ho1 : is_open (add_log l w) b = true) by exact Ho.
  pose proof (end_inv (add_log l w) b Hinv1 Ho1) as H.
  destruct (end_ (add_log l w) b) as [w2 t2]. destruct t2; exact H.
Qed.

Lemma inv_extra_inv (w : world) (p : nat) (xp : builder) : inv_extra w p xp -> inv w.
Proof.
  intros [Hids [Hp [Hpend [Hoth [Hcnt Hfin]]]]]. split; [exact Hids|]. split; [|split; assumption].
  intros b x Hx. destruct (decide (b = p)) as [->|Hb]; [|exact (Hoth b x Hx Hb)].
  rewrite Hp in Hx. injection Hx as <-. lia.
Qed.

(** Updates of a builder that leave its parent, its [___parent] and its
    count alone keep the invariant. *)
Lemma inv_upd_neutral (w : world) (k : nat) (f : builder -> builder) (x : builder) :
  builders w !! k = Some x -> parentOut (f x) = parentOut x -> parent (f x) = parent x ->
  remaining (f x) = remaining x -> inv w -> inv (upd_builder k f w).
Proof.
  intros Hk Hpo Hpa Hr [Hids [Hpend [Hcnt Hfin]]].
  assert (Hsame : forall c, open_children (upd_builder k f w) c = open_children w c)
    by (intros c; apply (open_children_upd_same w k f x c Hk Hpo); rewrite Hr; reflexivity).
  split; [exact (ids_ok_upd w k f x Hk Hpo Hids)|]. split; [|split].
  - intros b y Hy. unfold pending. rewrite Hsame. simpl in Hy.
    destruct (decide (b = k)) as [->|Hb].
    + rewrite lookup_alter_eq, Hk in Hy. injection Hy as <-. rewrite Hpa, Hr.
      exact (Hpend k x Hk).
    + rewrite lookup_alter_ne in Hy by congruence. exact (Hpend b y Hy).
  - intros y Hy. simpl in Hy |- *. destruct (decide (k = 0)) as [->|Hk0].
    + rewrite lookup_alter_eq, Hk in Hy. injection Hy as <-. rewrite Hr. exact (Hcnt x Hk).
    + rewrite lookup_alter_ne in Hy by congruence. exact (Hcnt y Hy).
  - exact Hfin.
Qed.

(** [this.___remaining++] on a builder whose count is not zero: the
    builder counts one unit more than the invariant requires. *)
Lemma incr_extra (w : world) (b : nat) (x : builder) :
  inv w -> builders w !! b = Some x -> remaining x <> 0%Z ->
  inv_extra (upd_builder b (fun y => set_remaining (remaining y + 1) y) w) b
            (set_remaining (remaining x + 1) x).
Proof.
  intros [Hids [Hpend [Hcnt Hfin]]] Hb Hr.
  assert (Hpos := Hpend b x Hb). assert (Hnn := pending_nonneg w b x).
  assert (Hsame : forall c,
            open_children (upd_builder b (fun y => set_remaining (remaining y + 1) y) w) c =
            open_children w c).
  { intros c. apply (open_children_upd_same w b (fun y => set_remaining (remaining y + 1) y) x c Hb eq_refl). simpl.
    rewrite (proj2 (Z.eqb_neq _ _) Hr). apply Z.eqb_neq. lia. }
  split; [exact (ids_ok_upd w b (fun y => set_remaining (remaining y + 1) y) x Hb eq_refl Hids)|].
  split; [simpl; rewrite lookup_alter_eq, Hb; reflexivity|].
  split; [|split; [|split]].
  - unfold pending in *. rewrite Hsame. simpl. lia.
  - intros c y Hy Hc. simpl in Hy. rewrite lookup_alter_ne in Hy by congruence.
    unfold pending. rewrite Hsame. exact (Hpend c y Hy).
  - intros y Hy. simpl in Hy |- *. destruct (decide (b = 0)) as [->|Hb0].
    + rewrite lookup_alter_eq, Hb in Hy. injection Hy as <-. rewrite (Hcnt x Hb). simpl.
      rewrite (proj2 (Z.eqb_neq _ _) Hr). rewrite (proj2 (Z.eqb_neq (remaining x + 1) 0)) by lia.
      reflexivity.
    + rewrite lookup_alter_ne in Hy by congruence. exact (Hcnt y Hy).
  - exact Hfin.
Qed.

Lemma open_children_new (w w' : world) (y : builder) (c : nat) :
  builders w' = <[next_builder w := y]> (builders w) -> next_builder w' = S (next_builder w) ->
  open_children w' c =
    open_children w c + (if bool_decide (parentOut y = Some c) && negb (Z.eqb (remaining y) 0)
                         then 1 else 0).
Proof.
  intros Hbs Hnb. unfold open_children. rewrite Hnb, seq_S, List.filter_app, length_app.
  f_equal.
  - apply filter_length_ext. intros c' Hc'. apply in_seq in Hc'. unfold child_open.
    rewrite Hbs, lookup_insert_ne by lia. reflexivity.
  - simpl. unfold child_open. rewrite Hbs, lookup_insert_eq.
    destruct (bool_decide (parentOut y = Some c) && negb (Z.eqb (remaining y) 0)); reflexivity.
Qed.

(** The new child builder of [beginAsync] restores the invariant. *)
Lemma new_child_inv (w : world) (b : nat) (x : builder) (d : nat) fin ev h nn :
  inv_extra w b x ->
  inv (mkWorld (<[next_builder w := mkBuilder 1 0 (Some b) (Some d) false None]> (builders w))
         fin ev h (S (next_builder w)) nn (log w)).
Proof.
  intros Hext.
  destruct Hext as [Hids [Hb [Hpend [Hoth [Hcnt Hfin]]]]].
  set (y := mkBuilder 1 0 (Some b) (Some d) false None).
  set (w' := mkWorld (<[next_builder w := y]> (builders w)) fin ev h (S (next_builder w)) nn (log w)).
  assert (Hblt := ids_ok_lt w b x Hids Hb).
  assert (Hfresh := open_children_fresh w (next_builder w) Hids (le_n _)).
  destruct Hids as [Hdom [[r [Hr Hrp]] Hpar]].
  assert (H0 : 0 < next_builder w) by (apply Hdom; eexists; exact Hr).
  assert (Hoc : forall c, open_children w' c =
                  open_children w c + (if bool_decide (Some b = Some c) then 1 else 0)).
  { intros c. rewrite (open_children_new w w' y c eq_refl eq_refl). simpl.
    destruct (bool_decide (Some b = Some c)); reflexivity. }
  split; [split; [|split]|split; [|split]].
  - intros c. simpl. destruct (decide (c = next_builder w)) as [->|Hc].
    + rewrite lookup_insert_eq. split; [intros _; eexists; reflexivity|lia].
    + rewrite lookup_insert_ne by congruence. rewrite <- Hdom. lia.
  - exists r. simpl. rewrite lookup_insert_ne by lia. split; assumption.
  - intros c z Hz Hc0. simpl in Hz. destruct (decide (c = next_builder w)) as [->|Hc].
    + rewrite lookup_insert_eq in Hz. injection Hz as <-. exists b. split; [reflexivity|exact Hblt].
    + rewrite lookup_insert_ne in Hz by congruence. exact (Hpar c z Hz Hc0).
  - intros c z Hz. unfold pending. rewrite Hoc. simpl in Hz.
    destruct (decide (c = next_builder w)) as [->|Hc].
    + rewrite lookup_insert_eq in Hz. injection Hz as <-.
      rewrite Hfresh.
      rewrite bool_decide_eq_false_2 by (intros E; injection E; lia). simpl. lia.
    + rewrite lookup_insert_ne in Hz by congruence.
      destruct (decide (c = b)) as [->|Hcb].
      * rewrite Hb in Hz. injection Hz as <-. rewrite bool_decide_eq_true_2 by reflexivity.
        unfold pending in Hpend. lia.
      * rewrite bool_decide_eq_false_2 by congruence. rewrite Nat.add_0_r.
        exact (Hoth c z Hz Hcb).
  - intros z Hz. simpl in Hz. rewrite lookup_insert_ne in Hz by lia. exact (Hcnt z Hz).
  - exact Hfin.
Qed.

Lemma beginAsync_inv (w : world) (b : nat) (last : bool) :
  inv w -> is_open w b = true -> inv (fst (beginAsync w b last)).
Proof.
  intros Hinv Ho. unfold is_open in Ho.
  destruct (builders w !! b) as [x|] eqn:Hb; [|discriminate].
  destruct (parent x) as [pa|] eqn:Hpa; [|discriminate].
  assert (Hr : remaining x <> 0%Z).
  { destruct Hinv as [_ [Hpend _]]. specialize (Hpend b x Hb). unfold pending in Hpend.
    rewrite Hpa in Hpend. lia. }
  unfold beginAsync. rewrite Hb. destruct (sync x); [exact Hinv|].
  set (w1 := if last then upd_builder b (set_lastCount (lastCount x + 1)) w else w).
  assert (H1 : inv w1 /\ exists x1, builders w1 !! b = Some x1 /\ remaining x1 = remaining x).
  { unfold w1. destruct last.
    - split; [apply (inv_upd_neutral w b _ x Hb); [reflexivity..|exact Hinv]|].
      eexists. split; [simpl; rewrite lookup_alter_eq, Hb; reflexivity|reflexivity].
    - split; [exact Hinv|]. exists x. split; [exact Hb|reflexivity]. }
  destruct H1 as [Hinv1 [x1 [Hb1 Hr1]]].
  assert (Hext := incr_extra w1 b x1 Hinv1 Hb1 ltac:(congruence)).
  rewrite Hpa.
  set (w2 := upd_builder b (fun y => set_remaining (remaining y + 1) y) w1).
  fold w2 in Hext.
  destruct (appendChild (<[next_node w2 := new_vnode KDocumentFragment 0]> (vheap w2)) pa
              (next_node w2)) as [h' [e|]].
  - exact (inv_extra_inv _ _ _ Hext).
  - pose proof (new_child_inv w2 b _ (next_node w2) (finished w2) (events w2) h'
                  (S (next_node w2)) Hext) as Hnew.
    match goal with
    | |- context [emit ?ev "beginAsync" ?a] =>
        destruct (emit ev "beginAsync" a) as [l t] eqn:He;
        pose proof (emit_log ev "beginAsync" a) as [Hl1 Hl2]; rewrite He in Hl1, Hl2
    end.
    assert (Hfin := inv_add_log _ l Hnew Hl1 Hl2).
    destruct t; exact Hfin.
Qed.

Lemma step_inv (w : world) (o : op) :
  inv w -> is_open w (op_builder o) = true -> inv (step w o).
Proof.
  intros Hinv Ho. destruct o as [b last|b|b e|b cb]; simpl in Ho |- *.
  - exact (beginAsync_inv w b last Hinv Ho).
  - exact (end_inv w b Hinv Ho).
  - exact (error_inv w b e Hinv Ho).
  - unfold is_open in Ho. destruct (builders w !! b) as [x|] eqn:Hb; [|discriminate].
    unfold onLast. apply (inv_upd_neutral w b _ x Hb); [reflexivity..|exact Hinv].
Qed.

Lemma run_inv (os : list op) : forall w, inv w -> protocol_ok w os = true -> inv (run w os).
Proof.
  induction os as [|o os IH]; intros w Hinv Hp; [exact Hinv|].
  simpl in Hp. apply andb_prop in Hp as [Ho Hp]. simpl. apply IH; [|exact Hp].
  exact (step_inv w o Hinv Ho).
Qed.

Lemma w0_inv : inv w0.
Proof.
  split; [split; [|split]|split; [|split]].
  - intros b. unfold w0. simpl. split.
    + intros Hb. assert (b = 0) as -> by lia. eexists. reflexivity.
    + intros [y Hy]. destruct (decide (b = 0)) as [->|Hb]; [lia|].
      rewrite lookup_singleton_ne in Hy by congruence. discriminate.
  - eexists. split; reflexivity.
  - intros b y Hy Hb. unfold w0 in Hy. simpl in Hy.
    rewrite lookup_singleton_ne in Hy by congruence. discriminate.
  - intros b y Hy. unfold w0 in Hy. simpl in Hy. destruct (decide (b = 0)) as [->|Hb].
    + rewrite lookup_singleton_eq in Hy. injection Hy as <-. reflexivity.
    + rewrite lookup_singleton_ne in Hy by congruence. discriminate.
  - intros y Hy. unfold w0 in Hy. simpl in Hy. rewrite lookup_singleton_eq in Hy.
    injection Hy as <-. reflexivity.
  - intros b [].
Qed.

(** Once the root's count is zero, every builder has ended and has a zero
    count. *)
Lemma root_zero_all_done (w : world) :
  inv w -> (exists x, builders w !! 0 = Some x /\ remaining x = 0%Z) ->
  forall b x, builders w !! b = Some x -> remaining x = 0%Z /\ parent x = None.
Proof.
  intros [Hids [Hpend [Hcnt Hfin]]] [r [Hr Hr0]] b.
  induction b as [b IH] using (well_founded_induction lt_wf). intros x Hx.
  assert (Hzero : remaining x = 0%Z).
  { destruct (decide (b = 0)) as [->|Hb0]; [congruence|].
    destruct Hids as [Hdom [Hroot Hpar]].
    destruct (Hpar b x Hx Hb0) as [p [Hp Hlt]].
    assert (Hxp : is_Some (builders w !! p)) by (apply Hdom; assert (b < next_builder w) by (apply Hdom; eexists; exact Hx); lia).
    destruct Hxp as [xp Hxp].
    destruct (IH p Hlt xp Hxp) as [Hp0 _].
    specialize (Hpend p xp Hxp). unfold pending in Hpend. rewrite Hp0 in Hpend.
    assert (Hoc : open_children w p = 0) by (destruct (parent xp); lia).
    unfold open_children in Hoc.
    pose proof (filter_length_zero _ _ b Hoc) as Hc.
    rewrite (child_open_at w p b x Hx), Hp, bool_decide_eq_true_2 in Hc by reflexivity.
    destruct (Z.eqb_spec (remaining x) 0) as [E|E]; [exact E|].
    exfalso. assert (Hin : In b (seq 0 (next_builder w)))
      by (apply in_seq; split; [lia|apply Hdom; eexists; exact Hx]).
    specialize (Hc Hin). discriminate. }
  split; [exact Hzero|].
  specialize (Hpend b x Hx). unfold pending in Hpend. rewrite Hzero in Hpend.
  destruct (parent x); [lia|reflexivity].
Qed.

(** Claim C7: in every run of a render whose [beginAsync], [end] and
    [error] calls are made on builders that have not ended yet, in any
    order, the "finish" event is emitted at most once; it has been
    emitted exactly when the root builder's count is zero; only the root
    builder emits it; and once it has been emitted every builder has
    ended with a zero count, so no async branch is still open. *)
Theorem builder_finish_gating (os : list op) :
  protocol_ok w0 os = true ->
  count_finish (log (run w0 os)) <= 1 /\
  (count_finish (log (run w0 os)) = 1 <->
     exists x, builders (run w0 os) !! 0 = Some x /\ remaining x = 0%Z) /\
  (forall b, In (EvFinish b) (log (run w0 os)) -> b = 0) /\
  (count_finish (log (run w0 os)) = 1 ->
     forall b x, builders (run w0 os) !! b = Some x -> remaining x = 0%Z /\ parent x = None).
Proof.
  intros Hp. pose proof (run_inv os w0 w0_inv Hp) as Hinv.
  assert (Hinv' := Hinv). destruct Hinv' as [[Hdom [[r [Hr _]] _]] [_ [Hcnt Hfin]]].
  specialize (Hcnt r Hr).
  assert (Hiff : count_finish (log (run w0 os)) = 1 <->
                 exists x, builders (run w0 os) !! 0 = Some x /\ remaining x = 0%Z).
  { split.
    - intros H1. exists r. split; [exact Hr|]. rewrite H1 in Hcnt.
      destruct (Z.eqb_spec (remaining r) 0); [assumption|discriminate].
    - intros [x [Hx Hx0]]. rewrite Hr in Hx. injection Hx as <-. rewrite Hcnt, Hx0. reflexivity. }
  split; [rewrite Hcnt; destruct (Z.eqb (remaining r) 0); lia|].
  split; [exact Hiff|]. split; [exact Hfin|].
  intros H1. apply (root_zero_all_done _ Hinv). apply Hiff. exact H1.
Qed.

(** An instance of claim C7: the run [ops_two_branches] follows the
    protocol and emits "finish" once, at its last step. *)
Lemma builder_finish_gating_witness :
  protocol_ok w0 ops_two_branches = true /\
  count_finish (log (run w0 ops_two_branches)) <= 1 /\
  count_finish (log (run w0 (removelast ops_two_branches))) = 0 /\
  count_finish (log (run w0 ops_two_branches)) = 1.
Proof.
  split; [vm_compute; reflexivity|]. split.
  - exact (proj1 (builder_finish_gating ops_two_branches ltac:(vm_compute; reflexivity))).
  - split; vm_compute; reflexivity.
Defined.








(** Claim C10: [beginAsync] on a builder in sync mode throws the error
    "Sync mode ..." and changes nothing; every client-side re-render calls
    the renderer with a fresh builder in sync mode, so a [beginAsync] on
    that builder throws. *)
Theorem beginAsync_sync_rerender :
  (forall w b x last, builders w !! b = Some x -> sync x = true ->
     beginAsync w b last = (w, inr (ThrowNewError sync_msg None))) /\
  (forall renderer, rerender renderer = renderer (sync_out w0 0) 0) /\
  (forall last, beginAsync (sync_out w0 0) 0 last =
                (sync_out w0 0, inr (ThrowNewError sync_msg None))).
Proof.
  split; [|split].
  - intros w b x last Hb Hs. unfold beginAsync. rewrite Hb, Hs. reflexivity.
  - intros renderer. reflexivity.
  - intros last. reflexivity.
Qed.

Lemma beginAsync_sync_rerender_witness :
  beginAsync (sync_out w0 0) 0 false = (sync_out w0 0, inr (ThrowNewError sync_msg None)).
Proof.
  destruct beginAsync_sync_rerender as [H _].
  apply (H (sync_out w0 0) 0 (mkBuilder 1 0 None (Some 0) true None) false); reflexivity.
Defined.

End AsyncBuilderFacts.

Module MorphSync.
Import Morph MorphData.


























Section Pass.
Variable f : nat.








End Pass.




















End MorphSync.

(* ===================================================================== *)
(** ** Properties of the event emitter *)
(* ===================================================================== *)

Module EventsFacts.
Import AsyncBuilder Events.

Lemma fref_eqb_refl (f : fref) : fref_eqb f f = true.
Proof. destruct f; simpl; [apply Nat.eqb_refl|apply Nat.eqb_refl|apply String.eqb_refl]. Qed.

Lemma proto_neq (t : string) : t <> "__proto__" -> String.eqb t "__proto__" = false.
Proof. intros H. apply String.eqb_neq. exact H. Qed.

Lemma not_proto_neq (t : string) : ~ In t JSObj.proto_names -> t <> "__proto__".
Proof. intros H E. subst t. apply H. cbv. tauto. Qed.

(** [$e[type]] for an own property. *)
Lemma get_slot_some (e : ee) (t : string) (en : entry) :
  t <> "__proto__" -> evs e !! t = Some en -> get_slot e t = Some (SEntry en).
Proof. intros Hp E. unfold get_slot. rewrite (proto_neq t Hp), E. reflexivity. Qed.

(** [$e[type]] is [undefined] for a name [$e] neither has nor inherits. *)
Lemma get_slot_none (e : ee) (t : string) :
  ~ In t JSObj.proto_names -> evs e !! t = None -> get_slot e t = None.
Proof.
  intros Hp E. unfold get_slot. rewrite (proto_neq t (not_proto_neq t Hp)), E.
  rewrite (ComponentUpdateFacts.not_in_existsb t _ Hp). reflexivity.
Qed.

Lemma get_slot_insert (e : ee) (t : string) (en : entry) (m : gmap string entry) :
  t <> "__proto__" -> get_slot (with_evs (<[t := en]> m) e) t = Some (SEntry en).
Proof. intros Hp. apply get_slot_some; [exact Hp|apply lookup_insert_eq]. Qed.

Lemma get_slot_mkEE (e : ee) (w : gmap nat (option nat)) (n : nat) (t : string) :
  get_slot (mkEE (evs e) w n) t = get_slot e t.
Proof. reflexivity. Qed.

Lemma invoke_each_users (t : string) (e : ee) (ids : list nat) :
  invoke_each t e (map UserFn ids) = (e, ids, None).
Proof. induction ids as [|i ids IH]; [reflexivity|]. simpl. rewrite IH. reflexivity. Qed.

Lemma invoke_each_users_app (t : string) (e : ee) (ids : list nat) (b : list fref) :
  invoke_each t e (app (map UserFn ids) b) =
  let '(e2, c2, t2) := invoke_each t e b in (e2, app ids c2, t2).
Proof.
  induction ids as [|i ids IH]; simpl.
  - destruct (invoke_each t e b) as [[e2 c2] t2]. reflexivity.
  - rewrite IH. destruct (invoke_each t e b) as [[e2 c2] t2]. reflexivity.
Qed.

Lemma filter_users_wrapper (g : nat) (ids : list nat) :
  List.filter (fun x => negb (fref_eqb x (Wrapper g))) (map UserFn ids) = map UserFn ids.
Proof. induction ids as [|i ids IH]; [reflexivity|]. simpl. rewrite IH. reflexivity. Qed.

Lemma filter_users_user (l : nat) (ids : list nat) :
  List.filter (fun x => negb (fref_eqb x (UserFn l))) (map UserFn ids) =
  map UserFn (List.filter (fun i => negb (Nat.eqb i l)) ids).
Proof.
  induction ids as [|i ids IH]; [reflexivity|]. simpl. rewrite IH.
  destruct (Nat.eqb i l); reflexivity.
Qed.

(** When the listeners of [type] are user functions, [$e] has no entry
    for [type] (and does not inherit one), a single one, or an array. *)
Lemma listeners_of_users_entry (e : ee) (t : string) (ids : list nat) :
  t <> "__proto__" -> listeners_of e t = map UserFn ids ->
  (~ In t JSObj.proto_names /\ evs e !! t = None /\ ids = []) \/
  (exists i, evs e !! t = Some (EOne (UserFn i)) /\ ids = [i]) \/
  evs e !! t = Some (EArr (map UserFn ids)).
Proof.
  intros Hp H. unfold listeners_of, get_slot in H. rewrite (proto_neq t Hp) in H.
  destruct (evs e !! t) as [[f|fs]|] eqn:E.
  - right; left. destruct ids as [|i [|j r]]; try discriminate. injection H as ->. eauto.
  - right; right. subst. reflexivity.
  - left. destruct (existsb (String.eqb t) JSObj.proto_names) eqn:Ex.
    + destruct ids as [|i [|j r]]; discriminate.
    + destruct ids; [|discriminate]. split; [|auto].
      intros Hin. assert (Ht : existsb (String.eqb t) JSObj.proto_names = true)
        by (apply existsb_exists; exists t; split; [exact Hin|apply String.eqb_refl]).
      congruence.
Qed.



(** [removeListener] removes every registration of the function and
    keeps the others in order; other event types are untouched. The
    event type is not a name [$e] inherits from [Object.prototype]. *)
Theorem removeListener_filters (e : ee) (t : string) (f : fref) :
  ~ In t JSObj.proto_names ->
  listeners_of (removeListener e t f) t = List.filter (fun x => negb (fref_eqb x f)) (listeners_of e t) /\
  listenerCount (removeListener e t f) t =
    Some (length (List.filter (fun x => negb (fref_eqb x f)) (listeners_of e t))) /\
  forall t', t' <> t -> evs (removeListener e t f) !! t' = evs e !! t'.
Proof.
  intros Hpr. assert (Hp := not_proto_neq t Hpr).
  unfold removeListener, listeners_of, listenerCount.
  destruct (evs e !! t) as [[l0|ls]|] eqn:E.
  - rewrite (get_slot_some e t _ Hp E).
    destruct (fref_eqb l0 f) eqn:Ef; cbn [List.filter]; rewrite Ef; cbn [negb].
    + rewrite (get_slot_none _ t Hpr) by apply lookup_delete_eq.
      split; [reflexivity|]. split; [reflexivity|].
      intros t' Ht. cbn [with_evs evs]. rewrite lookup_delete_ne by congruence. reflexivity.
    + rewrite (get_slot_some e t _ Hp E). split; [reflexivity|]. split; reflexivity.
  - rewrite (get_slot_some e t _ Hp E), get_slot_insert by exact Hp.
    split; [reflexivity|]. split; [reflexivity|].
    intros t' Ht. cbn [with_evs evs]. rewrite lookup_insert_ne by congruence. reflexivity.
  - rewrite (get_slot_none e t Hpr E). cbv iota. rewrite (get_slot_none e t Hpr E).
    split; [reflexivity|]. split; reflexivity.
Qed.

Lemma removeListener_filters_witness :
  ~ In "x" JSObj.proto_names /\
  listeners_of (removeListener (mkEE {[ "x" := EArr [UserFn 1; UserFn 2; UserFn 1] ]} ∅ 0) "x" (UserFn 1)) "x"
    = [UserFn 2].
Proof.
  assert (Hx : ~ In "x" JSObj.proto_names) by (cbv; intuition discriminate).
  split; [exact Hx|].
  destruct (removeListener_filters (mkEE {[ "x" := EArr [UserFn 1; UserFn 2; UserFn 1] ]} ∅ 0) "x" (UserFn 1) Hx)
    as [H _].
  rewrite H. reflexivity.
Defined.

(** The JavaScript error [emit("error", x)] throws with no listener. *)
Definition unhandled (x : value) : thrown :=
  match x with
  | VErrorObj _ => ThrowValue x
  | VOther s => ThrowNewError ("Error: " ++ s) (Some x)
  end.

(** Removing the only "error" listener deletes the entry, so [emit]
    throws again; removing both of two listeners leaves an empty array,
    which is truthy: [emit("error", x)] then calls nothing, does not
    throw, and returns [true], although [listenerCount] is 0. *)
Theorem error_listener_removal (e : ee) (f g : fref) (x : value) :
  evs e !! "error" = None ->
  exists ef efg, on e "error" f = Some ef /\ on ef "error" g = Some efg /\
  let e1 := removeListener ef "error" f in
  let e2 := removeListener (removeListener efg "error" f) "error" g in
  emit e1 "error" x = (e1, [], Threw (unhandled x)) /\
  emit e2 "error" x = (e2, [], Returned true) /\ listenerCount e2 "error" = Some 0.
Proof.
  intros E.
  assert (Hpr : ~ In "error" JSObj.proto_names) by (cbv; intuition discriminate).
  assert (Hp : "error" <> "__proto__") by discriminate.
  set (ef := with_evs (<["error" := EOne f]> (evs e)) e).
  set (efg := with_evs (<["error" := EArr [f; g]]> (evs ef)) ef).
  exists ef, efg.
  split; [unfold on, addListener; rewrite (get_slot_none e _ Hpr E); reflexivity|].
  split; [unfold on, addListener, ef; rewrite get_slot_insert by exact Hp; reflexivity|].
  cbv zeta.
  assert (A5 : get_slot (removeListener ef "error" f) "error" = None).
  { unfold removeListener, ef. rewrite get_slot_insert by exact Hp. rewrite fref_eqb_refl.
    apply get_slot_none; [exact Hpr|apply lookup_delete_eq]. }
  assert (B1 : removeListener efg "error" f =
    with_evs (<["error" := EArr (List.filter (fun y => negb (fref_eqb y f)) [f; g])]> (evs efg)) efg)
    by (unfold removeListener, efg; rewrite get_slot_insert by exact Hp; reflexivity).
  assert (A4 : get_slot (removeListener (removeListener efg "error" f) "error" g) "error" = Some (SEntry (EArr []))).
  { rewrite B1. unfold removeListener. rewrite !get_slot_insert by exact Hp.
    cbn [List.filter]. rewrite fref_eqb_refl. cbn [negb].
    destruct (fref_eqb g f); cbn [negb List.filter]; rewrite ?fref_eqb_refl; reflexivity. }
  split; [|split].
  - unfold emit. rewrite A5. destruct x; reflexivity.
  - unfold emit. rewrite A4. reflexivity.
  - unfold listenerCount. rewrite A4. reflexivity.
Qed.

Lemma error_listener_removal_witness :
  exists ef efg, on new_EventEmitter "error" (UserFn 1) = Some ef /\ on ef "error" (UserFn 2) = Some efg /\
  emit (removeListener ef "error" (UserFn 1)) "error" (VOther "x")
    = (removeListener ef "error" (UserFn 1), [], Threw (ThrowNewError "Error: x" (Some (VOther "x")))) /\
  emit (removeListener (removeListener efg "error" (UserFn 1)) "error" (UserFn 2)) "error" (VOther "x")
    = (removeListener (removeListener efg "error" (UserFn 1)) "error" (UserFn 2), [], Returned true).
Proof.
  destruct (error_listener_removal new_EventEmitter (UserFn 1) (UserFn 2) (VOther "x") eq_refl)
    as (ef & efg & H1 & H2 & H3 & H4 & _).
  exists ef, efg. split; [exact H1|]. split; [exact H2|]. split; [exact H3|exact H4].
Defined.



(** [removeListener(type, fn)] does not cancel [once(type, fn)]: the
    array holds the wrapper, not [fn]. Only the registrations of [fn]
    made with [on] go; [emit] still calls [fn] through the wrapper. The
    event type is not "__proto__" (for which [once] throws). *)
Theorem removeListener_keeps_once (e : ee) (t : string) (l : nat) (ids : list nat) (x : value) :
  t <> "__proto__" -> listeners_of e t = map UserFn ids ->
  exists e1, once e t l = Some e1 /\
  listeners_of (removeListener e1 t (UserFn l)) t =
    app (map UserFn (List.filter (fun i => negb (Nat.eqb i l)) ids)) [Wrapper (next_wrap e)] /\
  snd (fst (emit (removeListener e1 t (UserFn l)) t x)) =
    app (List.filter (fun i => negb (Nat.eqb i l)) ids) [l].
Proof.
  intros Hp H. unfold once, on, addListener. cbv zeta. rewrite get_slot_mkEE.
  destruct (listeners_of_users_entry e t ids Hp H) as [[Hpr [E ->]]|[[i [E ->]]|E]].
  - rewrite (get_slot_none _ t Hpr E). eexists. split; [reflexivity|].
    unfold removeListener at 1 2. rewrite get_slot_insert by exact Hp. cbn [fref_eqb].
    unfold listeners_of, emit. rewrite get_slot_insert by exact Hp. split; [reflexivity|].
    unfold invoke, removeListener. rewrite get_slot_insert by exact Hp. rewrite fref_eqb_refl.
    cbn [with_evs wraps evs next_wrap]. rewrite lookup_insert_eq. reflexivity.
  - rewrite (get_slot_some _ t _ Hp E). eexists. split; [reflexivity|].
    unfold removeListener at 1 2. rewrite get_slot_insert by exact Hp.
    cbn [List.filter fref_eqb negb].
    unfold listeners_of, emit. rewrite !get_slot_insert by exact Hp.
    destruct (Nat.eqb i l) eqn:Ei; cbn [negb List.filter].
    + split; [reflexivity|]. cbn [invoke_each invoke]. unfold removeListener.
      rewrite get_slot_insert by exact Hp. cbn [List.filter fref_eqb]. rewrite Nat.eqb_refl.
      cbn [negb with_evs wraps evs next_wrap]. rewrite lookup_insert_eq. reflexivity.
    + split; [reflexivity|]. cbn [invoke_each invoke]. unfold removeListener.
      rewrite get_slot_insert by exact Hp. cbn [List.filter fref_eqb]. rewrite Nat.eqb_refl.
      cbn [negb List.filter with_evs wraps evs next_wrap]. rewrite lookup_insert_eq. reflexivity.
  - rewrite (get_slot_some _ t _ Hp E). eexists. split; [reflexivity|].
    unfold removeListener at 1 2. rewrite get_slot_insert by exact Hp.
    unfold listeners_of, emit. rewrite !get_slot_insert by exact Hp.
    rewrite List.filter_app, filter_users_user. cbn [List.filter fref_eqb negb].
    split; [reflexivity|].
    rewrite invoke_each_users_app. cbn [invoke_each invoke]. unfold removeListener.
    rewrite get_slot_insert by exact Hp. rewrite List.filter_app, filter_users_wrapper.
    cbn [List.filter fref_eqb]. rewrite Nat.eqb_refl. cbn [negb List.filter with_evs wraps evs next_wrap].
    rewrite lookup_insert_eq. reflexivity.
Qed.

Lemma removeListener_keeps_once_witness :
  exists e1, once (mkEE {[ "x" := EOne (UserFn 7) ]} ∅ 0) "x" 7 = Some e1 /\
    listeners_of (removeListener e1 "x" (UserFn 7)) "x" = [Wrapper 0] /\
    snd (fst (emit (removeListener e1 "x" (UserFn 7)) "x" (VOther "a"))) = [7].
Proof.
  apply (removeListener_keeps_once (mkEE {[ "x" := EOne (UserFn 7) ]} ∅ 0) "x" 7 [7] (VOther "a"));
    [discriminate|reflexivity].
Defined.

(** The members [$e] inherits: [on] and [once] throw for "__proto__",
    where [emit] calls nothing and returns [true] and [listenerCount] is
    [undefined]; a fresh emitter has one listener for "constructor", the
    [Object] function, which [emit] calls before a listener added with
    [on]. *)
Lemma inherited_listeners :
  on new_EventEmitter "__proto__" (UserFn 1) = None /\ once new_EventEmitter "__proto__" 1 = None /\
  emit new_EventEmitter "__proto__" (VOther "a") = (new_EventEmitter, [], Returned true) /\
  listenerCount new_EventEmitter "__proto__" = None /\
  listenerCount new_EventEmitter "constructor" = Some 1 /\
  (exists e1, on new_EventEmitter "constructor" (UserFn 1) = Some e1 /\
     listeners_of e1 "constructor" = [Builtin "constructor"; UserFn 1] /\
     emit e1 "constructor" (VOther "a") = (e1, [1], Returned true)).
Proof.
  split; [reflexivity|]. split; [reflexivity|]. split; [reflexivity|].
  split; [reflexivity|]. split; [reflexivity|].
  eexists. split; [reflexivity|]. split; reflexivity.
Qed.
End EventsFacts.

(* ===================================================================== *)
(** ** Properties of component state tracking *)
(* ===================================================================== *)

Module StateTrackFacts.
Import ComponentUpdate StateTrack.

Lemma obj_get_put_eq (o : sobj) (k : string) (v : sval) : obj_get (obj_put o k v) k = Some v.
Proof.
  unfold obj_get. induction o as [|[k' v'] rest IH]; simpl.
  - rewrite String.eqb_refl. reflexivity.
  - destruct (String.eqb k' k) eqn:E; simpl.
    + rewrite String.eqb_refl. reflexivity.
    + rewrite E. exact IH.
Qed.

Lemma obj_get_put_ne (o : sobj) (k k' : string) (v : sval) :
  k' <> k -> obj_get (obj_put o k v) k' = obj_get o k'.
Proof.
  intros Hne. unfold obj_get. induction o as [|[k0 v0] rest IH]; simpl.
  - destruct (String.eqb k k') eqn:E; [apply String.eqb_eq in E; congruence|reflexivity].
  - destruct (String.eqb k0 k) eqn:E; simpl.
    + apply String.eqb_eq in E. subst k0.
      destruct (String.eqb k k') eqn:E2; [apply String.eqb_eq in E2; congruence|reflexivity].
    + destruct (String.eqb k0 k'); [reflexivity|exact IH].
Qed.

Lemma obj_get_delete_eq (o : sobj) (k : string) : obj_get (obj_delete o k) k = None.
Proof.
  unfold obj_get, obj_delete. induction o as [|[k' v'] rest IH]; simpl; [reflexivity|].
  destruct (String.eqb k' k) eqn:E; simpl; [exact IH|]. rewrite E. exact IH.
Qed.

Lemma obj_get_delete_ne (o : sobj) (k k' : string) :
  k' <> k -> obj_get (obj_delete o k) k' = obj_get o k'.
Proof.
  intros Hne. unfold obj_get, obj_delete. induction o as [|[k0 v0] rest IH]; simpl; [reflexivity|].
  destruct (String.eqb k0 k) eqn:E; simpl.
  - apply String.eqb_eq in E. subst k0.
    destruct (String.eqb k k') eqn:E2; [apply String.eqb_eq in E2; congruence|exact IH].
  - destruct (String.eqb k0 k'); [reflexivity|exact IH].
Qed.

Lemma not_proto_not_dunder (k : string) : ~ In k JSObj.proto_names -> String.eqb k "__proto__" = false.
Proof.
  intros H. destruct (String.eqb k "__proto__") eqn:E; [|reflexivity].
  apply String.eqb_eq in E. subst k. exfalso. apply H. cbv. tauto.
Qed.

Lemma not_proto_existsb (k : string) : ~ In k JSObj.proto_names -> existsb (String.eqb k) JSObj.proto_names = false.
Proof.
  intros H. destruct (existsb (String.eqb k) JSObj.proto_names) eqn:E; [|reflexivity].
  apply existsb_exists in E. destruct E as [x [Hx Ex]]. apply String.eqb_eq in Ex. subst x. contradiction.
Qed.

(** The raw object written by [___set]. *)
Lemma tset_raw (st : tstate) (name : string) (value : sval) (f : bool) :
  raw (fst (tset st name value f)) =
    if negb f && bool_decide (obj_read (raw st) name = Some value) then raw st
    else match value with None => obj_delete (raw st) name | Some _ => obj_set (raw st) name value end.
Proof.
  unfold tset. destruct f; simpl.
  - destruct (tdirty st); reflexivity.
  - destruct (bool_decide _); simpl; [reflexivity|]. destruct (tdirty st); reflexivity.
Qed.

Lemma tset_read_eq (st : tstate) (name : string) (value : sval) (f : bool) :
  ~ In name JSObj.proto_names ->
  obj_read (raw (fst (tset st name value f))) name = Some value.
Proof.
  intros Hp. rewrite tset_raw.
  destruct (negb f && bool_decide (obj_read (raw st) name = Some value)) eqn:E.
  - apply andb_true_iff in E as [_ E]. apply bool_decide_eq_true in E. exact E.
  - unfold obj_read. destruct value as [z|].
    + unfold obj_set. rewrite (not_proto_not_dunder name Hp). rewrite obj_get_put_eq. reflexivity.
    + rewrite obj_get_delete_eq, (not_proto_existsb name Hp). reflexivity.
Qed.

Lemma tset_read_ne (st : tstate) (name k : string) (value : sval) (f : bool) :
  k <> name -> obj_read (raw (fst (tset st name value f))) k = obj_read (raw st) k.
Proof.
  intros Hne. rewrite tset_raw.
  destruct (negb f && bool_decide (obj_read (raw st) name = Some value)); [reflexivity|].
  unfold obj_read. destruct value as [z|].
  - unfold obj_set. destruct (String.eqb name "__proto__"); [reflexivity|].
    rewrite obj_get_put_ne by exact Hne. reflexivity.
  - rewrite obj_get_delete_ne by exact Hne. reflexivity.
Qed.

(** Dirty flag, snapshot and queue call of one [___set]. *)
Lemma tset_track (st : tstate) (name : string) (value : sval) (f : bool) :
  let '(st', q) := tset st name value f in
  (tdirty st = true -> tdirty st' = true /\ old st' = old st /\ q = false) /\
  (tdirty st = false -> (q = tdirty st') /\ (tdirty st' = true -> old st' = raw st) /\
     (tdirty st' = false -> raw st' = raw st)).
Proof.
  unfold tset. destruct f; simpl.
  - destruct (tdirty st) eqn:D; simpl; split; intros H; try discriminate; auto.
    repeat split; intros; try discriminate; reflexivity.
  - destruct (bool_decide _); simpl.
    + split; intros H; rewrite ?H; auto. repeat split; intros; try discriminate; reflexivity.
    + destruct (tdirty st) eqn:D; simpl; split; intros H; try discriminate; auto.
      repeat split; intros; try discriminate; reflexivity.
Qed.

Lemma tset_calls_track (calls : list (string * sval * bool)) (st : tstate) :
  let '(st', n) := tset_calls st calls in
  (tdirty st = true -> tdirty st' = true /\ old st' = old st /\ n = 0) /\
  (tdirty st = false -> n = (if tdirty st' then 1 else 0) /\ (tdirty st' = true -> old st' = raw st)).
Proof.
  revert st. induction calls as [|[[k v] f] rest IH]; intros st; simpl.
  - split; intros H; [auto|]. rewrite H. split; [reflexivity|discriminate].
  - pose proof (tset_track st k v f) as T. destruct (tset st k v f) as [st1 q] eqn:E1.
    specialize (IH st1). destruct (tset_calls st1 rest) as [st2 n] eqn:E2.
    destruct T as [T1 T2]. destruct IH as [I1 I2]. split; intros H.
    + destruct (T1 H) as [D1 [O1 ->]]. destruct (I1 D1) as [D2 [O2 ->]]. rewrite O2, O1. auto.
    + destruct (T2 H) as [Q [O R]]. destruct (tdirty st1) eqn:D1.
      * destruct (I1 eq_refl) as [D2 [O2 ->]]. subst q. rewrite D2, O2. split; [reflexivity|].
        intros _. apply O. reflexivity.
      * subst q. destruct (I2 eq_refl) as [N O2]. subst n. split; [destruct (tdirty st2); reflexivity|].
        intros D. rewrite <- (R eq_refl). apply O2. exact D.
Qed.

Lemma tset_all_read_notin (kvs : list (string * sval)) (st : tstate) (f : bool) (k : string) :
  ~ In k (map fst kvs) ->
  obj_read (raw (fst (tset_all st kvs f))) k = obj_read (raw st) k.
Proof.
  revert st. induction kvs as [|[k0 v0] rest IH]; intros st Hn; simpl; [reflexivity|].
  destruct (tset st k0 v0 f) as [st1 q] eqn:E1. destruct (tset_all st1 rest f) as [st2 n] eqn:E2.
  simpl. change st2 with (fst (st2, n)). rewrite <- E2.
  rewrite IH by (intros Hi; apply Hn; right; exact Hi).
  change st1 with (fst (st1, q)). rewrite <- E1. apply tset_read_ne.
  intros ->. apply Hn. left. reflexivity.
Qed.

Lemma tset_all_read_in (kvs : list (string * sval)) (st : tstate) (f : bool) (k : string) (v : sval) :
  ~ In k JSObj.proto_names -> In (k, v) kvs -> (forall v', In (k, v') kvs -> v' = v) ->
  obj_read (raw (fst (tset_all st kvs f))) k = Some v.
Proof.
  intros Hp. revert st. induction kvs as [|[k0 v0] rest IH]; intros st Hin Hall; [destruct Hin|].
  simpl. destruct (tset st k0 v0 f) as [st1 q] eqn:E1. destruct (tset_all st1 rest f) as [st2 n] eqn:E2.
  simpl. change st2 with (fst (st2, n)). rewrite <- E2.
  destruct (in_dec string_dec k (map fst rest)) as [Hr|Hr].
  - apply in_map_iff in Hr. destruct Hr as [[k1 v1] [Hk1 Hr]]. simpl in Hk1. subst k1.
    rewrite (Hall v1 (or_intror Hr)) in Hr. apply IH; [exact Hr|].
    intros v' Hv'. apply Hall. right. exact Hv'.
  - rewrite tset_all_read_notin by exact Hr.
    destruct Hin as [Hin|Hin].
    + injection Hin as <- <-. change st1 with (fst (st1, q)). rewrite <- E1. apply tset_read_eq. exact Hp.
    + exfalso. apply Hr. apply in_map_iff. exists (k, v). split; [reflexivity|exact Hin].
Qed.

Lemma obj_get_nodup_in (o : sobj) (k : string) (v : sval) :
  List.NoDup (map fst o) -> In (k, v) o -> obj_get o k = Some v.
Proof.
  unfold obj_get. induction o as [|[k0 v0] rest IH]; intros Hnd Hin; [destruct Hin|].
  simpl. simpl in Hnd. apply NoDup_cons_iff in Hnd. destruct Hnd as [Hn Hnd']. destruct Hin as [Hin|Hin].
  - injection Hin as <- <-. rewrite String.eqb_refl. reflexivity.
  - destruct (String.eqb k0 k) eqn:E.
    + apply String.eqb_eq in E. subst k0. exfalso. apply Hn. apply in_map_iff.
      exists (k, v). split; [reflexivity|exact Hin].
    + apply IH; assumption.
Qed.

Lemma obj_get_notin (o : sobj) (k : string) :
  ~ In k (map fst o) -> obj_get o k = None.
Proof.
  unfold obj_get. induction o as [|[k0 v0] rest IH]; intros Hn; [reflexivity|].
  simpl. destruct (String.eqb k0 k) eqn:E.
  - apply String.eqb_eq in E. subst k0. exfalso. apply Hn. left. reflexivity.
  - apply IH. intros H. apply Hn. right. exact H.
Qed.

Lemma obj_get_in (o : sobj) (k : string) :
  In k (map fst o) -> exists v, obj_get o k = Some v.
Proof.
  unfold obj_get. induction o as [|[k0 v0] rest IH]; intros Hn; [destruct Hn|].
  simpl. destruct (String.eqb k0 k) eqn:E; [eauto|].
  apply IH. destruct Hn as [Hn|Hn]; [simpl in Hn; subst k0; rewrite String.eqb_refl in E; discriminate|exact Hn].
Qed.

(** ___set then read: for a name that is not a member of
    [Object.prototype], after [___set(name, value)] (forced or not) the
    raw state reads [value] at [name] ([undefined] by deleting the
    property) and every other property reads as before. *)
Theorem tset_read (st : tstate) (name k : string) (value : sval) (f : bool) :
  ~ In name JSObj.proto_names ->
  obj_read (raw (fst (tset st name value f))) name = Some value /\
  (k <> name -> obj_read (raw (fst (tset st name value f))) k = obj_read (raw st) k).
Proof.
  intros Hp. split; [apply tset_read_eq; exact Hp|]. intros Hk. apply tset_read_ne. exact Hk.
Qed.

Lemma tset_read_witness :
  ~ In "b" JSObj.proto_names /\
  obj_read (raw (fst (tset (mkT [("a", Some 1%Z); ("b", Some 2%Z)] false [] [] None) "b" None false))) "b" = Some None /\
  ("a" <> "b" -> obj_read (raw (fst (tset (mkT [("a", Some 1%Z); ("b", Some 2%Z)] false [] [] None) "b" None false))) "a" =
     obj_read [("a", Some 1%Z); ("b", Some 2%Z)] "a").
Proof.
  assert (H : ~ In "b" JSObj.proto_names) by (cbv; intuition discriminate).
  split; [exact H|]. exact (tset_read (mkT [("a", Some 1%Z); ("b", Some 2%Z)] false [] [] None) "b" "a" None false H).
Defined.

(** Starting from a clean state, any sequence of [___set] calls, each
    forced or not, calls [___queueUpdate] at most once: exactly once if
    the state ends dirty, never otherwise; once dirty, [___old] is the
    raw object from before the first change. *)
Theorem tset_all_queues_once (st : tstate) (calls : list (string * sval * bool)) :
  tdirty st = false ->
  snd (tset_calls st calls) = (if tdirty (fst (tset_calls st calls)) then 1 else 0) /\
  (tdirty (fst (tset_calls st calls)) = true -> old (fst (tset_calls st calls)) = raw st).
Proof.
  intros H. pose proof (tset_calls_track calls st) as T.
  destruct (tset_calls st calls) as [st' n]. destruct T as [_ T]. exact (T H).
Qed.

Lemma tset_all_queues_once_witness :
  tdirty (mkT [("a", Some 1%Z)] false [] [] None) = false /\
  snd (tset_calls (mkT [("a", Some 1%Z)] false [] [] None)
         [("a", Some 1%Z, false); ("a", Some 1%Z, true); ("b", Some 3%Z, false)]) = 1.
Proof.
  split; [reflexivity|].
  destruct (tset_all_queues_once (mkT [("a", Some 1%Z)] false [] [] None)
              [("a", Some 1%Z, false); ("a", Some 1%Z, true); ("b", Some 3%Z, false)] eq_refl) as [H _].
  rewrite H. vm_compute. reflexivity.
Defined.

(** [___replace(newState)] (with the property names of [newState]
    distinct, as those of an object are): afterwards every property whose
    name is not a member of [Object.prototype] reads in the raw state as
    it reads in [newState]; the properties missing from [newState] read
    [undefined]. *)
Theorem treplace_reads (st : tstate) (newState : sobj) (k : string) :
  List.NoDup (map fst newState) -> ~ In k JSObj.proto_names ->
  obj_read (raw (fst (treplace st newState))) k = obj_read newState k.
Proof.
  intros Hnd Hp. unfold treplace.
  set (gone := List.filter (fun k => negb (obj_in newState k)) (map fst (raw st))).
  destruct (tset_all st (map (fun k => (k, None)) gone) false) as [st1 n1] eqn:E1.
  destruct (tset_all st1 newState false) as [st2 n2] eqn:E2. simpl.
  change st2 with (fst (st2, n2)). rewrite <- E2.
  destruct (in_dec string_dec k (map fst newState)) as [Hin|Hin].
  - apply in_map_iff in Hin. destruct Hin as [[k0 v] [Hk0 Hin]]. simpl in Hk0. subst k0.
    unfold obj_read at 2. rewrite (obj_get_nodup_in newState k v Hnd Hin).
    apply tset_all_read_in; [exact Hp|exact Hin|].
    intros v' Hv'. pose proof (obj_get_nodup_in newState k v' Hnd Hv') as A.
    rewrite (obj_get_nodup_in newState k v Hnd Hin) in A. congruence.
  - rewrite tset_all_read_notin by exact Hin.
    unfold obj_read at 2. rewrite (obj_get_notin newState k Hin), (not_proto_existsb k Hp).
    change st1 with (fst (st1, n1)). rewrite <- E1.
    assert (Hobj : obj_in newState k = false).
    { unfold obj_in. rewrite (obj_get_notin newState k Hin). apply not_proto_existsb. exact Hp. }
    destruct (in_dec string_dec k (map fst (raw st))) as [Hr|Hr].
    + apply tset_all_read_in; [exact Hp| |].
      * apply in_map_iff. exists k. split; [reflexivity|]. apply filter_In. rewrite Hobj. auto.
      * intros v' Hv'. apply in_map_iff in Hv'. destruct Hv' as [k' [Hk' _]]. congruence.
    + rewrite tset_all_read_notin.
      * unfold obj_read. rewrite (obj_get_notin _ k Hr), (not_proto_existsb k Hp). reflexivity.
      * intros Hg. apply Hr. rewrite map_map in Hg. simpl in Hg. rewrite map_id in Hg.
        apply filter_In in Hg. apply Hg.
Qed.

Lemma treplace_reads_witness :
  List.NoDup (map fst [("b", Some 5%Z); ("c", None)]) /\ ~ In "a" JSObj.proto_names /\
  obj_read (raw (fst (treplace (mkT [("a", Some 1%Z); ("b", Some 2%Z)] false [] [] None)
                                [("b", Some 5%Z); ("c", None)]))) "a" = Some None.
Proof.
  assert (Hnd : List.NoDup (map fst [("b", Some 5%Z); ("c", None)])).
  { simpl. constructor; [simpl; intuition discriminate|]. constructor; [simpl; tauto|constructor]. }
  assert (H : ~ In "a" JSObj.proto_names) by (cbv; intuition discriminate).
  split; [exact Hnd|]. split; [exact H|].
  rewrite (treplace_reads (mkT [("a", Some 1%Z); ("b", Some 2%Z)] false [] [] None) _ "a" Hnd H).
  reflexivity.
Defined.

Lemma tset_change (st : tstate) (name : string) (value : sval) :
  obj_read (raw st) name <> Some value ->
  tset st name value false =
    (mkT (match value with None => obj_delete (raw st) name | Some _ => obj_set (raw st) name value end)
         true (if tdirty st then old st else raw st)
         (obj_set (if tdirty st then changes st else []) name value) (forced st),
     negb (tdirty st)).
Proof.
  intros H. unfold tset. simpl. rewrite (bool_decide_eq_false_2 _ H). simpl.
  destruct (tdirty st) eqn:D; simpl; [destruct st; simpl in *; subst; reflexivity|reflexivity].
Qed.

Lemma lookup_old_read (o : sobj) (k : string) (x : sval) :
  ~ In k JSObj.proto_names -> obj_read o k = Some x -> lookup_old o k = RVal x.
Proof.
  intros Hp. unfold obj_read, lookup_old. rewrite (not_proto_not_dunder k Hp).
  unfold obj_get. destruct (find _ o) as [[k' v]|].
  - congruence.
  - rewrite (not_proto_existsb k Hp). congruence.
Qed.

Lemma update_single_change (c : Component) (k : string) (old0 : sobj) (v : sval) :
  destroyed c = false -> dirty c = false -> methods c ("update_" ++ k) = true ->
  ~ In k JSObj.proto_names ->
  let c' := set_state (Some (mkState true old0 [(k, v)])) c in
  snd (fst (update c')) = [CallHandler ("update_" ++ k) (RVal v) (lookup_old old0 k); EmitLifecycle "update"] /\
  snd (update c') = false /\ isDirty (fst (fst (update c'))) = false.
Proof.
  intros Hd Hdi Hm Hp. cbv zeta.
  assert (Hho : String.eqb "hasOwnProperty" k = false).
  { destruct (String.eqb "hasOwnProperty" k) eqn:E; [|reflexivity].
    apply String.eqb_eq in E. subst k. exfalso. apply Hp. cbv. tauto. }
  unfold update, isDirty. simpl. rewrite Hd, Hdi. simpl.
  unfold processUpdateHandlers. cbn [map fst existsb]. rewrite Hho. cbn [orb collect_handlers]. cbn [set_state methods]. rewrite Hm. simpl.
  unfold lookup_old at 1. rewrite (not_proto_not_dunder k Hp). simpl. rewrite String.eqb_refl. simpl.
  repeat split.
Qed.

(** [setState(k, v)] then [update()]: on a clean state, changing a
    property [k] (not a member of [Object.prototype]) of a live component
    whose input is not dirty calls [___queueUpdate]; if the component has
    a method [update_k], [update()] then calls [update_k(v, o)] with the
    previous value [o] and emits "update", without throwing, and leaves
    the component clean (no re-render). *)
Theorem setState_then_update (c : Component) (st : tstate) (k : string) (v o : sval) :
  destroyed c = false -> dirty c = false -> tdirty st = false ->
  methods c ("update_" ++ k) = true -> ~ In k JSObj.proto_names ->
  obj_read (raw st) k = Some o -> v <> o ->
  snd (setState st k v) = true /\
  (let c' := set_state (Some (to_State (fst (setState st k v)))) c in
   snd (fst (update c')) = [CallHandler ("update_" ++ k) (RVal v) (RVal o); EmitLifecycle "update"] /\
   snd (update c') = false /\ isDirty (fst (fst (update c'))) = false).
Proof.
  intros Hd Hdi Ht Hm Hp Hr Hne. unfold setState.
  rewrite tset_change by (rewrite Hr; congruence). rewrite Ht. simpl. split; [reflexivity|].
  unfold to_State. simpl. unfold obj_set. rewrite (not_proto_not_dunder k Hp). simpl.
  rewrite <- (lookup_old_read (raw st) k o Hp Hr).
  exact (update_single_change c k (raw st) v Hd Hdi Hm Hp).
Qed.

Lemma setState_then_update_witness :
  snd (setState (mkT [("count", Some 1%Z)] false [] [] None) "count" (Some 2%Z)) = true.
Proof.
  assert (Hp : ~ In "count" JSObj.proto_names) by (cbv; intuition discriminate).
  apply (setState_then_update
           (mkComponent false false false None (fun n => String.eqb n "update_count") true true)
           (mkT [("count", Some 1%Z)] false [] [] None) "count" (Some 2%Z) (Some 1%Z)
           eq_refl eq_refl eq_refl eq_refl Hp eq_refl).
  congruence.
Defined.

(** Setting a property back: on a clean state, [setState(k, v)] then
    [setState(k, o)] with the original value [o] calls [___queueUpdate]
    once, reads [o] again, but leaves the state dirty with the change
    [k: o] recorded, so that [update()] of a live component with a method
    [update_k] still calls [update_k(o, o)] and emits "update". *)
Theorem setState_revert_stays_dirty (c : Component) (st : tstate) (k : string) (v o : sval) :
  destroyed c = false -> dirty c = false -> tdirty st = false ->
  methods c ("update_" ++ k) = true -> ~ In k JSObj.proto_names ->
  obj_read (raw st) k = Some o -> v <> o ->
  let '(st1, q1) := setState st k v in
  let '(st2, q2) := setState st1 k o in
  q1 = true /\ q2 = false /\ tdirty st2 = true /\ obj_read (raw st2) k = Some o /\
  changes st2 = [(k, o)] /\
  snd (fst (update (set_state (Some (to_State st2)) c))) =
    [CallHandler ("update_" ++ k) (RVal o) (RVal o); EmitLifecycle "update"].
Proof.
  intros Hd Hdi Ht Hm Hp Hr Hne. unfold setState.
  rewrite tset_change by (rewrite Hr; congruence). rewrite Ht. simpl.
  set (st1 := mkT _ true (raw st) (obj_set [] k v) (forced st)).
  assert (R1 : obj_read (raw st1) k = Some v).
  { pose proof (tset_read_eq st k v false Hp) as A.
    rewrite tset_change in A by (rewrite Hr; congruence). exact A. }
  rewrite tset_change by (rewrite R1; congruence). simpl.
  pose proof (tset_read_eq st1 k o false Hp) as A.
  rewrite tset_change in A by (rewrite R1; congruence). simpl in A.
  assert (S1 : obj_set [] k v = [(k, v)]).
  { unfold obj_set. rewrite (not_proto_not_dunder k Hp). reflexivity. }
  assert (S2 : obj_set [(k, v)] k o = [(k, o)]).
  { unfold obj_set. rewrite (not_proto_not_dunder k Hp). simpl. rewrite String.eqb_refl. reflexivity. }
  rewrite S1, S2.
  repeat split; [exact A|].
  unfold to_State. simpl.
  destruct (update_single_change c k (raw st) o Hd Hdi Hm Hp) as [E _].
  rewrite E, (lookup_old_read (raw st) k o Hp Hr). reflexivity.
Qed.

Lemma setState_revert_stays_dirty_witness :
  let st := mkT [("count", Some 1%Z)] false [] [] None in
  changes (fst (setState (fst (setState st "count" (Some 2%Z))) "count" (Some 1%Z))) = [("count", Some 1%Z)].
Proof.
  assert (Hp : ~ In "count" JSObj.proto_names) by (cbv; intuition discriminate).
  assert (Hne : Some 2%Z <> Some 1%Z) by congruence.
  pose proof (setState_revert_stays_dirty
           (mkComponent false false false None (fun n => String.eqb n "update_count") true true)
           (mkT [("count", Some 1%Z)] false [] [] None) "count" (Some 2%Z) (Some 1%Z)
           eq_refl eq_refl eq_refl eq_refl Hp eq_refl Hne) as H.
  cbv zeta. vm_compute in H. destruct H as (_ & _ & _ & _ & E & _). exact E.
Defined.

End StateTrackFacts.

(* ===================================================================== *)
(** ** Properties of the update manager *)
(* ===================================================================== *)

Module UpdateManagerFacts.
Import UpdateManager.

(** The ids of [ids] whose flag is not yet set, in the order of their
    first occurrence. *)
Fixpoint fresh (seen ids : list nat) : list nat :=
  match ids with
  | [] => []
  | i :: r => if existsb (Nat.eqb i) seen then fresh seen r else i :: fresh (i :: seen) r
  end.

Definition isnil (l : list nat) : bool := match l with [] => true | _ => false end.

(** Outside any batch, a sequence of [___queueUpdate] calls appends each
    component that was not yet queued to the unbatched queue once, in the
    order of the first calls, and flags it; [nextTick] is called once if
    no update was scheduled and some component was queued, never
    otherwise. *)
Theorem queueUpdates_unbatched (m : um) (ids : list nat) :
  batchStack m = [] ->
  let m' := queueUpdates m ids in
  batchStack m' = [] /\
  unbatchedQueue m' = app (unbatchedQueue m) (fresh (queued m) ids) /\
  queued m' = app (rev (fresh (queued m) ids)) (queued m) /\
  updatesScheduled m' = updatesScheduled m || negb (isnil (fresh (queued m) ids)) /\
  ticks m' = ticks m + (if updatesScheduled m || isnil (fresh (queued m) ids) then 0 else 1).
Proof.
  unfold queueUpdates. revert m. induction ids as [|i r IH]; intros m Hb; cbv zeta; simpl.
  - rewrite app_nil_r, orb_false_r. repeat split; auto. destruct (updatesScheduled m); simpl; lia.
  - destruct (existsb (Nat.eqb i) (queued m)) eqn:E.
    + replace (queueUpdate m i) with m by (unfold queueUpdate; rewrite E; reflexivity).
      apply IH. exact Hb.
    + replace (queueUpdate m i) with (mkUM true [] (app (unbatchedQueue m) [i])
          (if updatesScheduled m then ticks m else S (ticks m)) (i :: queued m))
        by (unfold queueUpdate, queueComponentUpdate, scheduleUpdates; rewrite E; simpl; rewrite Hb;
            destruct (updatesScheduled m); reflexivity).
      destruct (IH (mkUM true [] (app (unbatchedQueue m) [i])
          (if updatesScheduled m then ticks m else S (ticks m)) (i :: queued m)) eq_refl)
        as (B & U & Q & S & T).
      simpl in B, U, Q, S, T. try rewrite E.
      split; [exact B|]. split; [rewrite U, <- app_assoc; reflexivity|].
      split; [rewrite Q; simpl; rewrite <- app_assoc; reflexivity|]. split; [rewrite S; destruct (updatesScheduled m); reflexivity|].
      rewrite T. destruct (updatesScheduled m); simpl; lia.
Qed.

Lemma queueUpdates_unbatched_witness :
  batchStack (mkUM false [] [] 0 []) = [] /\
  unbatchedQueue (queueUpdates (mkUM false [] [] 0 []) [3; 1; 3; 2; 1]) = [3; 1; 2] /\
  ticks (queueUpdates (mkUM false [] [] 0 []) [3; 1; 3; 2; 1]) = 1.
Proof.
  destruct (queueUpdates_unbatched (mkUM false [] [] 0 []) [3; 1; 3; 2; 1] eq_refl) as (_ & U & _ & _ & T).
  split; [reflexivity|]. split; [rewrite U; reflexivity|rewrite T; reflexivity].
Defined.

(** Inside a batch ([batchUpdate]), a sequence of [___queueUpdate] calls
    appends each component that was not yet queued once, in the order of
    the first calls, to the queue of the innermost batch only: the
    unbatched queue, the other batches and the scheduling are left
    alone. *)
Theorem queueUpdates_batched (m : um) (b : option (list nat)) (rest : list (option (list nat))) (ids : list nat) :
  batchStack m = b :: rest ->
  let m' := queueUpdates m ids in
  let q := app (match b with Some q => q | None => [] end) (fresh (queued m) ids) in
  batchStack m' = (match b, q with None, [] => None | _, _ => Some q end) :: rest /\
  unbatchedQueue m' = unbatchedQueue m /\
  queued m' = app (rev (fresh (queued m) ids)) (queued m) /\
  updatesScheduled m' = updatesScheduled m /\ ticks m' = ticks m.
Proof.
  unfold queueUpdates. revert m b. induction ids as [|i r IH]; intros m b Hb; cbv zeta; simpl.
  - rewrite Hb. destruct b as [q|]; rewrite ?app_nil_r; auto.
  - destruct (existsb (Nat.eqb i) (queued m)) eqn:E.
    + replace (queueUpdate m i) with m by (unfold queueUpdate; rewrite E; reflexivity).
      apply IH. exact Hb.
    + replace (queueUpdate m i) with (mkUM (updatesScheduled m)
          (Some (app (match b with Some q => q | None => [] end) [i]) :: rest)
          (unbatchedQueue m) (ticks m) (i :: queued m))
        by (unfold queueUpdate, queueComponentUpdate; rewrite E; simpl; rewrite Hb; destruct b; reflexivity).
      destruct (IH (mkUM (updatesScheduled m)
          (Some (app (match b with Some q => q | None => [] end) [i]) :: rest)
          (unbatchedQueue m) (ticks m) (i :: queued m)) _ eq_refl) as (B & U & Q & S & T).
      simpl in B, U, Q, S, T. try rewrite E.
      split; [|split; [exact U|split; [rewrite Q; simpl; rewrite <- app_assoc; reflexivity|split; [exact S|exact T]]]].
      rewrite B, <- app_assoc. destruct b; simpl; [reflexivity|].
      destruct (fresh (i :: queued m) r); reflexivity.
Qed.

Lemma queueUpdates_batched_witness :
  batchStack (mkUM false [None; Some [9]] [4] 0 [4; 9]) = [None; Some [9]] /\
  batchStack (queueUpdates (mkUM false [None; Some [9]] [4] 0 [4; 9]) [4; 5; 5; 6]) = [Some [5; 6]; Some [9]].
Proof.
  destruct (queueUpdates_batched (mkUM false [None; Some [9]] [4] 0 [4; 9]) None [Some [9]] [4; 5; 5; 6] eq_refl)
    as (B & _).
  split; [reflexivity|rewrite B; reflexivity].
Defined.

End UpdateManagerFacts.

(* ===================================================================== *)
(** ** Properties of the input check *)
(* ===================================================================== *)

Module InputCheckFacts.
Import InputCheck.

Lemma read_notin (p : list (string * ival)) (k : string) :
  ~ In k (map fst p) ->
  read p k = if existsb (String.eqb k) JSObj.proto_names then IProto k else IUndefined.
Proof.
  intros Hn. unfold read. destruct (find _ p) as [[k' v]|] eqn:E; [|reflexivity].
  apply find_some in E. destruct E as [Hin Ek]. simpl in Ek. apply String.eqb_eq in Ek. subst k'.
  exfalso. apply Hn. apply (in_map fst p (k, v) Hin).
Qed.

Lemma read_in (p : list (string * ival)) (k : string) :
  In k (map fst p) -> In (k, read p k) p.
Proof.
  intros Hin. unfold read. destruct (find (fun q => String.eqb (fst q) k) p) as [[k' v]|] eqn:E.
  - apply find_some in E. destruct E as [Hq Ek]. simpl in Ek. apply String.eqb_eq in Ek. subst k'. exact Hq.
  - exfalso. apply in_map_iff in Hin. destruct Hin as [[k' v] [Hk Hq]]. simpl in Hk. subst k'.
    pose proof (find_none _ _ E (k, v) Hq) as F. simpl in F. rewrite String.eqb_refl in F. discriminate.
Qed.

Lemma read_defined_in (p : list (string * ival)) (k : string) :
  ~ In k JSObj.proto_names -> read p k <> IUndefined -> In k (map fst p).
Proof.
  intros Hp Hd. destruct (in_dec string_dec k (map fst p)) as [H|H]; [exact H|].
  exfalso. apply Hd. rewrite (read_notin p k H).
  destruct (existsb (String.eqb k) JSObj.proto_names) eqn:E; [|reflexivity].
  apply existsb_exists in E. destruct E as [x [Hx Ex]]. apply String.eqb_eq in Ex. subst x. contradiction.
Qed.

Lemma keys_incl (po pn : list (string * ival)) :
  (forall k, In k (map fst po) -> ~ In k JSObj.proto_names) ->
  (forall kv, In kv po -> snd kv <> IUndefined) ->
  (forall k, In k (map fst po) -> read po k = read pn k) ->
  incl (map fst po) (map fst pn).
Proof.
  intros Hp Hv Heq k Hk. apply read_defined_in; [apply Hp; exact Hk|].
  rewrite <- (Heq k Hk). apply (Hv (k, read po k)). apply read_in. exact Hk.
Qed.

(** [checkInputChanged] on two distinct input objects with property
    values other than [undefined] and no property named like a member of
    [Object.prototype]: the input counts as unchanged exactly when every
    property reads the same in both. The same object always counts as
    unchanged, whatever it holds. *)
Theorem checkInputChanged_exact (r1 r2 : nat) (po pn : list (string * ival)) :
  r1 <> r2 -> List.NoDup (map fst po) -> List.NoDup (map fst pn) ->
  (forall k, In k (map fst po) \/ In k (map fst pn) -> ~ In k JSObj.proto_names) ->
  (forall kv, In kv po -> snd kv <> IUndefined) ->
  (forall kv, In kv pn -> snd kv <> IUndefined) ->
  (checkInputChanged (InObj r1 po) (InObj r2 pn) = false <-> forall k, read po k = read pn k) /\
  checkInputChanged (InObj r1 po) (InObj r1 pn) = false.
Proof.
  intros Hr Hno Hnn Hp Hvo Hvn. split.
  2:{ unfold checkInputChanged. simpl. rewrite Nat.eqb_refl. reflexivity. }
  unfold checkInputChanged. simpl. apply Nat.eqb_neq in Hr. rewrite Hr. simpl. split.
  - intros H. destruct (Nat.eqb (length (map fst po)) (length (map fst pn))) eqn:L; simpl in H; [|discriminate].
    apply Nat.eqb_eq in L.
    assert (Hold : forall k, In k (map fst po) -> read po k = read pn k).
    { intros k Hk. destruct (decide (read po k = read pn k)) as [E|E]; [exact E|].
      exfalso. assert (X : existsb (fun key => bool_decide (read po key <> read pn key)) (map fst po) = true).
      { apply existsb_exists. exists k. split; [exact Hk|]. apply bool_decide_eq_true. exact E. }
      congruence. }
    assert (I1 : incl (map fst po) (map fst pn)).
    { apply keys_incl; [intros k Hk; apply Hp; left; exact Hk|exact Hvo|exact Hold]. }
    assert (I2 : incl (map fst pn) (map fst po)).
    { apply NoDup_length_incl; [exact Hno|lia|exact I1]. }
    intros k. destruct (in_dec string_dec k (map fst po)) as [Hk|Hk]; [apply Hold; exact Hk|].
    rewrite (read_notin po k Hk), (read_notin pn k); [reflexivity|].
    intros Hn. apply Hk. apply I2. exact Hn.
  - intros H.
    assert (I1 : incl (map fst po) (map fst pn)).
    { apply keys_incl; [intros k Hk; apply Hp; left; exact Hk|exact Hvo|intros k _; apply H]. }
    assert (I2 : incl (map fst pn) (map fst po)).
    { apply keys_incl; [intros k Hk; apply Hp; right; exact Hk|exact Hvn|intros k _; symmetry; apply H]. }
    rewrite (Nat.le_antisymm _ _ (NoDup_incl_length Hno I1) (NoDup_incl_length Hnn I2)), Nat.eqb_refl. simpl.
    apply not_true_iff_false. intros X. apply existsb_exists in X. destruct X as [k [_ X]].
    apply bool_decide_eq_true in X. exact (X (H k)).
Qed.

Lemma checkInputChanged_exact_witness :
  checkInputChanged (InObj 1 [("a", INum 1); ("b", IStr "x")]) (InObj 2 [("b", IStr "x"); ("a", INum 1)]) = false.
Proof.
  assert (Hp : forall k, In k (map fst [("a", INum 1); ("b", IStr "x")]) \/
                         In k (map fst [("b", IStr "x"); ("a", INum 1)]) -> ~ In k JSObj.proto_names).
  { intros k Hk Hpk. simpl in Hk. cbv in Hpk.
    destruct Hk as [[<-|[<-|[]]]|[<-|[<-|[]]]]; intuition discriminate. }
  assert (Hv1 : forall kv, In kv [("a", INum 1); ("b", IStr "x")] -> snd kv <> IUndefined).
  { intros kv [<-|[<-|[]]]; discriminate. }
  assert (Hv2 : forall kv, In kv [("b", IStr "x"); ("a", INum 1)] -> snd kv <> IUndefined).
  { intros kv [<-|[<-|[]]]; discriminate. }
  assert (N1 : List.NoDup (map fst [("a", INum 1); ("b", IStr "x")])).
  { simpl. constructor; [simpl; intuition discriminate|constructor; [simpl; tauto|constructor]]. }
  assert (N2 : List.NoDup (map fst [("b", IStr "x"); ("a", INum 1)])).
  { simpl. constructor; [simpl; intuition discriminate|constructor; [simpl; tauto|constructor]]. }
  destruct (checkInputChanged_exact 1 2 _ _ ltac:(discriminate) N1 N2 Hp Hv1 Hv2) as [[_ E] _].
  apply E. intros k. unfold read. cbn [find fst].
  destruct (String.eqb "a" k) eqn:A; destruct (String.eqb "b" k) eqn:B; try reflexivity.
  all: apply String.eqb_eq in A, B; subst; discriminate.
Defined.

End InputCheckFacts.

(* ===================================================================== *)
(** ** Properties of virtual-tree building *)
(* ===================================================================== *)

Module VBuildFacts.
Import VNodeHeap VBuild.

(** The fields [___finishChild] reads, with the kind. *)
Definition cview (n : vnode) : vkind * Z * Z * option nat :=
  (kind n, finalChildCount n, childCount n, parentNode n).

Lemma size_two (h : heap) (a b : nat) (na nb : vnode) :
  h !! a = Some na -> h !! b = Some nb -> a <> b -> 2 <= size h.
Proof.
  intros Ha Hb Hne.
  pose proof (map_size_delete_Some a h (ex_intro _ na Ha)) as D.
  assert (Hb' : is_Some (delete a h !! b)) by (rewrite lookup_delete_ne by congruence; eauto).
  pose proof (map_size_ne_0_lookup_2 _ _ Hb'). lia.
Qed.

Lemma appendChild_view (h : heap) (x y : nat) (sn cn : vnode) (z : nat) :
  h !! x = Some sn -> h !! y = Some cn -> nodeName sn <> Some "textarea" -> x <> y ->
  snd (appendChild h x y) = None /\
  option_map cview (fst (appendChild h x y) !! z) =
    option_map (fun n => cview (if decide (z = y) then set_parentNode (Some x) n
                                else if decide (z = x) then set_childCount (childCount n + 1) n
                                else n)) (h !! z).
Proof.
  intros Hx Hy Ht Hne. unfold appendChild. rewrite Hx, Hy.
  assert (Ht' : nodeName (set_childCount (childCount sn + 1) sn) <> Some "textarea") by exact Ht.
  destruct (decide (nodeName (set_childCount (childCount sn + 1) sn) = Some "textarea")) as [E|_];
    [contradiction|].
  split; [destruct (lastChild _); reflexivity|]. cbn [fst lastChild set_childCount].
  destruct (decide (z = x)) as [->|Zx].
  - rewrite lookup_alter_eq.
    destruct (lastChild sn) as [last|]; simpl.
    + destruct (decide (last = x)) as [->|Lx].
      * rewrite lookup_alter_eq, lookup_alter_ne by congruence. rewrite lookup_insert_eq, Hx.
        destruct (decide (x = y)); [congruence|reflexivity].
      * rewrite lookup_alter_ne by congruence. rewrite lookup_alter_ne by congruence.
        rewrite lookup_insert_eq, Hx. destruct (decide (x = y)); [congruence|reflexivity].
    + rewrite lookup_alter_eq, lookup_alter_ne by congruence. rewrite lookup_insert_eq, Hx.
      destruct (decide (x = y)); [congruence|reflexivity].
  - rewrite lookup_alter_ne by congruence.
    destruct (decide (z = x)) as [|_]; [congruence|].
    assert (Base : option_map cview (alter (set_parentNode (Some x)) y
                    (<[x:=set_childCount (childCount sn + 1) sn]> h) !! z) =
                   option_map (fun n => cview (if decide (z = y) then set_parentNode (Some x) n
                                else n)) (h !! z)).
    { destruct (decide (z = y)) as [->|Zy].
      - rewrite lookup_alter_eq, lookup_insert_ne by congruence. rewrite Hy. reflexivity.
      - rewrite lookup_alter_ne by congruence. rewrite lookup_insert_ne by congruence.
        destruct (h !! z); reflexivity. }
    destruct (lastChild sn) as [last|]; simpl.
    + destruct (decide (last = z)) as [->|Lz].
      * rewrite lookup_alter_eq. rewrite <- Base. destruct (_ !! z); reflexivity.
      * rewrite lookup_alter_ne by congruence. exact Base.
    + rewrite lookup_alter_ne by congruence. exact Base.
Qed.

(** Appending a text node: the parent's [___childCount] grows by one
    whether or not it is a textarea (which keeps the text as its value);
    no other node but the text node itself changes its view. *)
Lemma appendChild_text_view (h : heap) (x y : nat) (sn cn : vnode) (z : nat) :
  h !! x = Some sn -> h !! y = Some cn -> text_value cn <> None -> x <> y -> z <> y ->
  snd (appendChild h x y) = None /\
  option_map cview (fst (appendChild h x y) !! z) =
    option_map (fun n => cview (if decide (z = x) then set_childCount (childCount n + 1) n else n)) (h !! z).
Proof.
  intros Hx Hy Ht Hne Hz.
  destruct (decide (nodeName sn = Some "textarea")) as [Ta|Ta].
  - unfold appendChild. rewrite Hx, Hy.
    destruct (decide (nodeName (set_childCount (childCount sn + 1) sn) = Some "textarea")) as [_|E];
      [|contradiction].
    destruct (text_value cn) as [v|]; [|contradiction].
    split; [reflexivity|]. cbn [fst].
    destruct (decide (z = x)) as [->|Zx].
    + rewrite lookup_insert_eq, Hx. reflexivity.
    + rewrite !lookup_insert_ne by congruence. destruct (h !! z); reflexivity.
  - destruct (appendChild_view h x y sn cn z Hx Hy Ta Hne) as [Hex V]. split; [exact Hex|].
    rewrite V. destruct (decide (z = y)); [contradiction|reflexivity].
Qed.

Lemma view_some (o : option vnode) (v : vkind * Z * Z * option nat) :
  option_map cview o = Some v -> exists n, o = Some n /\ cview n = v.
Proof. destruct o as [n|]; simpl; intros H; [injection H as <-; eauto|discriminate]. Qed.

Lemma view_none (o : option vnode) : option_map cview o = None -> o = None.
Proof. destruct o; simpl; congruence. Qed.

Lemma finish_incomplete (f : nat) (h : heap) (x : nat) (n : vnode) :
  h !! x = Some n -> childCount n <> finalChildCount n -> finishChild_fuel (S f) h x = RNode x.
Proof. intros H Hc. simpl. rewrite H. apply Z.eqb_neq in Hc. rewrite Hc. reflexivity. Qed.

Lemma finish_complete (f : nat) (h : heap) (x p : nat) (n : vnode) :
  h !! x = Some n -> childCount n = finalChildCount n -> parentNode n = Some p ->
  finishChild_fuel (S f) h x = finishChild_fuel f h p.
Proof. intros H Hc Hp. simpl. rewrite H, Hp. apply Z.eqb_eq in Hc. rewrite Hc. reflexivity. Qed.

(** The state of a chain [self.e(tag, m).t(..)...] after [k] texts. *)
Definition Inv (s : vb) (self n0 : nat) (sn : vnode) (tag : string) (m k : Z) : Prop :=
  (exists en, vh s !! n0 = Some en /\ cview en = (KElement tag, m, k, Some self)) /\
  (exists sn', vh s !! self = Some sn' /\
     cview sn' = (kind sn, finalChildCount sn, (childCount sn + 1)%Z, parentNode sn)) /\
  (forall i, vnext s <= i -> vh s !! i = None) /\ self <> n0.

Lemma t_step (s : vb) (self n0 : nat) (sn : vnode) (tag v : string) (m k : Z) :
  Inv s self n0 sn tag m k ->
  exists h', t s n0 v = (mkVB h' (S (vnext s)), finishChild h' n0) /\
             Inv (mkVB h' (S (vnext s))) self n0 sn tag m (k + 1)%Z.
Proof.
  intros [[en [Hen Ven]] [[sn' [Hsn Vsn]] [Hfr Hne]]].
  assert (N0 : n0 <> vnext s) by (intros E; rewrite (Hfr n0 (Nat.eq_le_incl _ _ (eq_sym E))) in Hen; discriminate).
  assert (S0 : self <> vnext s) by (intros E; rewrite (Hfr self (Nat.eq_le_incl _ _ (eq_sym E))) in Hsn; discriminate).
  set (h0 := <[vnext s := new_vnode (KText v) (-1)]> (vh s)).
  assert (A : h0 !! n0 = Some en) by (unfold h0; rewrite lookup_insert_ne by congruence; exact Hen).
  assert (B : h0 !! vnext s = Some (new_vnode (KText v) (-1))) by (unfold h0; apply lookup_insert_eq).
  pose proof (fun z => appendChild_text_view h0 n0 (vnext s) en _ z A B ltac:(discriminate) N0) as AV.
  destruct (AV n0 N0) as [Hex _].
  exists (fst (appendChild h0 n0 (vnext s))). split.
  - unfold t, alloc. simpl. fold h0. destruct (appendChild h0 n0 (vnext s)) as [h' ex] eqn:E.
    simpl in Hex. subst ex. reflexivity.
  - split; [|split; [|split]].
    + destruct (AV n0 N0) as [_ V]. rewrite A in V. simpl in V.
      destruct (decide (n0 = n0)); [|congruence].
      apply view_some in V. destruct V as [en' [E1 E2]]. exists en'. split; [exact E1|].
      rewrite E2. unfold cview in *. simpl. injection Ven as -> -> -> ->. reflexivity.
    + destruct (AV self S0) as [_ V].
      assert (Hs0 : h0 !! self = Some sn') by (unfold h0; rewrite lookup_insert_ne by congruence; exact Hsn).
      rewrite Hs0 in V. simpl in V.
      destruct (decide (self = n0)); [congruence|].
      apply view_some in V. destruct V as [sn2 [E1 E2]]. exists sn2. split; [exact E1|]. rewrite E2. exact Vsn.
    + intros i Hi. simpl in Hi. destruct (AV i ltac:(lia)) as [_ V].
      assert (Hi0 : h0 !! i = None) by (unfold h0; rewrite lookup_insert_ne by lia; apply Hfr; lia).
      rewrite Hi0 in V. apply view_none. exact V.
    + exact Hne.
Qed.

Lemma chain_returns (vals : list string) (s : vb) (self n0 : nat) (sn : vnode) (tag : string) (k : Z) :
  Inv s self n0 sn tag (k + Z.of_nat (length vals))%Z k -> vals <> [] ->
  (childCount sn + 1 <> finalChildCount sn)%Z ->
  exists s2, t_chain s (RNode n0) vals = (s2, RNode self) /\
             Inv s2 self n0 sn tag (k + Z.of_nat (length vals))%Z (k + Z.of_nat (length vals))%Z.
Proof.
  revert s k. induction vals as [|v rest IH]; intros s k I Hv Hc; [congruence|].
  destruct (t_step s self n0 sn tag v _ k I) as [h' [E I']].
  simpl. rewrite E. clear E.
  destruct rest as [|v2 rest'].
  - simpl in *. replace (k + 1)%Z with (k + 1)%Z in I' by reflexivity.
    exists (mkVB h' (S (vnext s))). split; [|exact I'].
    destruct I' as [[en [Hen Ven]] [[sn' [Hsn Vsn]] [_ Hne]]].
    unfold cview in Ven, Vsn. injection Ven as Hk Hf Hcc Hp. injection Vsn as Hk' Hf' Hcc' Hp'.
    unfold finishChild.
    pose proof (size_two h' n0 self en sn' Hen Hsn (not_eq_sym Hne)) as Sz.
    destruct (size h') as [|[|sz]] eqn:Ez; [lia|lia|].
    rewrite (finish_complete _ h' n0 self en Hen ltac:(lia) Hp).
    rewrite (finish_incomplete _ h' self sn' Hsn ltac:(lia)). reflexivity.
  - destruct I' as [[en [Hen Ven]] R].
    assert (Fn : finishChild h' n0 = RNode n0).
    { unfold finishChild. apply (finish_incomplete _ h' n0 en Hen).
      unfold cview in Ven. injection Ven as _ -> -> _. simpl. lia. }
    rewrite Fn.
    destruct (IH (mkVB h' (S (vnext s))) (k + 1)%Z) as [s2 [E2 I2]].
    + split; [exists en; split; [exact Hen|rewrite Ven; f_equal; f_equal; f_equal; simpl; lia]|exact R].
    + congruence.
    + exact Hc.
    + exists s2. split; [exact E2|].
      replace (k + Z.of_nat (S (length (v2 :: rest'))))%Z with (k + 1 + Z.of_nat (length (v2 :: rest')))%Z
        by lia. exact I2.
Qed.

(** The chain [self.e(tag, .., m).t(v1)...t(vm)] with [m > 0] texts
    returns to [self] when [self] still waits for more children: [e]
    returns the new element, the [m] texts complete it ([___childCount]
    reaches its [___finalChildCount]) and [___finishChild] then climbs to
    [self], whose [___childCount] grew by one. [self] is not a textarea
    (the new element may be one: it then keeps the texts as its value);
    the heap has nothing at or above the next free reference. *)
Theorem e_t_chain_returns (s : vb) (self : nat) (sn : vnode) (tag : string) (vals : list string) :
  vh s !! self = Some sn -> nodeName sn <> Some "textarea" ->
  (forall i, vnext s <= i -> vh s !! i = None) -> vals <> [] ->
  (childCount sn + 1 <> finalChildCount sn)%Z ->
  exists s1 s2,
    e s self tag (Z.of_nat (length vals)) = (s1, RNode (vnext s)) /\
    t_chain s1 (RNode (vnext s)) vals = (s2, RNode self) /\
    (exists en, vh s2 !! vnext s = Some en /\ childCount en = finalChildCount en /\
                parentNode en = Some self) /\
    (exists sn', vh s2 !! self = Some sn' /\ childCount sn' = (childCount sn + 1)%Z).
Proof.
  intros Hsn Hts Hfr Hv Hc.
  assert (S0 : self <> vnext s) by (intros E; rewrite (Hfr self (Nat.eq_le_incl _ _ (eq_sym E))) in Hsn; discriminate).
  set (m := Z.of_nat (length vals)).
  set (h0 := <[vnext s := new_vnode (KElement tag) m]> (vh s)).
  assert (A : h0 !! self = Some sn) by (unfold h0; rewrite lookup_insert_ne by congruence; exact Hsn).
  assert (B : h0 !! vnext s = Some (new_vnode (KElement tag) m)) by (unfold h0; apply lookup_insert_eq).
  pose proof (fun z => appendChild_view h0 self (vnext s) sn _ z A B Hts S0) as AV.
  destruct (AV 0) as [Hex _].
  set (h1 := fst (appendChild h0 self (vnext s))).
  assert (E1 : e s self tag m = (mkVB h1 (S (vnext s)), RNode (vnext s))).
  { unfold e, alloc. simpl. fold h0. unfold h1. destruct (appendChild h0 self (vnext s)) as [h' ex] eqn:E.
    simpl in Hex. subst ex. simpl.
    destruct (Z.eqb m 0) eqn:Z0; [|reflexivity].
    apply Z.eqb_eq in Z0. destruct vals; [congruence|unfold m in Z0; simpl in Z0; lia]. }
  assert (I : Inv (mkVB h1 (S (vnext s))) self (vnext s) sn tag (0 + m)%Z 0%Z).
  { split; [|split; [|split]].
    - destruct (AV (vnext s)) as [_ V]. rewrite B in V. simpl in V.
      destruct (decide (vnext s = vnext s)); [|congruence].
      apply view_some in V. destruct V as [en [E2 E3]]. exists en. split; [exact E2|]. rewrite E3. reflexivity.
    - destruct (AV self) as [_ V]. rewrite A in V. simpl in V.
      destruct (decide (self = vnext s)); [congruence|]. destruct (decide (self = self)); [|congruence].
      apply view_some in V. destruct V as [sn2 [E2 E3]]. exists sn2. split; [exact E2|]. rewrite E3. reflexivity.
    - intros i Hi. simpl in Hi. destruct (AV i) as [_ V].
      assert (Hi0 : h0 !! i = None) by (unfold h0; rewrite lookup_insert_ne by lia; apply Hfr; lia).
      rewrite Hi0 in V. apply view_none. exact V.
    - exact S0. }
  destruct (chain_returns vals _ self (vnext s) sn tag 0 I Hv Hc) as [s2 [E2 I2]].
  exists (mkVB h1 (S (vnext s))), s2. split; [exact E1|]. split; [exact E2|].
  destruct I2 as [[en [Hen Ven]] [[sn' [Hsn' Vsn']] _]].
  unfold cview in Ven, Vsn'. injection Ven as _ Hf Hcc Hp. injection Vsn' as _ _ Hcc' _.
  split; [exists en; split; [exact Hen|split; [lia|exact Hp]]|exists sn'; split; [exact Hsn'|exact Hcc']].
Qed.

Lemma e_t_chain_returns_witness :
  exists s1 s2,
    e (mkVB {[0 := new_vnode (KElement "ul") 2]} 1) 0 "li" 2 = (s1, RNode 1) /\
    t_chain s1 (RNode 1) ["a"; "b"] = (s2, RNode 0).
Proof.
  assert (Hfr : forall i, 1 <= i -> ({[0 := new_vnode (KElement "ul") 2]} : heap) !! i = None)
    by (intros i Hi; rewrite lookup_singleton_ne by lia; reflexivity).
  destruct (e_t_chain_returns (mkVB {[0 := new_vnode (KElement "ul") 2]} 1) 0 (new_vnode (KElement "ul") 2)
              "li" ["a"; "b"] (lookup_singleton_eq _ _) ltac:(discriminate) Hfr
              ltac:(discriminate) ltac:(simpl; lia)) as (s1 & s2 & E1 & E2 & _).
  exists s1, s2. split; [exact E1|exact E2].
Defined.

End VBuildFacts.

(* ===================================================================== *)
(** ** Properties of the [onLast] chain *)
(* ===================================================================== *)

Module LastChainFacts.
Import LastChain.







End LastChainFacts.

(* ===================================================================== *)
(** ** Properties of finishing the async builder *)
(* ===================================================================== *)

Module OutEventsFacts.
Import AsyncBuilder Events EventsFacts OutEvents.

Lemma listeners_of_on (e : ee) (t : string) (ids : list nat) (l : nat) :
  t <> "__proto__" -> listeners_of e t = map UserFn ids ->
  exists e1, on e t (UserFn l) = Some e1 /\ listeners_of e1 t = map UserFn (app ids [l]).
Proof.
  intros Hp H. unfold on, addListener.
  destruct (listeners_of_users_entry e t ids Hp H) as [[Hpr [E ->]]|[[i [E ->]]|E]].
  - rewrite (get_slot_none e t Hpr E). eexists. split; [reflexivity|].
    unfold listeners_of. rewrite get_slot_insert by exact Hp. reflexivity.
  - rewrite (get_slot_some e t _ Hp E). eexists. split; [reflexivity|].
    unfold listeners_of. rewrite get_slot_insert by exact Hp. reflexivity.
  - rewrite (get_slot_some e t _ Hp E). eexists. split; [reflexivity|].
    unfold listeners_of. rewrite get_slot_insert by exact Hp. rewrite map_app. reflexivity.
Qed.

Lemma emit_users (e : ee) (t : string) (arg : value) (ids : list nat) :
  t <> "__proto__" -> listeners_of e t = map UserFn ids -> String.eqb t "error" = false ->
  exists o, emit e t arg = (e, ids, o).
Proof.
  intros Hp H Ht. unfold emit.
  destruct (listeners_of_users_entry e t ids Hp H) as [[Hpr [E ->]]|[[i [E ->]]|E]].
  - rewrite (get_slot_none e t Hpr E), Ht. eauto.
  - rewrite (get_slot_some e t _ Hp E). simpl. eauto.
  - rewrite (get_slot_some e t _ Hp E), invoke_each_users. eauto.
Qed.

Lemma out_on_all_before (st : outst) (ids pre : list nat) :
  finished st = false -> listeners_of (events st) "finish" = map UserFn ids ->
  exists st', out_on_all st "finish" pre = Some (st', []) /\ finished st' = false /\ last st' = last st /\
              listeners_of (events st') "finish" = map UserFn (app ids pre).
Proof.
  revert st ids. induction pre as [|cb rest IH]; intros st ids Hf Hl.
  - exists st. rewrite app_nil_r. auto.
  - destruct (listeners_of_on (events st) "finish" ids cb ltac:(discriminate) Hl) as [e1 [Eo Hl1]].
    simpl. unfold out_on at 1. rewrite Hf. simpl. rewrite Eo. simpl.
    destruct (IH (mkOut false e1 (last st)) (app ids [cb]) eq_refl Hl1) as [st' [E [F [L Ls]]]].
    rewrite E. exists st'. split; [reflexivity|]. split; [exact F|]. split; [exact L|].
    rewrite Ls, <- app_assoc. reflexivity.
Qed.

Lemma out_on_all_after (st : outst) (post : list nat) :
  finished st = true -> out_on_all st "finish" post = Some (st, post).
Proof.
  intros Hf. induction post as [|cb rest IH]; [reflexivity|].
  simpl. unfold out_on at 1. rewrite Hf. simpl. rewrite IH. reflexivity.
Qed.

(** [out.on("finish", cb)]: callbacks registered before the builder
    finishes are called by [___doFinish], in the order of registration;
    callbacks registered afterwards are called right away. So each one
    runs exactly once, and none waits on an event that has already
    passed. No call to [out.on] throws. *)
Theorem finish_callbacks_once (st : outst) (pre post : list nat) (result : value) :
  finished st = false -> listeners_of (events st) "finish" = [] ->
  match out_on_all st "finish" pre with
  | Some (st1, c1) =>
      let '(st2, c2, _) := doFinish st1 result in
      match out_on_all st2 "finish" post with
      | Some (st3, c3) => c1 = [] /\ c2 = pre /\ c3 = post /\ finished st3 = true
      | None => False
      end
  | None => False
  end.
Proof.
  intros Hf Hl.
  destruct (out_on_all_before st [] pre Hf Hl) as [st1 [E1 [F1 [_ L1]]]].
  rewrite E1. simpl in L1.
  unfold doFinish.
  destruct (emit_users (events st1) "finish" result pre ltac:(discriminate) L1 eq_refl) as [o E2].
  rewrite E2. rewrite out_on_all_after by reflexivity. auto.
Qed.

Lemma finish_callbacks_once_witness :
  option_map snd (match out_on_all (mkOut false new_EventEmitter None) "finish" [1; 2] with
                  | Some (st1, _) => out_on_all (fst (fst (doFinish st1 (VOther "r")))) "finish" [3]
                  | None => None
                  end) = Some [3].
Proof.
  pose proof (finish_callbacks_once (mkOut false new_EventEmitter None) [1; 2] [3] (VOther "r") eq_refl eq_refl) as H.
  revert H. vm_compute. intros (_ & _ & H & _). exact (f_equal Some H).
Defined.

End OutEventsFacts.

(* ===================================================================== *)
(** ** Attribute morphing ([___morphAttrs]) brings the rendered attributes in line *)
(* ===================================================================== *)

Module MorphAttrsFacts.
Import Morph.

(** The string an attribute value is written as ([setAttribute] and
    [___actualize]). *)
Definition conv (v : attrval) : string :=
  match v with AStr x => x | _ => convertAttrValue v end.

(** The attributes [___actualize] gives a real element for the
    attributes [a] (without the properties flag). *)
Definition rendered (a : list (string * attrval)) : gmap string string :=
  fold_left (fun m p =>
      let '(name, v) := p in
      if attr_absent v then m
      else <[if String.eqb name ATTR_XLINK_HREF then ATTR_HREF else name := conv v]> m) a ∅.

Lemma fold_notin {A : Type} (g : A -> gmap string string -> gmap string string) (key : A -> string)
    (l : list A) (m : gmap string string) (k : string) :
  (forall p m', In p l -> key p <> k -> g p m' !! k = m' !! k) ->
  ~ In k (map key l) -> fold_left (fun m p => g p m) l m !! k = m !! k.
Proof.
  revert m. induction l as [|p l IH]; intros m Hg Hn; [reflexivity|].
  simpl. rewrite IH.
  - apply Hg; [left; reflexivity|]. intros E. apply Hn. left. exact E.
  - intros p' m' Hp. apply Hg. right. exact Hp.
  - intros H. apply Hn. right. exact H.
Qed.

Lemma fold_in {A : Type} (g : A -> gmap string string -> gmap string string) (key : A -> string)
    (l : list A) (m : gmap string string) (p : A) :
  (forall p m', In p l -> forall k, key p <> k -> g p m' !! k = m' !! k) ->
  (forall p m1 m2, In p l -> m1 !! key p = m2 !! key p -> g p m1 !! key p = g p m2 !! key p) ->
  List.NoDup (map key l) -> In p l ->
  fold_left (fun m p => g p m) l m !! key p = g p m !! key p.
Proof.
  revert m. induction l as [|q l IH]; intros m Hg Hloc Hnd Hin; [destruct Hin|].
  simpl in Hnd |- *. apply NoDup_cons_iff in Hnd. destruct Hnd as [Hq Hnd].
  destruct Hin as [->|Hin].
  - apply (fold_notin g key l (g p m) (key p)); [|exact Hq].
    intros p' m' Hp' Hne. apply Hg; [right; exact Hp'|exact Hne].
  - rewrite (IH (g q m)); [| intros p' m' Hp'; apply Hg; right; exact Hp'
                           | intros p' m1 m2 Hp'; apply Hloc; right; exact Hp'
                           | exact Hnd | exact Hin].
    apply Hloc; [right; exact Hin|]. apply Hg; [left; reflexivity|].
    intros E. apply Hq. rewrite E. apply in_map. exact Hin.
Qed.

Definition rstep (p : string * attrval) (m : gmap string string) : gmap string string :=
  let '(name, v) := p in
  if attr_absent v then m
  else <[if String.eqb name ATTR_XLINK_HREF then ATTR_HREF else name := conv v]> m.

Lemma rstep_other (p : string * attrval) (m : gmap string string) (k : string) :
  fst p <> ATTR_XLINK_HREF -> fst p <> k -> rstep p m !! k = m !! k.
Proof.
  destruct p as [name v]. simpl. intros Hx Hk.
  destruct (attr_absent v); [reflexivity|].
  destruct (String.eqb name ATTR_XLINK_HREF) eqn:E; [apply String.eqb_eq in E; contradiction|].
  apply lookup_insert_ne. exact Hk.
Qed.

Lemma rstep_own (p : string * attrval) (m : gmap string string) :
  fst p <> ATTR_XLINK_HREF ->
  rstep p m !! fst p = if attr_absent (snd p) then m !! fst p else Some (conv (snd p)).
Proof.
  destruct p as [name v]. simpl. intros Hx.
  destruct (attr_absent v); [reflexivity|].
  destruct (String.eqb name ATTR_XLINK_HREF) eqn:E; [apply String.eqb_eq in E; contradiction|].
  apply lookup_insert_eq.
Qed.

(** No attribute named [xlink:href]. *)
Definition no_xlink (l : list (string * attrval)) : Prop :=
  forall p, In p l -> fst p <> ATTR_XLINK_HREF.

Lemma rendered_notin (l : list (string * attrval)) (k : string) :
  no_xlink l -> ~ In k (map fst l) -> rendered l !! k = None.
Proof.
  intros Hx Hn. unfold rendered. change (fold_left (fun m p => rstep p m) l ∅ !! k = None).
  rewrite (fold_notin rstep fst l ∅ k); [apply lookup_empty| |exact Hn].
  intros p m' Hp Hne. apply rstep_other; [apply Hx; exact Hp|exact Hne].
Qed.

Lemma rendered_in (l : list (string * attrval)) (k : string) (v : attrval) :
  no_xlink l -> List.NoDup (map fst l) -> In (k, v) l ->
  rendered l !! k = if attr_absent v then None else Some (conv v).
Proof.
  intros Hx Hnd Hin. unfold rendered.
  change (fold_left (fun m p => rstep p m) l ∅ !! fst (k, v) = if attr_absent v then None else Some (conv v)).
  rewrite (fold_in rstep fst l ∅ (k, v)); [| | |exact Hnd|exact Hin].
  - rewrite rstep_own by (apply Hx; exact Hin). simpl. destruct (attr_absent v); [apply lookup_empty|reflexivity].
  - intros p m' Hp k' Hne. apply rstep_other; [apply Hx; exact Hp|exact Hne].
  - intros p m1 m2 Hp E. rewrite !rstep_own by (apply Hx; exact Hp). rewrite E. reflexivity.
Qed.

(** The first loop of [___morphAttrs] on the attribute map. *)
Definition sstep (oldAttrs : list (string * attrval)) (p : string * attrval) (m : gmap string string)
    : gmap string string :=
  let '(attrName0, attrValue) := p in
  let attrName := if String.eqb attrName0 ATTR_XLINK_HREF then ATTR_HREF else attrName0 in
  if attr_absent attrValue then delete attrName m
  else if attr_differs oldAttrs attrName attrValue then <[attrName := conv attrValue]> m
  else m.

(** The second loop (key [null]) on the attribute map. *)
Definition dstep (attrs : list (string * attrval)) (p : string * attrval) (m : gmap string string)
    : gmap string string :=
  if attr_in attrs (fst p) then m
  else if String.eqb (fst p) ATTR_XLINK_HREF then m
  else delete (fst p) m.

Lemma set_rattrs_twice (a b : gmap string string) (r : rnode) :
  set_rattrs a (set_rattrs b r) = set_rattrs a r.
Proof. destruct r; reflexivity. Qed.

Lemma rattrs_set (a : gmap string string) (r : rnode) : rattrs (set_rattrs a r) = a.
Proof. destruct r; reflexivity. Qed.

Lemma mfold {A : Type} (n : nat) (l : list A) (step : A -> M unit)
    (g : A -> gmap string string -> gmap string string) :
  (forall p s r, In p l -> dom s !! n = Some r ->
     exists s', step p s = Some (tt, s') /\ dom s' !! n = Some (set_rattrs (g p (rattrs r)) r)) ->
  forall (m0 : M unit) s0 s r, m0 s0 = Some (tt, s) -> dom s !! n = Some r ->
  exists s', fold_left (fun m p => m ;;; step p) l m0 s0 = Some (tt, s') /\
             dom s' !! n = Some (set_rattrs (fold_left (fun a p => g p a) l (rattrs r)) r).
Proof.
  intros Hstep. induction l as [|p l IH]; intros m0 s0 s r Hm0 Hr.
  - exists s. split; [exact Hm0|]. simpl. rewrite Hr. destruct r; reflexivity.
  - simpl. destruct (Hstep p s r (or_introl eq_refl) Hr) as [s1 [E1 D1]].
    destruct (IH (fun p s r Hp => Hstep p s r (or_intror Hp)) (m0 ;;; step p) s0 s1 (set_rattrs (g p (rattrs r)) r))
      as [s2 [E2 D2]].
    + unfold bind. rewrite Hm0. exact E1.
    + exact D1.
    + exists s2. split; [exact E2|]. rewrite D2, set_rattrs_twice, rattrs_set. reflexivity.
Qed.

Lemma record_dom (mu : mutation) (s : mstate) :
  exists s', record mu s = Some (tt, s') /\ dom s' = dom s.
Proof. eexists. split; reflexivity. Qed.

Lemma setAttribute_dom (n : nat) (k v : string) (s : mstate) (r : rnode) :
  dom s !! n = Some r ->
  exists s', setAttribute n k v s = Some (tt, s') /\ dom s' !! n = Some (set_rattrs (<[k := v]> (rattrs r)) r).
Proof.
  intros Hr. eexists. split; [reflexivity|]. simpl. rewrite lookup_alter_eq. simpl. rewrite Hr. reflexivity.
Qed.

Lemma removeAttribute_dom (n : nat) (k : string) (s : mstate) (r : rnode) :
  dom s !! n = Some r ->
  exists s', removeAttribute n k s = Some (tt, s') /\ dom s' !! n = Some (set_rattrs (delete k (rattrs r)) r).
Proof.
  intros Hr. unfold removeAttribute, bind at 1, get. rewrite Hr.
  destruct (rattrs r !! k) eqn:Hk.
  - eexists. split; [reflexivity|]. simpl. rewrite lookup_alter_eq. simpl. rewrite Hr. reflexivity.
  - exists s. split; [reflexivity|]. rewrite Hr, delete_id by exact Hk.
    destruct r; reflexivity.
Qed.

Lemma attr_get_some (l : list (string * attrval)) (k : string) (v : attrval) :
  attr_get l k = Some v -> In (k, v) l.
Proof.
  unfold attr_get. destruct (find _ l) as [[k' v']|] eqn:E; [|discriminate].
  intros H. injection H as <-. apply find_some in E. destruct E as [Hin Ek].
  simpl in Ek. apply String.eqb_eq in Ek. subst k'. exact Hin.
Qed.

Lemma attr_get_none (l : list (string * attrval)) (k : string) :
  attr_get l k = None -> ~ In k (map fst l).
Proof.
  unfold attr_get. destruct (find (fun p => String.eqb (fst p) k) l) as [[k' v']|] eqn:E; [discriminate|].
  intros _ Hin. apply in_map_iff in Hin. destruct Hin as [[k1 v1] [Hk Hin]]. simpl in Hk. subst k1.
  pose proof (find_none _ _ E (k, v1) Hin) as F. simpl in F. rewrite String.eqb_refl in F. discriminate.
Qed.

(** No attribute named like a member of [Object.prototype]. *)
Definition no_proto (l : list (string * attrval)) : Prop :=
  forall p, In p l -> ~ In (fst p) JSObj.proto_names.

Lemma not_proto_existsb' (k : string) : ~ In k JSObj.proto_names -> existsb (String.eqb k) JSObj.proto_names = false.
Proof.
  intros H. destruct (existsb (String.eqb k) JSObj.proto_names) eqn:E; [|reflexivity].
  apply existsb_exists in E. destruct E as [x [Hx Ex]]. apply String.eqb_eq in Ex. subst x. contradiction.
Qed.

Lemma seq_conv (a b : attrval) :
  attr_seq a b = true -> (forall r j1 j2, a = AObj r j1 -> b = AObj r j2 -> j1 = j2) ->
  attr_absent a = attr_absent b /\ conv a = conv b.
Proof.
  intros H J. destruct a, b; simpl in H; try discriminate.
  - apply String.eqb_eq in H. subst. auto.
  - apply Z.eqb_eq in H. subst. auto.
  - apply Bool.eqb_prop in H. subst. auto.
  - auto.
  - auto.
  - apply Nat.eqb_eq in H. subst. rewrite (J ref0 json json0 eq_refl eq_refl). auto.
Qed.

Lemma in_names (l : list (string * attrval)) (k : string) (v : attrval) : In (k, v) l -> In k (map fst l).
Proof. intros H. apply (in_map fst l (k, v) H). Qed.

Lemma first_loop (old new : list (string * attrval)) (k : string) :
  no_xlink old -> no_xlink new -> List.NoDup (map fst old) -> List.NoDup (map fst new) ->
  no_proto new ->
  (forall k r j1 j2, In (k, AObj r j1) old -> In (k, AObj r j2) new -> j1 = j2) ->
  fold_left (fun a p => sstep old p a) new (rendered old) !! k =
    if in_dec string_dec k (map fst new) then rendered new !! k else rendered old !! k.
Proof.
  intros Xo Xn No Nn Pn J.
  assert (Other : forall p m' k', In p new -> fst p <> k' -> sstep old p m' !! k' = m' !! k').
  { intros [name v] m' k' Hp Hne. simpl in Hne |- *.
    assert (Hx : String.eqb name ATTR_XLINK_HREF = false)
      by (apply String.eqb_neq; exact (Xn _ Hp)). rewrite Hx.
    destruct (attr_absent v); [apply lookup_delete_ne; exact Hne|].
    destruct (attr_differs old name v); [apply lookup_insert_ne; exact Hne|reflexivity]. }
  destruct (in_dec string_dec k (map fst new)) as [Hin|Hin].
  - apply in_map_iff in Hin. destruct Hin as [[k0 v] [Hk Hin]]. simpl in Hk. subst k0.
    change k with (fst (k, v)).
    rewrite (fold_in (sstep old) fst new (rendered old) (k, v)); [| | | exact Nn | exact Hin].
    + simpl. assert (Hx : String.eqb k ATTR_XLINK_HREF = false)
        by (apply String.eqb_neq; exact (Xn _ Hin)). rewrite Hx.
      rewrite (rendered_in new k v Xn Nn Hin).
      destruct (attr_absent v) eqn:Ab; [apply lookup_delete_eq|].
      destruct (attr_differs old k v) eqn:Df; [apply lookup_insert_eq|].
      unfold attr_differs, attr_read in Df.
      destruct (attr_get old k) as [ov|] eqn:G.
      * apply negb_false_iff in Df. apply attr_get_some in G.
        destruct (seq_conv ov v Df) as [A C].
        { intros r j1 j2 -> ->. exact (J k r j1 j2 G Hin). }
        rewrite (rendered_in old k ov Xo No G), A, Ab, C. reflexivity.
      * rewrite (not_proto_existsb' k (Pn _ Hin)) in Df. simpl in Df. destruct v; discriminate.
    + intros p m' Hp k' Hne. apply Other; assumption.
    + intros [name w] m1 m2 Hp E. simpl in E |- *.
      assert (Hx : String.eqb name ATTR_XLINK_HREF = false)
        by (apply String.eqb_neq; exact (Xn _ Hp)). rewrite Hx.
      destruct (attr_absent w); [rewrite !lookup_delete_eq; reflexivity|].
      destruct (attr_differs old name w); [rewrite !lookup_insert_eq; reflexivity|exact E].
  - apply (fold_notin (sstep old) fst new (rendered old) k); [|exact Hin].
    intros p m' Hp Hne. apply Other; assumption.
Qed.

Lemma second_loop (old new : list (string * attrval)) (m : gmap string string) (k : string) :
  no_xlink old -> List.NoDup (map fst old) -> no_proto old -> no_proto new ->
  fold_left (fun a p => dstep new p a) old m !! k =
    if in_dec string_dec k (map fst new) then m !! k
    else if in_dec string_dec k (map fst old) then None else m !! k.
Proof.
  intros Xo No Po Pn.
  assert (Other : forall p m' k', In p old -> fst p <> k' -> dstep new p m' !! k' = m' !! k').
  { intros p m' k' Hp Hne. unfold dstep.
    destruct (attr_in new (fst p)); [reflexivity|].
    destruct (String.eqb (fst p) ATTR_XLINK_HREF); [reflexivity|apply lookup_delete_ne; exact Hne]. }
  destruct (in_dec string_dec k (map fst old)) as [Ho|Ho].
  - apply in_map_iff in Ho. destruct Ho as [[k0 v] [Hk Ho]]. simpl in Hk. subst k0.
    change k with (fst (k, v)).
    rewrite (fold_in (dstep new) fst old m (k, v)); [| | | exact No | exact Ho].
    + unfold dstep. simpl.
      assert (Hx : String.eqb k ATTR_XLINK_HREF = false) by (apply String.eqb_neq; exact (Xo _ Ho)).
      rewrite Hx. unfold attr_in.
      destruct (in_dec string_dec k (map fst new)) as [Hn|Hn].
      * apply in_map_iff in Hn. destruct Hn as [[k1 w] [Hk1 Hn]]. simpl in Hk1. subst k1.
        unfold attr_get. destruct (find (fun p => String.eqb (fst p) k) new) as [[k2 w2]|] eqn:F; [reflexivity|].
        pose proof (find_none _ _ F (k, w) Hn) as FF. simpl in FF. rewrite String.eqb_refl in FF. discriminate.
      * destruct (attr_get new k) as [w|] eqn:G; [apply attr_get_some in G; exfalso; apply Hn; exact (in_names _ _ _ G)|].
        rewrite (not_proto_existsb' k (Po _ Ho)). apply lookup_delete_eq.
    + intros p m' Hp k' Hne. apply Other; assumption.
    + intros p m1 m2 Hp E. unfold dstep.
      destruct (attr_in new (fst p)); [exact E|].
      destruct (String.eqb (fst p) ATTR_XLINK_HREF); [exact E|rewrite !lookup_delete_eq; reflexivity].
  - rewrite (fold_notin (dstep new) fst old m k); [|intros p m' Hp Hne; apply Other; assumption|exact Ho].
    destruct (in_dec string_dec k (map fst new)); reflexivity.
Qed.

(** [VElement.___morphAttrs] (attributes, not properties; without the
    class/id/style shortcut of simple attributes): if the real element
    carries the attributes [___actualize] rendered for [vFromEl], it
    carries afterwards the attributes rendered for [toEl] when [toEl] has
    a [null] key. With a key, the removal loop is skipped: an attribute
    of the previous render that [toEl] no longer has stays, every other
    attribute is the rendered one. The attribute names are distinct, not
    [xlink:href] and not members of [Object.prototype]; an object value
    kept by reference serializes the same; one attributes object is the
    same attributes. *)
Theorem morphAttrs_syncs (fromEl : nat) (vFrom toEl : velement) (s : mstate) (r : rnode) :
  dom s !! fromEl = Some r -> rattrs r = rendered (attrs vFrom) ->
  Z.testbit (flags toEl) 1 = false ->
  Z.testbit (flags toEl) 0 && Z.testbit (flags vFrom) 0 = false ->
  (attrs_ref vFrom = attrs_ref toEl -> attrs vFrom = attrs toEl) ->
  no_xlink (attrs vFrom) -> no_xlink (attrs toEl) ->
  List.NoDup (map fst (attrs vFrom)) -> List.NoDup (map fst (attrs toEl)) ->
  no_proto (attrs vFrom) -> no_proto (attrs toEl) ->
  (forall k ref j1 j2, In (k, AObj ref j1) (attrs vFrom) -> In (k, AObj ref j2) (attrs toEl) -> j1 = j2) ->
  exists s' r', morphAttrs fromEl vFrom toEl s = Some (tt, s') /\ dom s' !! fromEl = Some r' /\
    (vkey toEl = KNull -> rattrs r' = rendered (attrs toEl)) /\
    (vkey toEl <> KNull -> forall k, rattrs r' !! k =
        if in_dec string_dec k (map fst (attrs toEl)) then rendered (attrs toEl) !! k
        else rendered (attrs vFrom) !! k).
Proof.
  intros Hr Hra F1 F0 Href Xo Xn No Nn Po Pn J.
  set (s1 := with_vmap (<[fromEl := toEl]> (vmap s)) s).
  assert (Hr1 : dom s1 !! fromEl = Some r) by exact Hr.
  unfold morphAttrs. unfold bind at 1. unfold modify at 1. fold s1. rewrite F1.
  destruct (Nat.eqb (attrs_ref vFrom) (attrs_ref toEl)) eqn:Eref.
  - apply Nat.eqb_eq in Eref. pose proof (Href Eref) as Ea.
    exists s1, r. split; [reflexivity|]. split; [exact Hr1|]. rewrite Hra, Ea. split; [reflexivity|].
    intros _ k. destruct (in_dec string_dec k (map fst (attrs toEl))); reflexivity.
  - rewrite F0.
    destruct (mfold fromEl (attrs toEl)
                (fun p => let '(attrName0, attrValue) := p in
                  let attrName := if String.eqb attrName0 ATTR_XLINK_HREF then ATTR_HREF else attrName0 in
                  if attr_absent attrValue then removeAttribute fromEl attrName
                  else if attr_differs (Morph.attrs vFrom) attrName attrValue then
                    setAttribute fromEl attrName
                      (match attrValue with AStr x => x | _ => convertAttrValue attrValue end)
                  else ret tt)
                (sstep (Morph.attrs vFrom)))
      with (m0 := ret tt) (s0 := s1) (s := s1) (r := r) as [s2 [E2 D2]].
    + intros [name v] s' r' _ Hr'. simpl.
      destruct (attr_absent v); [apply removeAttribute_dom; exact Hr'|].
      destruct (attr_differs _ _ v); [apply setAttribute_dom; exact Hr'|].
      exists s'. split; [reflexivity|]. rewrite Hr'. destruct r'; reflexivity.
    + reflexivity.
    + exact Hr1.
    + cbv zeta in E2. unfold bind at 1. rewrite E2. rewrite rattrs_set in D2 || idtac.
      rewrite Hra in D2.
      assert (L1 : forall k, fold_left (fun a p => sstep (Morph.attrs vFrom) p a) (attrs toEl) (rendered (attrs vFrom)) !! k =
                    if in_dec string_dec k (map fst (attrs toEl)) then rendered (attrs toEl) !! k
                    else rendered (attrs vFrom) !! k)
        by (intros k; apply first_loop; assumption).
      destruct (vkey toEl) eqn:K.
      * exists s2. eexists. split; [reflexivity|]. split; [exact D2|]. split; [discriminate|].
        intros _ k. rewrite rattrs_set. apply L1.
      * destruct (mfold fromEl (Morph.attrs vFrom)
                  (fun p => let attrName := fst p in
                    if attr_in (attrs toEl) attrName then ret tt
                    else if String.eqb attrName ATTR_XLINK_HREF then ret tt
                    else removeAttribute fromEl attrName)
                  (dstep (attrs toEl)))
          with (m0 := ret tt) (s0 := s2) (s := s2) (r := set_rattrs (fold_left (fun a p => sstep (Morph.attrs vFrom) p a) (attrs toEl) (rendered (attrs vFrom))) r) as [s3 [E3 D3]].
        -- intros p s' r' _ Hr'. unfold dstep. simpl.
           destruct (attr_in (attrs toEl) (fst p)); [exists s'; split; [reflexivity|]; rewrite Hr'; destruct r'; reflexivity|].
           destruct (String.eqb (fst p) ATTR_XLINK_HREF).
           ++ exists s'. split; [reflexivity|]. rewrite Hr'. destruct r'; reflexivity.
           ++ apply removeAttribute_dom. exact Hr'.
        -- reflexivity.
        -- exact D2.
        -- exists s3. eexists. split; [exact E3|]. split; [exact D3|]. split; [|intros H; congruence].
           intros _. rewrite rattrs_set. apply map_eq. intros k.
           rewrite (second_loop (Morph.attrs vFrom) (attrs toEl) _ k Xo No Po Pn), rattrs_set, L1.
           destruct (in_dec string_dec k (map fst (attrs toEl))) as [Hn|Hn]; [reflexivity|].
           rewrite (rendered_notin (attrs toEl) k Xn Hn).
           destruct (in_dec string_dec k (map fst (Morph.attrs vFrom))) as [Ho|Ho]; [reflexivity|].
           apply rendered_notin; assumption.
      * exists s2. eexists. split; [reflexivity|]. split; [exact D2|]. split; [discriminate|].
        intros _ k. rewrite rattrs_set. apply L1.
Qed.

Lemma morphAttrs_syncs_witness :
  exists s' r',
    morphAttrs 0 (mkVElement "div" KNull 1 [("class", AStr "a"); ("title", AStr "t")] 0 None None false)
      (mkVElement "div" KNull 2 [("class", AStr "b"); ("id", ANum 3)] 0 None None false)
      (mkM {[0 := mkRNode (RElement "div") (rendered [("class", AStr "a"); ("title", AStr "t")])
                    "" false false false (-1) [] None]} ∅ ∅ ∅ ∅ ∅ [] 1 []) = Some (tt, s') /\
    dom s' !! 0 = Some r' /\ rattrs r' = rendered [("class", AStr "b"); ("id", ANum 3)].
Proof.
  assert (Xo : no_xlink [("class", AStr "a"); ("title", AStr "t")])
    by (intros p Hp; destruct Hp as [<-|[<-|[]]]; discriminate).
  assert (Xn : no_xlink [("class", AStr "b"); ("id", ANum 3)])
    by (intros p Hp; destruct Hp as [<-|[<-|[]]]; discriminate).
  assert (Po : no_proto [("class", AStr "a"); ("title", AStr "t")])
    by (intros p Hp; destruct Hp as [<-|[<-|[]]]; cbn [fst]; intro H; cbn [JSObj.proto_names In] in H;
        repeat (destruct H as [H|H]; [discriminate H|]); exact H).
  assert (Pn : no_proto [("class", AStr "b"); ("id", ANum 3)])
    by (intros p Hp; destruct Hp as [<-|[<-|[]]]; cbn [fst]; intro H; cbn [JSObj.proto_names In] in H;
        repeat (destruct H as [H|H]; [discriminate H|]); exact H).
  assert (No : List.NoDup (map fst [("class", AStr "a"); ("title", AStr "t")]))
    by (simpl; constructor; [simpl; intuition discriminate|constructor; [simpl; tauto|constructor]]).
  assert (Nn : List.NoDup (map fst [("class", AStr "b"); ("id", ANum 3)]))
    by (simpl; constructor; [simpl; intuition discriminate|constructor; [simpl; tauto|constructor]]).
  assert (J : forall k ref j1 j2, In (k, AObj ref j1) [("class", AStr "a"); ("title", AStr "t")] ->
                In (k, AObj ref j2) [("class", AStr "b"); ("id", ANum 3)] -> j1 = j2)
    by (intros k ref j1 j2 H; simpl in H; intuition discriminate).
  destruct (morphAttrs_syncs 0 (mkVElement "div" KNull 1 [("class", AStr "a"); ("title", AStr "t")] 0 None None false)
              (mkVElement "div" KNull 2 [("class", AStr "b"); ("id", ANum 3)] 0 None None false)
              (mkM {[0 := mkRNode (RElement "div") (rendered [("class", AStr "a"); ("title", AStr "t")])
                    "" false false false (-1) [] None]} ∅ ∅ ∅ ∅ ∅ [] 1 [])
              (mkRNode (RElement "div") (rendered [("class", AStr "a"); ("title", AStr "t")])
                    "" false false false (-1) [] None)
              (lookup_singleton_eq _ _) eq_refl eq_refl eq_refl ltac:(discriminate)
              Xo Xn No Nn Po Pn J) as (s' & r' & E & D & K & _).
  exists s', r'. split; [exact E|]. split; [exact D|]. apply K. reflexivity.
Defined.

End MorphAttrsFacts.

